(** * antigravity2api: the OpenAI -> Antigravity request adapter

    A shallow embedding of [src/utils/utils.js]: the content extractor,
    the message-history transcoder, the model policy resolver, the
    generation config builder, the tool schema normalizer and the
    request-envelope builder, followed by the properties established
    about them.

    Modelling conventions.
    - A JavaScript string is a [string]: a sequence of 8-bit code units
      (the Latin-1 range of UTF-16).  Code units above 255 are outside
      the model; among the code units inside it, the white space that
      [trim] removes is TAB, LF, VT, FF, CR, SPACE and NBSP.
    - A JavaScript value that is only stored or passed on is a [value]
      (JSON plus [undefined]); an object is the list of its own
      enumerable properties in [Object.entries] order.
    - Client data has the shape the chat-completion protocol gives it:
      a content is a string, an array of items or [null]; a tool call
      has an id and a function with a name and an argument string.
    - An optional property of a produced object is an [option]: [None]
      means that the object has no such property.
    - A [TypeError] raised by the code is the [TypeError] result. *)

From Stdlib Require Import String Ascii List Bool ZArith QArith.
Import ListNotations.

Open Scope string_scope.
Open Scope list_scope.

(* ================================================================== *)
(** * Part I: the program *)
(* ================================================================== *)

(* ================================================================== *)
(** ** JavaScript strings                                              *)
(* ================================================================== *)

Module JsString.

(** White space and line terminators of ECMAScript that fit in one
    8-bit code unit. *)
Definition isWhiteSpace (c : ascii) : bool :=
  let n := nat_of_ascii c in
  ((9 <=? n) && (n <=? 13) || (n =? 32) || (n =? 160))%nat.

Definition isEmpty (s : string) : bool :=
  match s with EmptyString => true | String _ _ => false end.

(** [s.trimStart()] *)
Fixpoint trimStart (s : string) : string :=
  match s with
  | EmptyString => EmptyString
  | String c r => if isWhiteSpace c then trimStart r else s
  end.

(** [s.trimEnd()] *)
Fixpoint trimEnd (s : string) : string :=
  match s with
  | EmptyString => EmptyString
  | String c r =>
      let r' := trimEnd r in
      if isWhiteSpace c && isEmpty r' then EmptyString else String c r'
  end.

(** [s.trim()] *)
Definition trim (s : string) : string := trimEnd (trimStart s).

(** [s.startsWith(p)] *)
Definition startsWith (s p : string) : bool := String.prefix p s.

(** [s.endsWith(p)] *)
Definition endsWith (s p : string) : bool :=
  let ls := String.length s in
  let lp := String.length p in
  (lp <=? ls)%nat && String.eqb (String.substring (ls - lp) lp s) p.

(** [s.includes(p)] *)
Fixpoint includes (s p : string) : bool :=
  String.prefix p s ||
  match s with
  | EmptyString => false
  | String _ r => includes r p
  end.

(** [l.join(sep)] on an array of strings *)
Fixpoint join (sep : string) (l : list string) : string :=
  match l with
  | [] => ""
  | [s] => s
  | s :: r => s ++ sep ++ join sep r
  end.

(** A string is truthy when it is not empty. *)
Definition truthy (s : string) : bool := negb (isEmpty s).

End JsString.

(* ================================================================== *)
(** ** JavaScript values                                               *)
(* ================================================================== *)

(** JSON values plus [undefined].  Numbers are only ever stored, never
    computed with, so any carrier does; [Q] has the fractions that
    sampling parameters need. *)
#[local] Unset Elimination Schemes.
Inductive value : Type :=
| VUndefined
| VNull
| VBool (b : bool)
| VNum (q : Q)
| VStr (s : string)
| VArr (items : list value)
| VObj (props : list (string * value)).
#[local] Set Elimination Schemes.

(** [a ?? b] *)
Definition nullish (a b : value) : value :=
  match a with
  | VUndefined | VNull => b
  | _ => a
  end.

Notation "a ?? b" := (nullish a b) (at level 45, right associativity).

(** An induction principle that reaches the values nested in arrays and
    objects. *)
Section ValueInd.
Variable P : value -> Prop.
Hypothesis Hundef : P VUndefined.
Hypothesis Hnull : P VNull.
Hypothesis Hbool : forall b, P (VBool b).
Hypothesis Hnum : forall q, P (VNum q).
Hypothesis Hstr : forall s, P (VStr s).
Hypothesis Harr : forall l, Forall P l -> P (VArr l).
Hypothesis Hobj : forall l, Forall (fun kv => P (snd kv)) l -> P (VObj l).

Fixpoint value_nested_ind (v : value) : P v :=
  match v with
  | VUndefined => Hundef
  | VNull => Hnull
  | VBool b => Hbool b
  | VNum q => Hnum q
  | VStr s => Hstr s
  | VArr l =>
      Harr l ((fix go (l : list value) : Forall P l :=
                 match l with
                 | [] => Forall_nil _
                 | x :: r => Forall_cons _ (value_nested_ind x) (go r)
                 end) l)
  | VObj l =>
      Hobj l ((fix go (l : list (string * value))
                : Forall (fun kv => P (snd kv)) l :=
                 match l with
                 | [] => Forall_nil _
                 | kv :: r => Forall_cons _ (value_nested_ind (snd kv)) (go r)
                 end) l)
  end.
End ValueInd.

(* ================================================================== *)
(** ** Tool schema normalizer ([cleanParameters])                      *)
(* ================================================================== *)

Definition EXCLUDED_KEYS : list string :=
  ["$schema"; "additionalProperties"; "minLength"; "maxLength";
   "minItems"; "maxItems"; "uniqueItems"].

(** [EXCLUDED_KEYS.has(key)] *)
Definition excluded (key : string) : bool :=
  existsb (String.eqb key) EXCLUDED_KEYS.

(** [cleaned[key] = v] on an object: the property is overwritten where
    it stands, or added after the others.  (The key [__proto__], whose
    assignment changes the prototype and adds no property, is outside
    the model.) *)
Fixpoint assign (key : string) (v : value) (props : list (string * value))
  : list (string * value) :=
  match props with
  | [] => [(key, v)]
  | (k, w) :: r =>
      if String.eqb k key then (k, v) :: r else (k, w) :: assign key v r
  end.

(** [cleanParameters(obj)].

    A falsy or non-object argument is returned as it is.  For an array
    [Object.entries] yields the indices in order, none of which is
    excluded, and the assignments [cleaned[i] = ...] fill the copy
    element by element.  For an object the loop runs over the entries
    and assigns into [cleaned], which starts empty.  The source tests
    [value && typeof value === 'object'] before the recursive call and
    the callee repeats the test: both leave a leaf untouched, so one
    recursive function covers them. *)
Fixpoint cleanParameters (obj : value) : value :=
  match obj with
  | VArr items => VArr (map cleanParameters items)
  | VObj props =>
      VObj (fold_left
              (fun cleaned entry =>
                 let '(key, v) := entry in
                 if excluded key then cleaned
                 else assign key (cleanParameters v) cleaned)
              props [])
  | leaf => leaf
  end.

(** One turn of the loop over the entries of an object. *)
Definition cleanEntry (cleaned : list (string * value))
    (entry : string * value) : list (string * value) :=
  let '(key, v) := entry in
  if excluded key then cleaned else assign key (cleanParameters v) cleaned.

(* ================================================================== *)
(** ** Data model                                                      *)
(* ================================================================== *)

(** Results of code that may raise a [TypeError]. *)
Inductive result (A : Type) : Type :=
| Ok (a : A)
| TypeError.
Arguments Ok {A} a.
Arguments TypeError {A}.

Definition bind {A B : Type} (r : result A) (k : A -> result B) : result B :=
  match r with
  | Ok a => k a
  | TypeError => TypeError
  end.

Notation "x <- r ;; k" := (bind r (fun x => k))
  (at level 61, r at next level, right associativity).

(** One item of a multimodal [content] array. *)
Inductive ContentItem : Type :=
| ItemText (text : string)              (* {type: 'text', text} *)
| ItemImageUrl (url : option string)    (* {type: 'image_url', image_url: {url}};
                                           [None]: no [image_url] or no [url] *)
| ItemOther.                            (* any other [type] *)

(** The [content] of a client message: a string, a multimodal array, or
    [null] (also: the property is missing). *)
Inductive Content : Type :=
| CStr (s : string)
| CArr (items : list ContentItem)
| CNull.

Record FunctionRef : Type := {
  fn_name : string;
  fn_arguments : string
}.

Record ToolCall : Type := {
  call_id : string;
  call_function : FunctionRef
}.

(** A client message.  [msg_tool_calls] is empty when the property is
    missing; [msg_tool_call_id] is read on [tool] messages only. *)
Record Message : Type := {
  msg_role : string;
  msg_content : Content;
  msg_tool_calls : list ToolCall;
  msg_tool_call_id : string
}.

Record InlineData : Type := {
  mimeType : string;
  data : string
}.

(** One part of an upstream turn. *)
Inductive Part : Type :=
| PText (text : string)
| PInlineData (inlineData : InlineData)
| PFunctionCall (id name query : string)
| PFunctionResponse (id name : string) (output : Content).

(** The two roles the transcoder writes: ["user"] and ["model"]. *)
Inductive Role : Type := User | Model.

Definition Role_eqb (a b : Role) : bool :=
  match a, b with
  | User, User | Model, Model => true
  | _, _ => false
  end.

Record Turn : Type := {
  role : Role;
  parts : list Part
}.

Record Extracted : Type := {
  ex_text : string;
  ex_images : list InlineData
}.

(** [part.functionResponse] is truthy *)
Definition isFunctionResponse (p : Part) : bool :=
  match p with PFunctionResponse _ _ _ => true | _ => false end.

(* ================================================================== *)
(** ** Content extractor ([extractImagesFromContent])                  *)
(* ================================================================== *)

(** [\w] *)
Definition isWordChar (c : ascii) : bool :=
  let n := nat_of_ascii c in
  ((48 <=? n) && (n <=? 57) || (65 <=? n) && (n <=? 90)
   || (97 <=? n) && (n <=? 122) || (n =? 95))%nat.

(** [.] matches every code unit but a line terminator. *)
Definition isLineTerminator (c : ascii) : bool :=
  let n := nat_of_ascii c in ((n =? 10) || (n =? 13))%nat.

Fixpoint stripPrefix (p s : string) : option string :=
  match p, s with
  | EmptyString, _ => Some s
  | String a p', String b s' => if Ascii.eqb a b then stripPrefix p' s' else None
  | String _ _, EmptyString => None
  end.

(** The longest run of word characters at the head, and what follows. *)
Fixpoint spanWord (s : string) : string * string :=
  match s with
  | EmptyString => (EmptyString, EmptyString)
  | String c r =>
      if isWordChar c
      then let (w, rest) := spanWord r in (String c w, rest)
      else (EmptyString, s)
  end.

Fixpoint anyChar (f : ascii -> bool) (s : string) : bool :=
  match s with
  | EmptyString => false
  | String c r => f c || anyChar f r
  end.

(** [imageUrl.match(/^data:image\/(\w+);base64,(.+)$/)]: the two
    groups, when the whole string matches.  [\w+] cannot run over the
    [;] that must follow it, so it is the longest word prefix. *)
Definition matchDataImage (imageUrl : string) : option (string * string) :=
  match stripPrefix "data:image/" imageUrl with
  | None => None
  | Some r =>
      let (format, r1) := spanWord r in
      if JsString.isEmpty format then None
      else match stripPrefix ";base64," r1 with
           | None => None
           | Some base64Data =>
               if JsString.isEmpty base64Data
                  || anyChar isLineTerminator base64Data
               then None
               else Some (format, base64Data)
           end
  end.

(** The body of the loop over a multimodal array. *)
Definition extractItem (result : Extracted) (item : ContentItem) : Extracted :=
  match item with
  | ItemText text =>
      {| ex_text := ex_text result ++ text; ex_images := ex_images result |}
  | ItemImageUrl url =>
      let imageUrl := match url with Some u => u | None => "" end in
      match matchDataImage imageUrl with
      | Some (format, base64Data) =>
          {| ex_text := ex_text result;
             ex_images := ex_images result
                          ++ [{| mimeType := "image/" ++ format;
                                 data := base64Data |}] |}
      | None => result
      end
  | ItemOther => result
  end.

Definition extractImagesFromContent (content : Content) : Extracted :=
  let result := {| ex_text := ""; ex_images := [] |} in
  match content with
  | CStr s => {| ex_text := s; ex_images := [] |}
  | CArr items => fold_left extractItem items result
  | CNull => result
  end.

(* ================================================================== *)
(** ** Message-history transcoder                                      *)
(* ================================================================== *)

(** [antigravityMessages[antigravityMessages.length - 1]] *)
Fixpoint lastMessage (antigravityMessages : list Turn) : option Turn :=
  match antigravityMessages with
  | [] => None
  | [t] => Some t
  | _ :: r => lastMessage r
  end.

(** [lastMessage.parts.push(...ps)]: the last turn of the list is
    updated in place. *)
Fixpoint pushToLast (ps : list Part) (antigravityMessages : list Turn)
  : list Turn :=
  match antigravityMessages with
  | [] => []
  | [t] => [{| role := role t; parts := parts t ++ ps |}]
  | t :: r => t :: pushToLast ps r
  end.

(** [lastMessage?.role === r] *)
Definition lastRoleIs (r : Role) (antigravityMessages : list Turn) : bool :=
  match lastMessage antigravityMessages with
  | Some t => Role_eqb (role t) r
  | None => false
  end.

Definition handleUserMessage (extracted : Extracted)
    (antigravityMessages : list Turn) : list Turn :=
  antigravityMessages
  ++ [{| role := User;
         parts := PText (ex_text extracted)
                  :: map PInlineData (ex_images extracted) |}].

(** [message.tool_calls && message.tool_calls.length > 0] *)
Definition hasToolCalls (message : Message) : bool :=
  (0 <? List.length (msg_tool_calls message))%nat.

(** [message.content && message.content.trim() !== ''].  An array is
    truthy and has no [trim]: the call raises. *)
Definition hasContent (message : Message) : result bool :=
  match msg_content message with
  | CNull => Ok false
  | CStr s => Ok (JsString.truthy s
                  && negb (JsString.isEmpty (JsString.trim s)))
  | CArr _ => TypeError
  end.

Definition toFunctionCall (toolCall : ToolCall) : Part :=
  PFunctionCall (call_id toolCall)
                (fn_name (call_function toolCall))
                (fn_arguments (call_function toolCall)).

Definition handleAssistantMessage (message : Message)
    (antigravityMessages : list Turn) : result (list Turn) :=
  hasContent_ <- hasContent message ;;
  let antigravityTools :=
    if hasToolCalls message
    then map toFunctionCall (msg_tool_calls message) else [] in
  if lastRoleIs Model antigravityMessages
     && hasToolCalls message && negb hasContent_
  then Ok (pushToLast antigravityTools antigravityMessages)
  else
    let text :=
      if hasContent_ then
        match msg_content message with
        | CStr s => [PText (JsString.trimEnd s)]
        | _ => []
        end
      else [] in
    Ok (antigravityMessages
        ++ [{| role := Model; parts := text ++ antigravityTools |}]).

(** The inner loop of the scan: the name of the first functionCall
    part of a turn whose id is the one looked for. *)
Fixpoint findInParts (tool_call_id : string) (ps : list Part) : option string :=
  match ps with
  | [] => None
  | PFunctionCall id name _ :: r =>
      if String.eqb id tool_call_id then Some name
      else findInParts tool_call_id r
  | _ :: r => findInParts tool_call_id r
  end.

(** The outer loop, from the last turn to the first: [functionName]
    is [''] until a model turn assigns a truthy name, which ends the
    scan; a match with an empty name leaves it [''] and the scan goes
    on. *)
Fixpoint scanTurns (tool_call_id : string) (fromLast : list Turn) : string :=
  match fromLast with
  | [] => ""
  | t :: earlier =>
      match role t with
      | Model =>
          match findInParts tool_call_id (parts t) with
          | Some name =>
              if JsString.truthy name then name
              else scanTurns tool_call_id earlier
          | None => scanTurns tool_call_id earlier
          end
      | User => scanTurns tool_call_id earlier
      end
  end.

Definition findFunctionName (tool_call_id : string)
    (antigravityMessages : list Turn) : string :=
  scanTurns tool_call_id (rev antigravityMessages).

Definition handleToolCall (message : Message)
    (antigravityMessages : list Turn) : list Turn :=
  let functionName :=
    findFunctionName (msg_tool_call_id message) antigravityMessages in
  let functionResponse :=
    PFunctionResponse (msg_tool_call_id message) functionName
                      (msg_content message) in
  match lastMessage antigravityMessages with
  | Some t =>
      if Role_eqb (role t) User && existsb isFunctionResponse (parts t)
      then pushToLast [functionResponse] antigravityMessages
      else antigravityMessages
           ++ [{| role := User; parts := [functionResponse] |}]
  | None =>
      antigravityMessages ++ [{| role := User; parts := [functionResponse] |}]
  end.

(** The body of the loop of [openaiMessageToAntigravity]. *)
Definition handleMessage (antigravityMessages : list Turn)
    (message : Message) : result (list Turn) :=
  if String.eqb (msg_role message) "user" then
    Ok (handleUserMessage (extractImagesFromContent (msg_content message))
                          antigravityMessages)
  else if String.eqb (msg_role message) "system" then
    Ok (handleUserMessage (extractImagesFromContent (msg_content message))
                          antigravityMessages)
  else if String.eqb (msg_role message) "assistant" then
    handleAssistantMessage message antigravityMessages
  else if String.eqb (msg_role message) "tool" then
    Ok (handleToolCall message antigravityMessages)
  else Ok antigravityMessages.

(** The loop, from a given turn list. *)
Fixpoint transcodeFrom (antigravityMessages : list Turn)
    (openaiMessages : list Message) : result (list Turn) :=
  match openaiMessages with
  | [] => Ok antigravityMessages
  | message :: rest =>
      next <- handleMessage antigravityMessages message ;;
      transcodeFrom next rest
  end.

Definition openaiMessageToAntigravity (openaiMessages : list Message)
  : result (list Turn) :=
  transcodeFrom [] openaiMessages.

(* ================================================================== *)
(** ** Model policy resolver                                           *)
(* ================================================================== *)

Definition modelMapping (modelName : string) : string :=
  if String.eqb modelName "claude-sonnet-4-5-thinking" then "claude-sonnet-4-5"
  else if String.eqb modelName "claude-opus-4-5" then "claude-opus-4-5-thinking"
  else if String.eqb modelName "gemini-2.5-flash-thinking" then "gemini-2.5-flash"
  else modelName.

Definition isEnableThinking (modelName : string) : bool :=
  JsString.endsWith modelName "-thinking"
  || String.eqb modelName "gemini-2.5-pro"
  || JsString.startsWith modelName "gemini-3-pro-"
  || String.eqb modelName "rev19-uic3-1p"
  || String.eqb modelName "gpt-oss-120b-medium".

(* ================================================================== *)
(** ** Configuration, parameters and the produced objects              *)
(* ================================================================== *)

(** [config.defaults] *)
Record Defaults : Type := {
  def_temperature : value;
  def_top_p : value;
  def_top_k : value;
  def_max_tokens : value;
  def_thinking_budget : value
}.

(** The part of [config] that [utils.js] reads. *)
Record Config : Type := {
  cfg_systemInstruction : string;
  cfg_defaults : Defaults
}.

(** The client's generation parameters; a missing one is [VUndefined]. *)
Record Parameters : Type := {
  par_temperature : value;
  par_top_p : value;
  par_top_k : value;
  par_max_tokens : value;
  par_thinking_budget : value;
  par_reasoning_effort : value
}.

Record ThinkingConfig : Type := {
  includeThoughts : bool;
  thinkingBudget : value
}.

(** [topP] is [None] once [delete generationConfig.topP] has run. *)
Record GenerationConfig : Type := {
  topP : option value;
  topK : value;
  temperature : value;
  candidateCount : Z;
  maxOutputTokens : value;
  stopSequences : list string;
  thinkingConfig : ThinkingConfig
}.

Record ToolFunction : Type := {
  tf_name : string;
  tf_description : value;
  tf_parameters : value
}.

(** A client tool declaration: [{type: 'function', function: {...}}]. *)
Record Tool : Type := {
  tool_function : ToolFunction
}.

Record FunctionDeclaration : Type := {
  fd_name : string;
  fd_description : value;
  fd_parameters : value
}.

Record AntigravityTool : Type := {
  functionDeclarations : list FunctionDeclaration
}.

Record FunctionCallingConfig : Type := { mode : string }.
Record ToolConfig : Type := { functionCallingConfig : FunctionCallingConfig }.

(** The bound credential. *)
Record Token : Type := {
  projectId : string;
  sessionId : string
}.

(** [requestBody.request]: [tools] and [systemInstruction] are the
    optional properties of the envelope. *)
Record Request : Type := {
  contents : list Turn;
  tools : option (list AntigravityTool);
  toolConfig : ToolConfig;
  generationConfig : GenerationConfig;
  req_sessionId : string;
  systemInstruction : option Turn
}.

Record RequestBody : Type := {
  project : string;
  requestId : string;
  request : Request;
  model : string;
  userAgent : string
}.

(* ================================================================== *)
(** ** Tool declarations ([convertOpenAIToolsToAntigravity])           *)
(* ================================================================== *)

(** [openaiTools] is [None] when the client sent no [tools] property. *)
Definition convertOpenAIToolsToAntigravity (openaiTools : option (list Tool))
  : list AntigravityTool :=
  match openaiTools with
  | None => []
  | Some [] => []
  | Some l =>
      map (fun tool =>
             {| functionDeclarations :=
                  [{| fd_name := tf_name (tool_function tool);
                      fd_description := tf_description (tool_function tool);
                      fd_parameters :=
                        cleanParameters (tf_parameters (tool_function tool)) |}]
             |}) l
  end.

(* ================================================================== *)
(** ** The functions that read the configuration                       *)
(* ================================================================== *)

(** [REASONING_EFFORT_MAP[key]] for the keys of the table; any other
    string finds nothing.  (Keys that are not strings, and the names
    every object inherits, are outside the model.) *)
Definition REASONING_EFFORT_MAP (key : value) : value :=
  match key with
  | VStr s =>
      if String.eqb s "low" then VNum 1024
      else if String.eqb s "medium" then VNum 16000
      else if String.eqb s "high" then VNum 32000
      else VUndefined
  | _ => VUndefined
  end.

Definition isUndefined (v : value) : bool :=
  match v with VUndefined => true | _ => false end.

Definition STOP_SEQUENCES : list string :=
  ["<|user|>"; "<|bot|>"; "<|context_request|>"; "<|endoftext|>";
   "<|end_of_turn|>"].

(** The text of a [system] message as [extractSystemInstruction] reads
    it. *)
Definition systemText (content : Content) : string :=
  match content with
  | CStr s => s
  | CArr items =>
      JsString.join ""
        (flat_map (fun item => match item with
                               | ItemText text => [text]
                               | _ => []
                               end) items)
  | CNull => ""
  end.

(** The loop that collects the leading [system] messages. *)
Fixpoint collectSystemTexts (openaiMessages : list Message) : list string :=
  match openaiMessages with
  | [] => []
  | message :: rest =>
      if String.eqb (msg_role message) "system" then
        let content := systemText (msg_content message) in
        if JsString.truthy (JsString.trim content)
        then JsString.trim content :: collectSystemTexts rest
        else collectSystemTexts rest
      else []
  end.

(** The loop of [generateRequestBody] that finds [startIndex]. *)
Fixpoint startIndex (openaiMessages : list Message) : nat :=
  match openaiMessages with
  | [] => 0
  | message :: rest =>
      if String.eqb (msg_role message) "system" then S (startIndex rest)
      else 0
  end.

Section WithConfig.

Variable config : Config.

Definition extractSystemInstruction (openaiMessages : list Message)
  : string :=
  let baseSystem := cfg_systemInstruction config in
  let systemTexts := collectSystemTexts openaiMessages in
  let parts1 :=
    if JsString.truthy (JsString.trim baseSystem)
    then [JsString.trim baseSystem] else [] in
  let parts2 :=
    if (0 <? List.length systemTexts)%nat
    then [JsString.join (String "010" (String "010" "")) systemTexts]
    else [] in
  JsString.join (String "010" (String "010" "")) (parts1 ++ parts2).

Definition generateGenerationConfig (parameters : Parameters)
    (enableThinking : bool) (actualModelName : string) : GenerationConfig :=
  let defaultThinkingBudget :=
    def_thinking_budget (cfg_defaults config) ?? VNum 16000 in
  let thinkingBudget_ :=
    if enableThinking then
      if negb (isUndefined (par_thinking_budget parameters))
      then par_thinking_budget parameters
      else if negb (isUndefined (par_reasoning_effort parameters))
      then REASONING_EFFORT_MAP (par_reasoning_effort parameters)
           ?? defaultThinkingBudget
      else defaultThinkingBudget
    else VNum 0 in
  let generationConfig_ :=
    {| topP := Some (par_top_p parameters ?? def_top_p (cfg_defaults config));
       topK := par_top_k parameters ?? def_top_k (cfg_defaults config);
       temperature :=
         par_temperature parameters ?? def_temperature (cfg_defaults config);
       candidateCount := 1;
       maxOutputTokens :=
         par_max_tokens parameters ?? def_max_tokens (cfg_defaults config);
       stopSequences := STOP_SEQUENCES;
       thinkingConfig := {| includeThoughts := enableThinking;
                            thinkingBudget := thinkingBudget_ |} |} in
  if enableThinking && JsString.includes actualModelName "claude"
  then {| topP := None;
          topK := topK generationConfig_;
          temperature := temperature generationConfig_;
          candidateCount := candidateCount generationConfig_;
          maxOutputTokens := maxOutputTokens generationConfig_;
          stopSequences := stopSequences generationConfig_;
          thinkingConfig := thinkingConfig generationConfig_ |}
  else generationConfig_.

(** [generateRequestBody]; [requestId_] is what [generateRequestId()]
    returned for this call. *)
Definition generateRequestBody (requestId_ : string)
    (openaiMessages : list Message) (modelName : string)
    (parameters : Parameters) (openaiTools : option (list Tool))
    (token : Token) : result RequestBody :=
  let enableThinking := isEnableThinking modelName in
  let actualModelName := modelMapping modelName in
  let mergedSystemInstruction := extractSystemInstruction openaiMessages in
  let filteredMessages := skipn (startIndex openaiMessages) openaiMessages in
  contents_ <- openaiMessageToAntigravity filteredMessages ;;
  Ok {| project := projectId token;
        requestId := requestId_;
        request :=
          {| contents := contents_;
             tools := Some (convertOpenAIToolsToAntigravity openaiTools);
             toolConfig :=
               {| functionCallingConfig := {| mode := "VALIDATED" |} |};
             generationConfig :=
               generateGenerationConfig parameters enableThinking
                                        actualModelName;
             req_sessionId := sessionId token;
             systemInstruction :=
               if JsString.truthy mergedSystemInstruction
               then Some {| role := User;
                            parts := [PText mergedSystemInstruction] |}
               else None |};
        model := actualModelName;
        userAgent := "antigravity" |}.

End WithConfig.

(* ================================================================== *)
(** * Part II: the vocabulary of the properties *)
(* ================================================================== *)

(* ================================================================== *)
(** ** Clean objects                                                   *)
(* ================================================================== *)

(** An object that cleaning leaves as it is: its keys are distinct and
    not excluded, and its values are clean. *)
Definition cleanObject (props : list (string * value)) : Prop :=
  NoDup (map fst props)
  /\ forall k v, In (k, v) props ->
                 excluded k = false /\ cleanParameters v = v.

(* ================================================================== *)
(** ** Which message lists the transcoder accepts                      *)
(* ================================================================== *)

(** The branch of the loop a message takes. *)
Inductive MessageKind : Type := KUser | KAssistant | KTool | KIgnored.

Definition kindOf (message : Message) : MessageKind :=
  if String.eqb (msg_role message) "user" then KUser
  else if String.eqb (msg_role message) "system" then KUser
  else if String.eqb (msg_role message) "assistant" then KAssistant
  else if String.eqb (msg_role message) "tool" then KTool
  else KIgnored.

(** The one message on which the loop raises: an assistant message
    whose content is an array. *)
Definition raises (message : Message) : bool :=
  match kindOf message, msg_content message with
  | KAssistant, CArr _ => true
  | _, _ => false
  end.

Definition accepted (openaiMessages : list Message) : bool :=
  forallb (fun message => negb (raises message)) openaiMessages.

(** The text part an assistant message contributes. *)
Definition textParts (message : Message) : list Part :=
  match msg_content message with
  | CStr s =>
      if JsString.truthy s && negb (JsString.isEmpty (JsString.trim s))
      then [PText (JsString.trimEnd s)] else []
  | _ => []
  end.

(** The functionCall parts an assistant message contributes. *)
Definition callParts (message : Message) : list Part :=
  map toFunctionCall (msg_tool_calls message).

(** The functionResponse part a tool message contributes. *)
Definition responsePart (message : Message) (antigravityMessages : list Turn)
  : Part :=
  PFunctionResponse (msg_tool_call_id message)
    (findFunctionName (msg_tool_call_id message) antigravityMessages)
    (msg_content message).

(** The parts of a user turn made from a user or system message. *)
Definition userParts (message : Message) : list Part :=
  let extracted := extractImagesFromContent (msg_content message) in
  PText (ex_text extracted) :: map PInlineData (ex_images extracted).

(* ================================================================== *)
(** ** Merge decisions and adjacent turns                             *)
(* ================================================================== *)

(** Some two neighbours of the turn list have the same role. *)
Fixpoint adjacentSameRole (ts : list Turn) : bool :=
  match ts with
  | t1 :: ((t2 :: _) as r) =>
      Role_eqb (role t1) (role t2) || adjacentSameRole r
  | _ => false
  end.

(** What the merge decisions look at: the last turn of the list. *)
Inductive LastTurn : Type :=
| NoTurn          (* the list is empty *)
| ModelTurn       (* a model turn *)
| UserPlain       (* a user turn without functionResponse part *)
| UserResponses.  (* a user turn with a functionResponse part *)

Definition lastTurnOf (ts : list Turn) : LastTurn :=
  match lastMessage ts with
  | None => NoTurn
  | Some t =>
      match role t with
      | Model => ModelTurn
      | User => if existsb isFunctionResponse (parts t)
                then UserResponses else UserPlain
      end
  end.

(** A message is merged into the last turn instead of opening a turn:
    an assistant message with tool calls and no text after a model
    turn, a tool message after a user turn that holds a
    functionResponse part. *)
Definition merges (l : LastTurn) (m : Message) : bool :=
  match kindOf m, l with
  | KAssistant, ModelTurn =>
      hasToolCalls m
      && match hasContent m with Ok b => negb b | TypeError => false end
  | KTool, UserResponses => true
  | _, _ => false
  end.

(** A message opens a turn of the role of the last turn. *)
Definition clashes (l : LastTurn) (m : Message) : bool :=
  negb (merges l m)
  && match kindOf m, l with
     | KUser, (UserPlain | UserResponses) => true
     | KAssistant, ModelTurn => true
     | KTool, (UserPlain | UserResponses) => true
     | _, _ => false
     end.

(** The last turn after the message. *)
Definition lastTurnAfter (l : LastTurn) (m : Message) : LastTurn :=
  match kindOf m with
  | KUser => UserPlain
  | KAssistant => ModelTurn
  | KTool => UserResponses
  | KIgnored => l
  end.

(** Some message of the list opens a turn of the role of the turn
    before it. *)
Fixpoint someClash (l : LastTurn) (msgs : list Message) : bool :=
  match msgs with
  | [] => false
  | m :: rest => clashes l m || someClash (lastTurnAfter l m) rest
  end.

(** The claim of C1 in the terms of the model. *)
Definition never_adjacent_same_role : Prop :=
  forall msgs out,
    openaiMessageToAntigravity msgs = Ok out -> adjacentSameRole out = false.

(* ================================================================== *)
(** ** Parts and where they stand                                     *)
(* ================================================================== *)

(** Part [p] stands in a turn of role [r]. *)
Definition occurs (r : Role) (p : Part) (ts : list Turn) : Prop :=
  exists t, In t ts /\ role t = r /\ In p (parts t).

(** The role and the parts a message adds to the turn list. *)
Definition contribution (ts : list Turn) (m : Message) : Role * list Part :=
  match kindOf m with
  | KUser => (User, userParts m)
  | KAssistant => (Model, textParts m ++ callParts m)
  | KTool => (User, [responsePart m ts])
  | KIgnored => (User, [])
  end.

(* ================================================================== *)
(** ** Tool calls and their answers                                   *)
(* ================================================================== *)

(** Every tool message answers a call emitted before it: its
    [tool_call_id] is the id of a tool call of an earlier assistant
    message.  [emitted] holds the ids emitted so far. *)
Fixpoint answersEmittedCalls (emitted : list string) (msgs : list Message)
  : bool :=
  match msgs with
  | [] => true
  | m :: rest =>
      match kindOf m with
      | KAssistant =>
          answersEmittedCalls (emitted ++ map call_id (msg_tool_calls m)) rest
      | KTool =>
          existsb (String.eqb (msg_tool_call_id m)) emitted
          && answersEmittedCalls emitted rest
      | _ => answersEmittedCalls emitted rest
      end
  end.

(** The tool calls the transcoder turns into functionCall parts. *)
Definition callsOf (m : Message) : list ToolCall :=
  match kindOf m with
  | KAssistant => msg_tool_calls m
  | _ => []
  end.

Definition allCalls (msgs : list Message) : list ToolCall :=
  flat_map callsOf msgs.

(** Every tool call names its function. *)
Definition callsNamed (msgs : list Message) : bool :=
  forallb (fun c => JsString.truthy (fn_name (call_function c)))
          (allCalls msgs).

(** The claim of C5 in the terms of the model. *)
Definition responses_carry_call_names : Prop :=
  forall msgs out,
    answersEmittedCalls [] msgs = true ->
    openaiMessageToAntigravity msgs = Ok out ->
    forall r id name output,
      occurs r (PFunctionResponse id name output) out ->
      name <> ""
      /\ exists q, occurs Model (PFunctionCall id name q) out.

(** What the turn list holds while the loop runs. *)
Record Resolved (emitted : list string) (ts : list Turn) : Prop := {
  calls_named : forall r id name q,
      occurs r (PFunctionCall id name q) ts -> r = Model /\ name <> "";
  emitted_present : forall id,
      In id emitted -> exists name q, occurs Model (PFunctionCall id name q) ts;
  responses_named : forall r id name output,
      occurs r (PFunctionResponse id name output) ts ->
      name <> "" /\ exists q, occurs Model (PFunctionCall id name q) ts
}.

(* ================================================================== *)
(** ** The envelope                                                   *)
(* ================================================================== *)

(** No message, or a first message whose role is not ["system"]. *)
Definition noLeadingSystem (msgs : list Message) : bool :=
  match msgs with
  | [] => true
  | m :: _ => negb (String.eqb (msg_role m) "system")
  end.

(** The claim of C2 in the terms of the model: with no tool
    declarations the envelope has no [tools] property, and with an
    empty merged system instruction it has no [systemInstruction]
    property. *)
Definition omits_empty_tools_and_systemInstruction : Prop :=
  forall config rid msgs modelName parameters openaiTools token r,
    generateRequestBody config rid msgs modelName parameters openaiTools token
    = Ok r ->
    (openaiTools = None \/ openaiTools = Some [] -> tools (request r) = None)
    /\ (extractSystemInstruction config msgs = "" ->
        systemInstruction (request r) = None).

(** The claim of C9 in the terms of the model: without leading system
    messages the envelope's system instruction is the configured base
    instruction itself, and is missing when that is empty. *)
Definition systemInstruction_is_base : Prop :=
  forall config rid msgs modelName parameters openaiTools token r,
    noLeadingSystem msgs = true ->
    generateRequestBody config rid msgs modelName parameters openaiTools token
    = Ok r ->
    systemInstruction (request r)
    = (if JsString.isEmpty (cfg_systemInstruction config) then None
       else Some {| role := User;
                    parts := [PText (cfg_systemInstruction config)] |}).

(* ================================================================== *)
(** ** Sample inputs                                                  *)
(* ================================================================== *)

Definition sampleDefaults : Defaults :=
  {| def_temperature := VNum 1; def_top_p := VNum 0.85; def_top_k := VNum 50;
     def_max_tokens := VNum 8096; def_thinking_budget := VNum 16000 |}.

Definition sampleConfig : Config :=
  {| cfg_systemInstruction := "Be brief."; cfg_defaults := sampleDefaults |}.

Definition blankConfig : Config :=
  {| cfg_systemInstruction := "  "; cfg_defaults := sampleDefaults |}.

Definition paddedConfig : Config :=
  {| cfg_systemInstruction := String "032" "Be brief." ++ String "010" "";
     cfg_defaults := sampleDefaults |}.

Definition budgetParameters : Parameters :=
  {| par_temperature := VUndefined; par_top_p := VUndefined;
     par_top_k := VUndefined; par_max_tokens := VUndefined;
     par_thinking_budget := VNum 4096;
     par_reasoning_effort := VStr "high" |}.

Definition sampleToken : Token :=
  {| projectId := "project-1"; sessionId := "session-1" |}.

Definition userMessage (text : string) : Message :=
  {| msg_role := "user"; msg_content := CStr text;
     msg_tool_calls := []; msg_tool_call_id := "" |}.

Definition toolCall (id name arguments : string) : ToolCall :=
  {| call_id := id;
     call_function := {| fn_name := name; fn_arguments := arguments |} |}.

Definition assistantMessage (content : Content) (calls : list ToolCall)
  : Message :=
  {| msg_role := "assistant"; msg_content := content;
     msg_tool_calls := calls; msg_tool_call_id := "" |}.

Definition toolMessage (id : string) (content : Content) : Message :=
  {| msg_role := "tool"; msg_content := content;
     msg_tool_calls := []; msg_tool_call_id := id |}.

Definition weatherDialogue : list Message :=
  [userMessage "Weather in Oslo and Rome?";
   assistantMessage CNull [toolCall "call_1" "get_weather" "Oslo"];
   assistantMessage CNull [toolCall "call_2" "get_weather" "Rome"];
   toolMessage "call_1" (CStr "4C");
   toolMessage "call_2" (CStr "19C");
   assistantMessage (CStr "Oslo 4C, Rome 19C.") []].

Definition orphanDialogue : list Message :=
  [userMessage "Weather in Oslo?";
   assistantMessage CNull [toolCall "call_1" "get_weather" "Oslo"]].

Definition unnamedCallDialogue : list Message :=
  [assistantMessage CNull [toolCall "call_1" "" "Oslo"];
   toolMessage "call_1" (CStr "4C")].

(* ================================================================== *)
(** * Part II, continued: the rest of the code and its vocabulary *)
(* ================================================================== *)

(* ================================================================== *)
(** ** Schemas: excluded keys at any depth, distinct keys             *)
(* ================================================================== *)

(** Some object inside the value, at any depth, has an excluded key. *)
Fixpoint mentionsExcluded (v : value) : bool :=
  match v with
  | VArr items => existsb mentionsExcluded items
  | VObj props =>
      existsb (fun kv => excluded (fst kv) || mentionsExcluded (snd kv)) props
  | _ => false
  end.




(** What the loop over the entries has assigned so far holds no
    excluded key, at any depth. *)
Definition stripped (props : list (string * value)) : Prop :=
  forall k v, In (k, v) props ->
              excluded k = false /\ mentionsExcluded v = false.

Definition citySchema : list (string * value) :=
  [("type", VStr "object");
   ("additionalProperties", VBool false);
   ("properties",
    VObj [("city", VObj [("type", VStr "string"); ("minLength", VNum 1)])]);
   ("$schema", VStr "http://json-schema.org/draft-07/schema#")].

(* ================================================================== *)
(** ** Data URLs of images                                            *)
(* ================================================================== *)

Fixpoint allChars (f : ascii -> bool) (s : string) : bool :=
  match s with
  | EmptyString => true
  | String c r => f c && allChars f r
  end.

(** The text [data:image/<format>;base64,<payload>]. *)
Definition dataImageUrl (format payload : string) : string :=
  "data:image/" ++ format ++ ";base64," ++ payload.

(** What the two groups of a match look like: a non-empty word, and a
    non-empty text without line terminator. *)
Definition imageGroups (format payload : string) : Prop :=
  format <> "" /\ allChars isWordChar format = true
  /\ payload <> "" /\ anyChar isLineTerminator payload = false.

(** The images of the items of an array, in order. *)
Definition itemImages (item : ContentItem) : list InlineData :=
  ex_images (extractItem {| ex_text := ""; ex_images := [] |} item).

(** The text of the items of an array. *)
Definition itemText (item : ContentItem) : string :=
  ex_text (extractItem {| ex_text := ""; ex_images := [] |} item).

(** The extractor's result on the items of an array, from a result to
    go on from. *)
Definition extractItems (result : Extracted) (items : list ContentItem)
  : Extracted :=
  fold_left extractItem items result.

(* ================================================================== *)
(** ** The transcoder: more vocabulary                                *)
(* ================================================================== *)

(** The message has one of the four roles the loop handles. *)
Definition handled (m : Message) : bool :=
  match kindOf m with
  | KIgnored => false
  | _ => true
  end.

(** The message, with the role ["user"] in place of ["system"]. *)
Definition asUser (m : Message) : Message :=
  if String.eqb (msg_role m) "system"
  then {| msg_role := "user"; msg_content := msg_content m;
          msg_tool_calls := msg_tool_calls m;
          msg_tool_call_id := msg_tool_call_id m |}
  else m.

(** The second turn list continues the first: the turns before the
    last one are the same, the last one has the same role and its
    parts followed by more parts, and more turns may follow. *)
Inductive continues : list Turn -> list Turn -> Prop :=
| continues_nil (after : list Turn) : continues [] after
| continues_last (init : list Turn) (t : Turn) (extra : list Part)
    (more : list Turn) :
    continues (init ++ [t])
              (init ++ {| role := role t; parts := parts t ++ extra |} :: more).

(** All the parts of the turn list, in order. *)
Definition allParts (ts : list Turn) : list Part := flat_map parts ts.

Definition isFunctionCall (p : Part) : bool :=
  match p with PFunctionCall _ _ _ => true | _ => false end.

Definition isInlineData (p : Part) : bool :=
  match p with PInlineData _ => true | _ => false end.

(** The id and the output of the functionResponse parts, in order. *)
Definition answersIn (ps : list Part) : list (string * Content) :=
  flat_map (fun p => match p with
                     | PFunctionResponse id _ output => [(id, output)]
                     | _ => []
                     end) ps.

(** The id and the content of the tool messages, in order. *)
Definition toolAnswers (msgs : list Message) : list (string * Content) :=
  flat_map (fun m => match kindOf m with
                     | KTool => [(msg_tool_call_id m, msg_content m)]
                     | _ => []
                     end) msgs.

(** A user turn is one text part followed by images, or functionResponse
    parts only, at least one. *)
Definition userShape (ps : list Part) : bool :=
  match ps with
  | PText _ :: r => forallb isInlineData r
  | _ :: _ => forallb isFunctionResponse ps
  | [] => false
  end.

(** A model turn is at most one text part, at its head, followed by
    functionCall parts only. *)
Definition modelShape (ps : list Part) : bool :=
  match ps with
  | PText _ :: r => forallb isFunctionCall r
  | _ => forallb isFunctionCall ps
  end.

Definition wellShaped (t : Turn) : bool :=
  match role t with
  | User => userShape (parts t)
  | Model => modelShape (parts t)
  end.

(** An assistant message brings something: tool calls, or a non-empty
    text. *)
Definition substantial (m : Message) : bool :=
  match kindOf m with
  | KAssistant =>
      hasToolCalls m
      || match hasContent m with Ok b => b | TypeError => false end
  | _ => true
  end.

(** The message opens a turn: it is handled and not merged. *)
Definition opens (l : LastTurn) (m : Message) : bool :=
  handled m && negb (merges l m).

(** The number of messages of the list that open a turn. *)
Fixpoint turnsOpened (l : LastTurn) (msgs : list Message) : nat :=
  match msgs with
  | [] => 0
  | m :: rest =>
      (if opens l m then 1 else 0) + turnsOpened (lastTurnAfter l m) rest
  end.

Definition ignoredMessage : Message :=
  {| msg_role := "developer"; msg_content := CStr "Be terse.";
     msg_tool_calls := []; msg_tool_call_id := "" |}.

(* ================================================================== *)
(** ** The envelope: more vocabulary                                  *)
(* ================================================================== *)

Definition isSystem (m : Message) : bool := String.eqb (msg_role m) "system".

(** The separator of the merged instruction: a blank line. *)
Definition blankLine : string := String "010" (String "010" "").

(** The texts that are not white space only, trimmed. *)
Definition trimmedTexts (texts : list string) : list string :=
  filter JsString.truthy (map JsString.trim texts).

(** The declaration made from a client tool. *)
Definition declarationOf (tool : Tool) : FunctionDeclaration :=
  {| fd_name := tf_name (tool_function tool);
     fd_description := tf_description (tool_function tool);
     fd_parameters := cleanParameters (tf_parameters (tool_function tool)) |}.

(** The tools of the client, none when the property is missing. *)
Definition toolsOf (openaiTools : option (list Tool)) : list Tool :=
  match openaiTools with
  | Some l => l
  | None => []
  end.


Definition systemMessage (text : string) : Message :=
  {| msg_role := "system"; msg_content := CStr text;
     msg_tool_calls := []; msg_tool_call_id := "" |}.

Definition weatherTool : Tool :=
  {| tool_function :=
       {| tf_name := "get_weather";
          tf_description := VStr "Weather of a city";
          tf_parameters := VObj citySchema |} |}.

(* ================================================================== *)
(** ** DNS resolution ([customLookup])                                *)
(* ================================================================== *)

(** What the callback of a lookup receives: an error or [null], an
    address or [undefined], an address family or [undefined]. *)
Record LookupResult : Type := {
  lk_err : option string;
  lk_address : option string;
  lk_family : option nat
}.

(** [!err && address] *)
Definition resolved (r : LookupResult) : bool :=
  match lk_err r, lk_address r with
  | None, Some address => JsString.truthy address
  | _, _ => false
  end.

(** [err4 || err6] on errors, which are objects or [null]. *)
Definition firstError (err4 err6 : option string) : option string :=
  match err4 with
  | Some e => Some e
  | None => err6
  end.

Section WithDns.

(** The options of the caller, passed on with the family replaced. *)
Variable Options : Type.

(** [dns.lookup(hostname, {...options, family}, callback)]: what the
    resolver answers. *)
Variable dnsLookup : string -> Options -> nat -> LookupResult.

(** [customLookup(hostname, options, callback)]: the families looked
    up, in order, and what [callback] receives. *)
Definition customLookup (hostname : string) (options : Options)
  : list nat * LookupResult :=
  let r4 := dnsLookup hostname options 4%nat in
  if resolved r4
  then ([4%nat],
        {| lk_err := None; lk_address := lk_address r4;
           lk_family := lk_family r4 |})
  else
    let r6 := dnsLookup hostname options 6%nat in
    if resolved r6
    then ([4%nat; 6%nat],
          {| lk_err := None; lk_address := lk_address r6;
             lk_family := lk_family r6 |})
    else ([4%nat; 6%nat],
          {| lk_err := firstError (lk_err r4) (lk_err r6);
             lk_address := None; lk_family := None |}).

End WithDns.

(** A resolver for the samples: the host has an IPv6 address only. *)
Definition ipv6OnlyResolver (hostname : string) (options : unit)
    (family : nat) : LookupResult :=
  if Nat.eqb family 6
  then {| lk_err := None; lk_address := Some "2001:db8::1";
          lk_family := Some 6%nat |}
  else {| lk_err := Some "ENOTFOUND"; lk_address := None;
          lk_family := None |}.

(* ================================================================== *)
(** ** The default address ([getDefaultIp])                           *)
(* ================================================================== *)

(** One address of a network interface, as [os.networkInterfaces()]
    describes it. *)
Record InterfaceAddress : Type := {
  if_address : string;
  if_family : string;
  if_internal : bool
}.

(** [os.networkInterfaces()]: the addresses under each interface name. *)
Definition Interfaces : Type := list (string * list InterfaceAddress).

(** [interfaces[name]] *)
Fixpoint interfaceNamed (name : string) (interfaces : Interfaces)
  : option (list InterfaceAddress) :=
  match interfaces with
  | [] => None
  | (n, l) :: r => if String.eqb n name then Some l else interfaceNamed name r
  end.

(** The loop over the addresses of an interface: the first one of
    family ['IPv4'] that is not internal. *)
Fixpoint firstExternalIPv4 (l : list InterfaceAddress) : option string :=
  match l with
  | [] => None
  | inter :: r =>
      if String.eqb (if_family inter) "IPv4" && negb (if_internal inter)
      then Some (if_address inter)
      else firstExternalIPv4 r
  end.

Definition getDefaultIp (interfaces : Interfaces) : string :=
  match interfaceNamed "WLAN" interfaces with
  | Some l =>
      match firstExternalIPv4 l with
      | Some address => address
      | None => "127.0.0.1"
      end
  | None =>
      match interfaceNamed "wlan2" interfaces with
      | Some l =>
          match firstExternalIPv4 l with
          | Some address => address
          | None => "127.0.0.1"
          end
      | None => "127.0.0.1"
      end
  end.

(** The address is one of the interface, of family IPv4, not
    internal. *)
Definition externalIPv4Of (l : list InterfaceAddress) (address : string)
  : Prop :=
  exists inter,
    In inter l /\ if_family inter = "IPv4" /\ if_internal inter = false
    /\ if_address inter = address.

(* ================================================================== *)
(** ** The configuration file ([config.js])                           *)
(* ================================================================== *)

Definition backslash : ascii := "092".
Definition newline : ascii := "010".

Definition isBackslash (c : ascii) : bool := Ascii.eqb c backslash.
Definition isLetterN (c : ascii) : bool := Ascii.eqb c "n".

(** [value.replace(/\\\\n/g, '\n')]: every run backslash, backslash,
    [n], met from left to right, becomes a line feed. *)
Fixpoint unescapeDouble (s : string) : string :=
  match s with
  | String a ((String b (String c r)) as t) =>
      if isBackslash a && isBackslash b && isLetterN c
      then String newline (unescapeDouble r)
      else String a (unescapeDouble t)
  | String a t => String a (unescapeDouble t)
  | EmptyString => EmptyString
  end.

(** [value.replace(/\\n/g, '\n')]: every run backslash, [n] becomes a
    line feed. *)
Fixpoint unescapeSingle (s : string) : string :=
  match s with
  | String a ((String b r) as t) =>
      if isBackslash a && isLetterN b
      then String newline (unescapeSingle r)
      else String a (unescapeSingle t)
  | String a t => String a (unescapeSingle t)
  | EmptyString => EmptyString
  end.

(** [processEscapeChars(value)] on a string; the empty string is
    returned as it is. *)
Definition processEscapeChars (value : string) : string :=
  if JsString.isEmpty value then value
  else unescapeSingle (unescapeDouble value).

(** The two characters backslash, [n]. *)
Definition escapedNewline : string := String backslash "n".

(** [process.env]: the value of a variable, [None] when it is not set. *)
Definition Env : Type := string -> option string.

(** [a || b] on values of [process.env]: strings or [undefined]. *)
Definition orEnv (a b : option string) : option string :=
  match a with
  | Some s => if JsString.truthy s then a else b
  | None => b
  end.

(** A value of [process.env] is truthy: set and not empty. *)
Definition truthyEnv (a : option string) : bool :=
  match a with
  | Some s => JsString.truthy s
  | None => false
  end.

(** [getProxyConfig()]; [None] is [null].  (The log line is left out.) *)
Definition getProxyConfig (env : Env) : option string :=
  if truthyEnv (env "PROXY") then env "PROXY"
  else
    let systemProxy :=
      orEnv (env "HTTPS_PROXY")
        (orEnv (env "https_proxy")
           (orEnv (env "HTTP_PROXY")
              (orEnv (env "http_proxy")
                 (orEnv (env "ALL_PROXY") (env "all_proxy"))))) in
    orEnv systemProxy None.

(** The variables [getProxyConfig] reads, in the order it reads them. *)
Definition proxyVariables : list string :=
  ["PROXY"; "HTTPS_PROXY"; "https_proxy"; "HTTP_PROXY"; "http_proxy";
   "ALL_PROXY"; "all_proxy"].

(** The first non-empty value among the variables. *)
Fixpoint firstSet (env : Env) (names : list string) : option string :=
  match names with
  | [] => None
  | name :: rest =>
      match env name with
      | Some s => if JsString.truthy s then Some s else firstSet env rest
      | None => firstSet env rest
      end
  end.

Definition corporateEnv : Env :=
  fun name =>
    if String.eqb name "PROXY" then Some ""
    else if String.eqb name "http_proxy" then Some "http://10.0.0.1:3128"
    else if String.eqb name "ALL_PROXY" then Some "socks5://10.0.0.2:1080"
    else None.

(** The string starts with the letter [n]. *)
Definition startsWithN (s : string) : bool :=
  match s with
  | String c _ => isLetterN c
  | EmptyString => false
  end.

(** The escape backslash, [n] stands somewhere in the string. *)
Definition hasEscapedNewline (s : string) : bool :=
  JsString.includes s escapedNewline.

(* ================================================================== *)
(** ** The [.env] parser ([parseEnvFile])                             *)
(* ================================================================== *)

Definition lineFeed : string := String newline "".
Definition doubleQuote : ascii := "034".
Definition singleQuote : ascii := "'".

(** [s.split('\n')] *)
Fixpoint splitLines (s : string) : list string :=
  match s with
  | EmptyString => [EmptyString]
  | String c r =>
      if Ascii.eqb c newline then EmptyString :: splitLines r
      else match splitLines r with
           | first :: rest => String c first :: rest
           | [] => [String c EmptyString]
           end
  end.

(** [s.indexOf('=')] and the two slices [s.slice(0, eqIndex)] and
    [s.slice(eqIndex + 1)]; [None] when the index is [-1]. *)
Fixpoint cutAtEquals (s : string) : option (string * string) :=
  match s with
  | EmptyString => None
  | String c r =>
      if Ascii.eqb c "="
      then Some (EmptyString, r)
      else match cutAtEquals r with
           | Some (before, after) => Some (String c before, after)
           | None => None
           end
  end.

(** [s.slice(1)] *)
Definition dropFirst (s : string) : string :=
  match s with
  | EmptyString => EmptyString
  | String _ r => r
  end.

(** [s.slice(0, -1)] *)
Fixpoint dropLast (s : string) : string :=
  match s with
  | EmptyString => EmptyString
  | String c r =>
      match r with
      | EmptyString => EmptyString
      | String _ _ => String c (dropLast r)
      end
  end.

(** [s[0]], read only when [s] is not empty. *)
Definition firstChar (s : string) : string :=
  match s with
  | EmptyString => EmptyString
  | String c _ => String c EmptyString
  end.

(** An own property [key] of the object [envData] is written.  The
    entries are kept in the order of their first writing (the order
    in which JS lists the keys that are not array indices). *)
Fixpoint envPut (key value : string) (envData : list (string * string))
  : list (string * string) :=
  match envData with
  | [] => [(key, value)]
  | (k, v) :: r =>
      if String.eqb k key then (k, value) :: r
      else (k, v) :: envPut key value r
  end.

(** [envData[key] = value], [envData] being made by [{}] and [value]
    a string: the key [__proto__] reaches the setter of
    [Object.prototype], which ignores a string, and writes nothing. *)
Definition envSet (key value : string) (envData : list (string * string))
  : list (string * string) :=
  if String.eqb key "__proto__" then envData else envPut key value envData.

(** The variables of the loop of [parseEnvFile]. *)
Record EnvParser : Type := {
  envData : list (string * string);
  currentKey : option string;
  currentValue : string;
  inMultiline : bool;
  quoteChar : option string
}.

Definition envParserStart : EnvParser :=
  {| envData := []; currentKey := None; currentValue := "";
     inMultiline := false; quoteChar := None |}.

(** A property name or a search string made from [null]. *)
Definition orNullText (s : option string) : string :=
  match s with
  | Some t => t
  | None => "null"
  end.

(** [value.startsWith(q) && value.endsWith(q)] for a quote [q] *)
Definition wrappedIn (q : ascii) (value : string) : bool :=
  JsString.startsWith value (String q "")
  && JsString.endsWith value (String q "").

(** The body of the loop of [parseEnvFile]. *)
Definition parseEnvLine (st : EnvParser) (line : string) : EnvParser :=
  if inMultiline st then
    let currentValue1 := (currentValue st ++ lineFeed ++ line)%string in
    if JsString.endsWith (JsString.trimEnd line) (orNullText (quoteChar st))
    then {| envData := envSet (orNullText (currentKey st))
                              (dropLast currentValue1) (envData st);
            currentKey := None; currentValue := "";
            inMultiline := false; quoteChar := None |}
    else {| envData := envData st; currentKey := currentKey st;
            currentValue := currentValue1;
            inMultiline := true; quoteChar := quoteChar st |}
  else
    let line1 := JsString.trim line in
    if JsString.isEmpty line1 || JsString.startsWith line1 "#" then st
    else
      match cutAtEquals line1 with
      | None => st
      | Some (before, value) =>
          let key := JsString.trim before in
          let trimmedValue := JsString.trimStart value in
          if (JsString.startsWith trimmedValue (String doubleQuote "")
              || JsString.startsWith trimmedValue (String singleQuote ""))
             && negb (JsString.endsWith trimmedValue (firstChar trimmedValue))
          then {| envData := envData st; currentKey := Some key;
                  currentValue := dropFirst trimmedValue;
                  inMultiline := true;
                  quoteChar := Some (firstChar trimmedValue) |}
          else
            let value1 := JsString.trim value in
            let value2 :=
              if wrappedIn doubleQuote value1 || wrappedIn singleQuote value1
              then dropLast (dropFirst value1) else value1 in
            {| envData := envSet key value2 (envData st);
               currentKey := currentKey st;
               currentValue := currentValue st;
               inMultiline := false; quoteChar := quoteChar st |}
      end.

(** [currentKey] is truthy. *)
Definition keyPending (st : EnvParser) : bool :=
  match currentKey st with
  | Some k => JsString.truthy k
  | None => false
  end.

(** [parseEnvFile(filePath)], from the content of the file. *)
Definition parseEnvFile (content : string) : list (string * string) :=
  let st := fold_left parseEnvLine (splitLines content) envParserStart in
  if inMultiline st && keyPending st
  then envSet (orNullText (currentKey st)) (currentValue st) (envData st)
  else envData st.

(** *** Well-formed [.env] files *)

Definition headIs (f : ascii -> bool) (s : string) : bool :=
  match s with
  | String c _ => f c
  | EmptyString => false
  end.

Fixpoint lastIs (f : ascii -> bool) (s : string) : bool :=
  match s with
  | EmptyString => false
  | String c r =>
      match r with
      | EmptyString => f c
      | String _ _ => lastIs f r
      end
  end.

(** No white space at the two ends. *)
Definition tight (s : string) : bool :=
  negb (headIs JsString.isWhiteSpace s)
  && negb (lastIs JsString.isWhiteSpace s).

(** No line feed inside. *)
Definition oneLine (s : string) : bool :=
  negb (anyChar (Ascii.eqb newline) s).

Definition isQuote (c : ascii) : bool :=
  Ascii.eqb c doubleQuote || Ascii.eqb c singleQuote.

(** A key as it can stand before the [=]: on one line, without white
    space at its ends, without [=], not starting a comment. *)
Definition plainKey (k : string) : bool :=
  oneLine k && tight k && negb (anyChar (Ascii.eqb "=") k)
  && negb (headIs (Ascii.eqb "#") k).

(** A value as it can stand bare after the [=]: on one line, without
    white space at its ends, not starting with a quote. *)
Definition plainValue (v : string) : bool :=
  oneLine v && tight v && negb (headIs isQuote v).

(** The line is skipped outside a multi-line value: blank, a comment,
    or without [=]. *)
Definition skips (line : string) : bool :=
  let line1 := JsString.trim line in
  JsString.isEmpty line1 || JsString.startsWith line1 "#"
  || match cutAtEquals line1 with None => true | Some _ => false end.

(** The line ends a multi-line value opened with the quote. *)
Definition closes (q : ascii) (line : string) : bool :=
  JsString.endsWith (JsString.trimEnd line) (String q "").

(** What a [.env] file is made of. *)
Inductive EnvItem : Type :=
| Skipped (line : string)
| Plain (key value : string)
| Quoted (quote : ascii) (key value : string)
| Multi (quote : ascii) (key first : string) (middle : list string)
        (closing : string).

(** The lines of an item. *)
Definition itemLines (item : EnvItem) : list string :=
  match item with
  | Skipped line => [line]
  | Plain key value => [(key ++ "=" ++ value)%string]
  | Quoted q key value =>
      [(key ++ "=" ++ String q value ++ String q "")%string]
  | Multi q key first middle closing =>
      (key ++ "=" ++ String q first)%string :: middle ++ [closing]
  end.

Definition wellFormedItem (item : EnvItem) : bool :=
  match item with
  | Skipped line => oneLine line && skips line
  | Plain key value => plainKey key && plainValue value
  | Quoted q key value => isQuote q && plainKey key && oneLine value
  | Multi q key first middle closing =>
      isQuote q && plainKey key
      && oneLine first && negb (JsString.isEmpty first)
      && negb (lastIs JsString.isWhiteSpace first)
      && negb (lastIs (Ascii.eqb q) first)
      && forallb (fun line => oneLine line && negb (closes q line)) middle
      && oneLine closing && closes q closing
  end.

(** What reading an item does to the variables read so far: a
    multi-line value is the text from the opening quote to the end of
    the closing line, without its last character. *)
Definition itemEffect (item : EnvItem) (env : list (string * string))
  : list (string * string) :=
  match item with
  | Skipped _ => env
  | Plain key value | Quoted _ key value => envSet key value env
  | Multi _ key first middle closing =>
      envSet key
        (dropLast (JsString.join lineFeed (first :: middle ++ [closing])))
        env
  end.

(** The text of a file made of the items. *)
Definition envFile (items : list EnvItem) : string :=
  JsString.join lineFeed (flat_map itemLines items).


(** What [parseEnvLine] does with the text after the [=] of a line,
    once the key is known. *)
Definition parseEnvValue (st : EnvParser) (key value : string) : EnvParser :=
  let trimmedValue := JsString.trimStart value in
  if (JsString.startsWith trimmedValue (String doubleQuote "")
      || JsString.startsWith trimmedValue (String singleQuote ""))
     && negb (JsString.endsWith trimmedValue (firstChar trimmedValue))
  then {| envData := envData st; currentKey := Some key;
          currentValue := dropFirst trimmedValue;
          inMultiline := true;
          quoteChar := Some (firstChar trimmedValue) |}
  else
    let value1 := JsString.trim value in
    let value2 :=
      if wrappedIn doubleQuote value1 || wrappedIn singleQuote value1
      then dropLast (dropFirst value1) else value1 in
    {| envData := envSet key value2 (envData st);
       currentKey := currentKey st;
       currentValue := currentValue st;
       inMultiline := false; quoteChar := quoteChar st |}.

(** Reading the items one after the other. *)
Definition itemsEffect (items : list EnvItem) : list (string * string) :=
  fold_left (fun env item => itemEffect item env) items [].

(** The lines of a multi-line value that is never closed. *)
Definition neverCloses (q : ascii) (lines : list string) : bool :=
  forallb (fun line => oneLine line && negb (closes q line)) lines.

(** The end of [parseEnvFile]: a multi-line value left open is kept
    when its key is not empty. *)
Definition envFinish (st : EnvParser) : list (string * string) :=
  if inMultiline st && keyPending st
  then envSet (orNullText (currentKey st)) (currentValue st) (envData st)
  else envData st.

(** Reading more items, from the variables read so far. *)
Definition itemsEffectFrom (env : list (string * string))
    (items : list EnvItem) : list (string * string) :=
  fold_left (fun env item => itemEffect item env) items env.

(** The first line of a multi-line value. *)
Definition opensValue (q : ascii) (key first : string) : bool :=
  isQuote q && plainKey key && oneLine first
  && negb (JsString.isEmpty first)
  && negb (lastIs JsString.isWhiteSpace first)
  && negb (lastIs (Ascii.eqb q) first).

(* ------------------------------------------------------------------ *)
(** ** [getApiKey] (config.js)                                        *)
(* ------------------------------------------------------------------ *)

(** The module variable [generatedApiKey]: [None] is [null]. *)
Definition ApiKeyCache : Type := option string.

(** [!generatedApiKey]. *)
Definition noApiKey (cache : ApiKeyCache) : bool :=
  match cache with
  | Some k => negb (JsString.truthy k)
  | None => true
  end.

(** [getApiKey()], with the environment, the text that
    [crypto.randomBytes(24).toString('hex')] gives if it is called,
    and the cache before the call; returns the key ([None] would be
    [null]) and the cache after the call. *)
Definition getApiKey (env : Env) (randomHex : string)
    (generatedApiKey : ApiKeyCache) : option string * ApiKeyCache :=
  let apiKey := env "API_KEY" in
  if truthyEnv apiKey then (apiKey, generatedApiKey)
  else
    let generatedApiKey :=
      if noApiKey generatedApiKey
      then Some ("sk-" ++ randomHex)%string
      else generatedApiKey in
    (generatedApiKey, generatedApiKey).

(* ================================================================== *)
(** * Part III: the properties *)
(* ================================================================== *)

(** Invert an equation between results or parts and substitute. *)
Ltac invert H := inversion H; subst; clear H.

(* ================================================================== *)
(** ** Tool schema normalizer: idempotence                            *)
(* ================================================================== *)

Lemma cleanParameters_obj props :
  cleanParameters (VObj props) = VObj (fold_left cleanEntry props []).
Proof. reflexivity. Qed.

Lemma assign_fresh key v props :
  ~ In key (map fst props) -> assign key v props = props ++ [(key, v)].
Proof.
  induction props as [|[k w] r IH]; simpl; [reflexivity|].
  intros H. destruct (String.eqb k key) eqn:E.
  - apply String.eqb_eq in E. exfalso. apply H. left. exact E.
  - f_equal. apply IH. intros Hin. apply H. right. exact Hin.
Qed.

Lemma assign_keys key v props :
  map fst (assign key v props) = map fst props
  \/ (~ In key (map fst props)
      /\ map fst (assign key v props) = map fst props ++ [key]).
Proof.
  induction props as [|[k w] r IH]; simpl.
  - right. split; [tauto | reflexivity].
  - destruct (String.eqb k key) eqn:E; simpl.
    + left. reflexivity.
    + apply String.eqb_neq in E.
      destruct IH as [IH | [Hn IH]]; rewrite IH.
      * left. reflexivity.
      * right. split; [|reflexivity]. intros [H | H]; auto.
Qed.

Lemma assign_In key v props k' v' :
  In (k', v') (assign key v props) ->
  (k', v') = (key, v) \/ In (k', v') props.
Proof.
  induction props as [|[k w] r IH]; simpl.
  - intros [H | []]. left. symmetry. exact H.
  - destruct (String.eqb k key) eqn:E; simpl.
    + apply String.eqb_eq in E. subst k.
      intros [H | H]; [left; symmetry; exact H | right; right; exact H].
    + intros [H | H]; [right; left; exact H|].
      destruct (IH H) as [H' | H']; [left; exact H' | right; right; exact H'].
Qed.

Lemma NoDup_snoc {A} (l : list A) (x : A) :
  NoDup l -> ~ In x l -> NoDup (l ++ [x]).
Proof.
  intros Hl Hx. induction Hl as [|a r Ha Hr IH]; simpl.
  - constructor; [tauto | constructor].
  - constructor.
    + intros H. apply in_app_or in H. destruct H as [H | [H | []]].
      * exact (Ha H).
      * apply Hx. left. symmetry. exact H.
    + apply IH. intros H. apply Hx. right. exact H.
Qed.

Lemma cleanObject_assign key v props :
  cleanObject props -> excluded key = false -> cleanParameters v = v ->
  cleanObject (assign key v props).
Proof.
  intros [Hnd Hall] Hk Hv. split.
  - destruct (assign_keys key v props) as [E | [Hn E]]; rewrite E.
    + exact Hnd.
    + apply NoDup_snoc; assumption.
  - intros k' v' H. apply assign_In in H. destruct H as [H | H].
    + inversion H; subst. auto.
    + exact (Hall k' v' H).
Qed.

Lemma cleanObject_fold props : forall cleaned,
  Forall (fun kv => cleanParameters (cleanParameters (snd kv))
                    = cleanParameters (snd kv)) props ->
  cleanObject cleaned ->
  cleanObject (fold_left cleanEntry props cleaned).
Proof.
  induction props as [|[k v] r IH]; intros cleaned Hall Hc; simpl.
  - exact Hc.
  - inversion Hall as [|? ? Hv Hr]; subst. simpl in Hv.
    apply IH; [exact Hr|].
    destruct (excluded k) eqn:E; [exact Hc|].
    apply cleanObject_assign; assumption.
Qed.

(** On a clean object the loop rebuilds the object entry by entry. *)
Lemma fold_cleanObject props : forall cleaned,
  cleanObject (cleaned ++ props) ->
  fold_left cleanEntry props cleaned = cleaned ++ props.
Proof.
  induction props as [|[k v] r IH]; intros cleaned Hc; simpl.
  - rewrite app_nil_r. reflexivity.
  - destruct Hc as [Hnd Hall].
    destruct (Hall k v) as [Hk Hv].
    { apply in_or_app. right. left. reflexivity. }
    rewrite Hk, Hv.
    assert (Hfresh : ~ In k (map fst cleaned)).
    { rewrite map_app in Hnd. simpl in Hnd.
      apply NoDup_remove_2 in Hnd. intros H. apply Hnd.
      apply in_or_app. left. exact H. }
    rewrite (assign_fresh k v cleaned Hfresh).
    rewrite IH; rewrite <- app_assoc; simpl; [reflexivity|].
    split; assumption.
Qed.

Lemma cleanObject_nil : cleanObject [].
Proof. split; [constructor | intros k v []]. Qed.

(** C8. The tool-schema normalizer is idempotent: on every value
    (object, array or leaf) cleaning twice gives what cleaning once
    gives. *)
Theorem cleanParameters_idempotent (v : value) :
  cleanParameters (cleanParameters v) = cleanParameters v.
Proof.
  induction v as [| | b | q | s | l IH | l IH] using value_nested_ind;
    try reflexivity.
  - simpl. f_equal. rewrite map_map. apply map_ext_Forall. exact IH.
  - rewrite !cleanParameters_obj. f_equal.
    apply (fold_cleanObject _ []). simpl.
    apply cleanObject_fold; [exact IH | exact cleanObject_nil].
Qed.

(* ================================================================== *)
(** ** Basic facts about the turn list                                 *)
(* ================================================================== *)

Lemma lastMessage_snoc ts t : lastMessage (ts ++ [t]) = Some t.
Proof.
  induction ts as [|a r IH]; [reflexivity|].
  simpl. destruct (r ++ [t]) eqn:E; [|exact IH].
  destruct r; discriminate.
Qed.

Lemma pushToLast_snoc ps ts t :
  pushToLast ps (ts ++ [t])
  = ts ++ [{| role := role t; parts := parts t ++ ps |}].
Proof.
  induction ts as [|a r IH]; [reflexivity|].
  simpl. destruct (r ++ [t]) eqn:E.
  - destruct r; discriminate.
  - f_equal. exact IH.
Qed.

Lemma turns_snoc_cases (ts : list Turn) :
  ts = [] \/ exists init t, ts = init ++ [t].
Proof.
  destruct (rev ts) as [|t r] eqn:E.
  - left. apply (f_equal (@rev Turn)) in E. rewrite rev_involutive in E.
    exact E.
  - right. exists (rev r), t.
    apply (f_equal (@rev Turn)) in E. rewrite rev_involutive in E.
    exact E.
Qed.

Lemma lastRoleIs_snoc r ts t : lastRoleIs r (ts ++ [t]) = Role_eqb (role t) r.
Proof. unfold lastRoleIs. rewrite lastMessage_snoc. reflexivity. Qed.

Lemma Role_eqb_eq a b : Role_eqb a b = true <-> a = b.
Proof. destruct a, b; simpl; split; congruence. Qed.

Lemma handleMessage_kind ts m :
  handleMessage ts m =
  match kindOf m with
  | KUser => Ok (ts ++ [{| role := User; parts := userParts m |}])
  | KAssistant => handleAssistantMessage m ts
  | KTool => Ok (handleToolCall m ts)
  | KIgnored => Ok ts
  end.
Proof.
  unfold handleMessage, kindOf, handleUserMessage, userParts.
  destruct (String.eqb (msg_role m) "user"); [reflexivity|].
  destruct (String.eqb (msg_role m) "system"); [reflexivity|].
  destruct (String.eqb (msg_role m) "assistant"); [reflexivity|].
  destruct (String.eqb (msg_role m) "tool"); reflexivity.
Qed.

Lemma hasToolCalls_false_callParts m :
  hasToolCalls m = false -> callParts m = [].
Proof.
  unfold hasToolCalls, callParts.
  destruct (msg_tool_calls m); [reflexivity | discriminate].
Qed.

(** What [handleAssistantMessage] does, once [hasContent] is known. *)
Lemma handleAssistantMessage_eq m ts b :
  hasContent m = Ok b ->
  handleAssistantMessage m ts =
  Ok (if lastRoleIs Model ts && hasToolCalls m && negb b
      then pushToLast (callParts m) ts
      else ts ++ [{| role := Model; parts := textParts m ++ callParts m |}]).
Proof.
  intros Hb. unfold handleAssistantMessage. rewrite Hb. simpl.
  assert (Hc : (if hasToolCalls m
                then map toFunctionCall (msg_tool_calls m) else [])
               = callParts m).
  { destruct (hasToolCalls m) eqn:E; [reflexivity|].
    symmetry. apply hasToolCalls_false_callParts. exact E. }
  rewrite Hc.
  destruct (lastRoleIs Model ts && hasToolCalls m && negb b); [reflexivity|].
  do 3 f_equal. unfold textParts, hasContent in *.
  destruct (msg_content m); inversion Hb; subst; reflexivity.
Qed.

Lemma hasContent_false_textParts m :
  hasContent m = Ok false -> textParts m = [].
Proof.
  unfold hasContent, textParts. destruct (msg_content m); try reflexivity.
  - intros H. inversion H as [H']. rewrite H'. reflexivity.
Qed.

Lemma hasContent_accepted m :
  kindOf m = KAssistant -> raises m = false -> exists b, hasContent m = Ok b.
Proof.
  unfold raises, hasContent. intros ->.
  destruct (msg_content m); eauto; discriminate.
Qed.

Lemma handleMessage_accepted ts m :
  raises m = false -> exists ts', handleMessage ts m = Ok ts'.
Proof.
  intros H. rewrite handleMessage_kind.
  destruct (kindOf m) eqn:K; eauto.
  destruct (hasContent_accepted m K H) as [b Hb].
  rewrite (handleAssistantMessage_eq m ts b Hb). eauto.
Qed.

(** The transcoder returns a turn list on every accepted message list. *)
Lemma transcodeFrom_accepted msgs : forall ts,
  accepted msgs = true -> exists out, transcodeFrom ts msgs = Ok out.
Proof.
  induction msgs as [|m r IH]; intros ts H; simpl.
  - eauto.
  - simpl in H. apply andb_prop in H. destruct H as [Hm Hr].
    apply negb_true_iff in Hm.
    destruct (handleMessage_accepted ts m Hm) as [ts' E].
    rewrite E. simpl. apply IH. exact Hr.
Qed.

Lemma handleMessage_raises ts m :
  raises m = true -> handleMessage ts m = TypeError.
Proof.
  intros H. rewrite handleMessage_kind. unfold raises in H.
  destruct (kindOf m); try discriminate.
  unfold handleAssistantMessage, hasContent.
  destruct (msg_content m); try discriminate. reflexivity.
Qed.

(** ... and on no other message list. *)
Lemma transcodeFrom_Ok_accepted msgs : forall ts out,
  transcodeFrom ts msgs = Ok out -> accepted msgs = true.
Proof.
  induction msgs as [|m r IH]; intros ts out; simpl; [reflexivity|].
  destruct (raises m) eqn:R.
  - rewrite (handleMessage_raises ts m R). discriminate.
  - destruct (handleMessage ts m) as [ts'|]; simpl; [|discriminate].
    apply IH.
Qed.

Lemma transcodeFrom_app pre post : forall ts,
  transcodeFrom ts (pre ++ post)
  = (mid <- transcodeFrom ts pre ;; transcodeFrom mid post).
Proof.
  induction pre as [|m r IH]; intros ts; simpl; [reflexivity|].
  destruct (handleMessage ts m); simpl; [apply IH | reflexivity].
Qed.

(* ================================================================== *)
(** ** Model policy and generation config                              *)
(* ================================================================== *)

Section PolicyProperties.

Variable config : Config.

Lemma generateGenerationConfig_disabled parameters name :
  thinkingBudget
    (thinkingConfig (generateGenerationConfig config parameters false name))
  = VNum 0.
Proof. reflexivity. Qed.

Lemma generateGenerationConfig_topP_deleted parameters name :
  JsString.includes name "claude" = true ->
  topP (generateGenerationConfig config parameters true name) = None.
Proof.
  intros H. unfold generateGenerationConfig. rewrite H. reflexivity.
Qed.

(** How [generateRequestBody] depends on the transcoder. *)
Lemma generateRequestBody_Ok rid msgs modelName parameters openaiTools token r :
  generateRequestBody config rid msgs modelName parameters openaiTools token
  = Ok r ->
  openaiMessageToAntigravity (skipn (startIndex msgs) msgs)
  = Ok (contents (request r))
  /\ model r = modelMapping modelName
  /\ generationConfig (request r)
     = generateGenerationConfig config parameters
         (isEnableThinking modelName) (modelMapping modelName)
  /\ tools (request r) = Some (convertOpenAIToolsToAntigravity openaiTools)
  /\ systemInstruction (request r)
     = (if JsString.truthy (extractSystemInstruction config msgs)
        then Some {| role := User;
                     parts := [PText (extractSystemInstruction config msgs)] |}
        else None).
Proof.
  unfold generateRequestBody.
  destruct (openaiMessageToAntigravity (skipn (startIndex msgs) msgs))
    as [cs|]; simpl; [|discriminate].
  intros H. invert H. simpl. repeat split; reflexivity.
Qed.

Lemma accepted_skipn n msgs :
  accepted msgs = true -> accepted (skipn n msgs) = true.
Proof.
  revert n. induction msgs as [|m r IH]; intros [|n] H; simpl; auto.
  simpl in H. apply andb_prop in H. apply IH. apply H.
Qed.

(** The envelope is built for every accepted message list. *)
Lemma generateRequestBody_accepted rid msgs modelName parameters openaiTools token :
  accepted msgs = true ->
  exists r,
    generateRequestBody config rid msgs modelName parameters openaiTools token
    = Ok r.
Proof.
  intros H. unfold generateRequestBody.
  destruct (transcodeFrom_accepted (skipn (startIndex msgs) msgs) []
              (accepted_skipn _ _ H)) as [out E].
  unfold openaiMessageToAntigravity. rewrite E. simpl. eauto.
Qed.

End PolicyProperties.

(** C3. Whenever the thinking-enabled flag resolved for a model name is
    false, the generation config built for that model has
    [thinkingConfig.thinkingBudget = 0], whatever [thinking_budget] and
    [reasoning_effort] the client sent. *)
Theorem thinkingBudget_zero_when_disabled
    (config : Config) (parameters : Parameters) (modelName : string) :
  isEnableThinking modelName = false ->
  thinkingBudget
    (thinkingConfig
       (generateGenerationConfig config parameters
          (isEnableThinking modelName) (modelMapping modelName)))
  = VNum 0.
Proof.
  intros H. rewrite H. apply generateGenerationConfig_disabled.
Qed.

Lemma thinkingBudget_zero_when_disabled_witness :
  isEnableThinking "gemini-2.5-flash" = false
  /\ thinkingBudget
       (thinkingConfig
          (generateGenerationConfig sampleConfig budgetParameters
             (isEnableThinking "gemini-2.5-flash")
             (modelMapping "gemini-2.5-flash")))
     = VNum 0.
Proof.
  split; [reflexivity|].
  apply (thinkingBudget_zero_when_disabled sampleConfig budgetParameters
           "gemini-2.5-flash").
  reflexivity.
Defined.

(** C4. The model policy resolves ["claude-sonnet-4-5-thinking"] to the
    upstream id ["claude-sonnet-4-5"] with thinking enabled, and the
    generation config built for it has no [topP] property; so has the
    request built for the message list [[{role: "user", content: "Hi"}]]. *)
Theorem claude_sonnet_thinking_policy :
  modelMapping "claude-sonnet-4-5-thinking" = "claude-sonnet-4-5"
  /\ isEnableThinking "claude-sonnet-4-5-thinking" = true
  /\ (forall config parameters,
        topP (generateGenerationConfig config parameters
                (isEnableThinking "claude-sonnet-4-5-thinking")
                (modelMapping "claude-sonnet-4-5-thinking")) = None)
  /\ (forall config rid parameters openaiTools token,
        exists r,
          generateRequestBody config rid [userMessage "Hi"]
            "claude-sonnet-4-5-thinking" parameters openaiTools token = Ok r
          /\ model r = "claude-sonnet-4-5"
          /\ contents (request r) = [{| role := User; parts := [PText "Hi"] |}]
          /\ includeThoughts (thinkingConfig (generationConfig (request r)))
             = true
          /\ topP (generationConfig (request r)) = None).
Proof.
  split; [reflexivity|]. split; [reflexivity|]. split.
  - intros config parameters.
    apply generateGenerationConfig_topP_deleted. reflexivity.
  - intros config rid parameters openaiTools token.
    eexists. split; [reflexivity|]. simpl.
    repeat split; reflexivity.
Qed.

(** C10. ["claude-opus-4-5"] is remapped to the upstream id
    ["claude-opus-4-5-thinking"] while thinking is not enabled for it:
    every request built for this identifier names the thinking upstream
    model and carries a generation config with [includeThoughts] false
    and [thinkingBudget] 0; and a request is built for every accepted
    message list. *)
Theorem claude_opus_targets_thinking_model_without_thinking :
  modelMapping "claude-opus-4-5" = "claude-opus-4-5-thinking"
  /\ isEnableThinking "claude-opus-4-5" = false
  /\ forall config rid msgs parameters openaiTools token,
       (forall r,
           generateRequestBody config rid msgs "claude-opus-4-5" parameters
             openaiTools token = Ok r ->
           model r = "claude-opus-4-5-thinking"
           /\ includeThoughts (thinkingConfig (generationConfig (request r)))
              = false
           /\ thinkingBudget (thinkingConfig (generationConfig (request r)))
              = VNum 0)
       /\ (accepted msgs = true ->
           exists r,
             generateRequestBody config rid msgs "claude-opus-4-5" parameters
               openaiTools token = Ok r).
Proof.
  split; [reflexivity|]. split; [reflexivity|].
  intros config rid msgs parameters openaiTools token. split.
  - intros r E. apply generateRequestBody_Ok in E.
    destruct E as (_ & Hm & Hg & _). rewrite Hm, Hg.
    repeat split; reflexivity.
  - apply generateRequestBody_accepted.
Qed.

Lemma claude_opus_targets_thinking_model_without_thinking_witness :
  accepted [userMessage "Hi"] = true
  /\ exists r,
       generateRequestBody sampleConfig "req-1" [userMessage "Hi"]
         "claude-opus-4-5" budgetParameters None sampleToken = Ok r
       /\ model r = "claude-opus-4-5-thinking"
       /\ includeThoughts (thinkingConfig (generationConfig (request r)))
          = false
       /\ thinkingBudget (thinkingConfig (generationConfig (request r)))
          = VNum 0.
Proof.
  split; [reflexivity|].
  destruct claude_opus_targets_thinking_model_without_thinking as (_ & _ & H).
  destruct (H sampleConfig "req-1" [userMessage "Hi"] budgetParameters None
              sampleToken) as [Hall Hex].
  destruct (Hex eq_refl) as [r E].
  exists r. split; [exact E | exact (Hall r E)].
Defined.

(* ================================================================== *)
(** ** The optional properties of the envelope                         *)
(* ================================================================== *)

Lemma convertOpenAIToolsToAntigravity_none openaiTools :
  openaiTools = None \/ openaiTools = Some [] ->
  convertOpenAIToolsToAntigravity openaiTools = [].
Proof. intros [-> | ->]; reflexivity. Qed.

(** C2, refuted as stated: a request built without tool declarations
    carries [tools: []]. *)
Lemma tools_present_when_client_sends_none :
  generateRequestBody sampleConfig "req-1" [userMessage "Hi"] "gpt-4"
    budgetParameters None sampleToken
  = Ok {| project := "project-1";
          requestId := "req-1";
          request :=
            {| contents := [{| role := User; parts := [PText "Hi"] |}];
               tools := Some [];
               toolConfig :=
                 {| functionCallingConfig := {| mode := "VALIDATED" |} |};
               generationConfig :=
                 generateGenerationConfig sampleConfig budgetParameters false
                   "gpt-4";
               req_sessionId := "session-1";
               systemInstruction :=
                 Some {| role := User; parts := [PText "Be brief."] |} |};
          model := "gpt-4";
          userAgent := "antigravity" |}
  /\ ~ omits_empty_tools_and_systemInstruction.
Proof.
  split; [reflexivity|].
  intros H.
  destruct (H sampleConfig "req-1" [userMessage "Hi"] "gpt-4" budgetParameters
              None sampleToken _ eq_refl) as [Ht _].
  specialize (Ht (or_introl eq_refl)). discriminate Ht.
Qed.

(** C2, amended. With no tool declarations the envelope carries the
    [tools] property with an empty list; with an empty merged system
    instruction it has no [systemInstruction] property, and otherwise
    the property holds that instruction as the text of one user turn. *)
Theorem tools_empty_list_systemInstruction_omitted
    config rid msgs modelName parameters openaiTools token r :
  generateRequestBody config rid msgs modelName parameters openaiTools token
  = Ok r ->
  (openaiTools = None \/ openaiTools = Some [] -> tools (request r) = Some [])
  /\ (extractSystemInstruction config msgs = "" ->
      systemInstruction (request r) = None)
  /\ (extractSystemInstruction config msgs <> "" ->
      systemInstruction (request r)
      = Some {| role := User;
                parts := [PText (extractSystemInstruction config msgs)] |}).
Proof.
  intros E. apply generateRequestBody_Ok in E.
  destruct E as (_ & _ & _ & Ht & Hs).
  split; [|split].
  - intros Hn. rewrite Ht, (convertOpenAIToolsToAntigravity_none _ Hn).
    reflexivity.
  - intros Hm. rewrite Hs, Hm. reflexivity.
  - intros Hm. rewrite Hs.
    destruct (extractSystemInstruction config msgs); [congruence | reflexivity].
Qed.

Lemma tools_empty_list_systemInstruction_omitted_witness :
  exists r,
    generateRequestBody blankConfig "req-1" [userMessage "Hi"] "gpt-4"
      budgetParameters (Some []) sampleToken = Ok r
    /\ tools (request r) = Some []
    /\ systemInstruction (request r) = None.
Proof.
  eexists. split; [reflexivity|].
  destruct (tools_empty_list_systemInstruction_omitted blankConfig "req-1"
              [userMessage "Hi"] "gpt-4" budgetParameters (Some [])
              sampleToken _ eq_refl) as (Ht & Hs & _).
  split; [apply Ht; right; reflexivity | apply Hs; reflexivity].
Defined.

(* ================================================================== *)
(** ** The system instruction without leading system messages          *)
(* ================================================================== *)

Lemma collectSystemTexts_noLeading msgs :
  noLeadingSystem msgs = true -> collectSystemTexts msgs = [].
Proof.
  destruct msgs as [|m r]; [reflexivity|]. simpl.
  intros H. apply negb_true_iff in H. rewrite H. reflexivity.
Qed.

Lemma extractSystemInstruction_noLeading config msgs :
  noLeadingSystem msgs = true ->
  extractSystemInstruction config msgs
  = JsString.trim (cfg_systemInstruction config).
Proof.
  intros H. unfold extractSystemInstruction.
  rewrite (collectSystemTexts_noLeading msgs H). simpl.
  destruct (JsString.trim (cfg_systemInstruction config)); reflexivity.
Qed.

(** C9, refuted as stated: the base instruction [" Be brief.\n"] is
    attached as ["Be brief."]. *)
Lemma systemInstruction_base_is_trimmed :
  (exists r,
     generateRequestBody paddedConfig "req-1" [userMessage "Hi"] "gpt-4"
       budgetParameters None sampleToken = Ok r
     /\ systemInstruction (request r)
        = Some {| role := User; parts := [PText "Be brief."] |})
  /\ ~ systemInstruction_is_base.
Proof.
  split.
  - eexists. split; reflexivity.
  - intros H.
    specialize (H paddedConfig "req-1" [userMessage "Hi"] "gpt-4"
                  budgetParameters None sampleToken _ eq_refl eq_refl).
    discriminate H.
Qed.

(** C9, amended. Without leading system messages the envelope's system
    instruction is the configured base instruction with the white space
    at its two ends removed, and nothing else; the property is missing
    when the base instruction is empty or white space only. *)
Theorem systemInstruction_is_trimmed_base
    config rid msgs modelName parameters openaiTools token r :
  noLeadingSystem msgs = true ->
  generateRequestBody config rid msgs modelName parameters openaiTools token
  = Ok r ->
  systemInstruction (request r)
  = (if JsString.isEmpty (JsString.trim (cfg_systemInstruction config))
     then None
     else Some {| role := User;
                  parts := [PText (JsString.trim
                                     (cfg_systemInstruction config))] |}).
Proof.
  intros Hn E. apply generateRequestBody_Ok in E.
  destruct E as (_ & _ & _ & _ & Hs).
  rewrite Hs, (extractSystemInstruction_noLeading config msgs Hn).
  unfold JsString.truthy.
  destruct (JsString.isEmpty (JsString.trim (cfg_systemInstruction config)));
    reflexivity.
Qed.

Lemma systemInstruction_is_trimmed_base_witness :
  noLeadingSystem [userMessage "Hi"] = true
  /\ exists r,
       generateRequestBody paddedConfig "req-1" [userMessage "Hi"] "gpt-4"
         budgetParameters None sampleToken = Ok r
       /\ systemInstruction (request r)
          = Some {| role := User; parts := [PText "Be brief."] |}.
Proof.
  split; [reflexivity|].
  eexists. split; [reflexivity|].
  apply (systemInstruction_is_trimmed_base paddedConfig "req-1"
           [userMessage "Hi"] "gpt-4" budgetParameters None sampleToken);
    reflexivity.
Defined.

(* ================================================================== *)
(** ** Adjacent turns of one role                                      *)
(* ================================================================== *)

Lemma adjacentSameRole_snoc ts t :
  adjacentSameRole (ts ++ [t])
  = adjacentSameRole ts || lastRoleIs (role t) ts.
Proof.
  induction ts as [|a r IH]; [reflexivity|].
  destruct r as [|b r'].
  - simpl. unfold lastRoleIs. simpl. rewrite !orb_false_r. reflexivity.
  - change (adjacentSameRole ((a :: b :: r') ++ [t]))
      with (Role_eqb (role a) (role b) || adjacentSameRole ((b :: r') ++ [t])).
    rewrite IH.
    change (adjacentSameRole (a :: b :: r'))
      with (Role_eqb (role a) (role b) || adjacentSameRole (b :: r')).
    change (lastRoleIs (role t) (a :: b :: r'))
      with (lastRoleIs (role t) (b :: r')).
    rewrite orb_assoc. reflexivity.
Qed.

Lemma adjacentSameRole_pushToLast ps ts :
  adjacentSameRole (pushToLast ps ts) = adjacentSameRole ts.
Proof.
  destruct (turns_snoc_cases ts) as [-> | (init & t & ->)]; [reflexivity|].
  rewrite pushToLast_snoc, !adjacentSameRole_snoc. reflexivity.
Qed.

Lemma existsb_userParts m : existsb isFunctionResponse (userParts m) = false.
Proof.
  unfold userParts. simpl.
  induction (ex_images (extractImagesFromContent (msg_content m)));
    [reflexivity | exact IHl].
Qed.

Lemma lastTurnOf_snoc ts t :
  lastTurnOf (ts ++ [t])
  = match role t with
    | Model => ModelTurn
    | User => if existsb isFunctionResponse (parts t)
              then UserResponses else UserPlain
    end.
Proof. unfold lastTurnOf. rewrite lastMessage_snoc. reflexivity. Qed.

(** One message: the new turn list has two neighbours of one role when
    the old one had, or when the message clashes with the last turn;
    and the last turn is the one [lastTurnAfter] tells. *)
Lemma handleMessage_adjacent ts m ts' :
  handleMessage ts m = Ok ts' ->
  adjacentSameRole ts' = adjacentSameRole ts || clashes (lastTurnOf ts) m
  /\ lastTurnOf ts' = lastTurnAfter (lastTurnOf ts) m.
Proof.
  rewrite handleMessage_kind. unfold clashes, merges, lastTurnAfter.
  destruct (kindOf m) eqn:K.
  - (* user, system *)
    intros H. invert H.
    rewrite adjacentSameRole_snoc, lastTurnOf_snoc.
    cbn [role parts]. rewrite existsb_userParts. split; [|reflexivity]. f_equal.
    destruct (turns_snoc_cases ts) as [-> | (init & t & ->)]; [reflexivity|].
    rewrite lastRoleIs_snoc, lastTurnOf_snoc.
    destruct (role t); simpl; [|reflexivity].
    destruct (existsb isFunctionResponse (parts t)); reflexivity.
  - (* assistant *)
    destruct (hasContent m) as [b|] eqn:Hb.
    2:{ unfold handleAssistantMessage. rewrite Hb. discriminate. }
    rewrite (handleAssistantMessage_eq m ts b Hb).
    intros H. invert H.
    destruct (turns_snoc_cases ts) as [-> | (init & t & ->)].
    + simpl. split; reflexivity.
    + rewrite lastRoleIs_snoc, lastTurnOf_snoc.
      destruct (role t) eqn:R; simpl.
      * rewrite adjacentSameRole_snoc, lastRoleIs_snoc, R, lastTurnOf_snoc.
        simpl. split; [|reflexivity].
        destruct (existsb isFunctionResponse (parts t)); reflexivity.
      * destruct (hasToolCalls m && negb b) eqn:M; simpl.
        -- rewrite adjacentSameRole_pushToLast, pushToLast_snoc,
             lastTurnOf_snoc. simpl. rewrite R, orb_false_r.
           split; reflexivity.
        -- rewrite adjacentSameRole_snoc, lastRoleIs_snoc, R, lastTurnOf_snoc.
           simpl. split; reflexivity.
  - (* tool *)
    intros H. invert H. unfold handleToolCall.
    fold (responsePart m ts).
    destruct (turns_snoc_cases ts) as [-> | (init & t & ->)].
    + simpl. split; reflexivity.
    + rewrite lastMessage_snoc, lastTurnOf_snoc.
      destruct (role t) eqn:R; simpl.
      * destruct (existsb isFunctionResponse (parts t)) eqn:F; simpl.
        -- rewrite adjacentSameRole_pushToLast, pushToLast_snoc,
             lastTurnOf_snoc. simpl. rewrite R, orb_false_r.
           rewrite existsb_app, F. split; reflexivity.
        -- rewrite adjacentSameRole_snoc, lastRoleIs_snoc, R, lastTurnOf_snoc.
           simpl. split; reflexivity.
      * rewrite adjacentSameRole_snoc, lastRoleIs_snoc, R, lastTurnOf_snoc.
        simpl. split; reflexivity.
  - (* other roles *)
    intros H. invert H.
    rewrite orb_false_r. split; reflexivity.
Qed.

Lemma transcodeFrom_adjacent msgs : forall ts out,
  transcodeFrom ts msgs = Ok out ->
  adjacentSameRole out = adjacentSameRole ts || someClash (lastTurnOf ts) msgs.
Proof.
  induction msgs as [|m r IH]; intros ts out; simpl.
  - intros H. inversion H; subst. rewrite orb_false_r. reflexivity.
  - destruct (handleMessage ts m) as [ts'|] eqn:E; simpl; [|discriminate].
    intros H. apply IH in H.
    destruct (handleMessage_adjacent ts m ts' E) as [Ha Hl].
    rewrite H, Ha, Hl, orb_assoc. reflexivity.
Qed.

(** C1, refuted as stated: two plain user messages give two adjacent
    user turns. *)
Lemma two_user_messages_two_user_turns :
  openaiMessageToAntigravity [userMessage "a"; userMessage "b"]
  = Ok [{| role := User; parts := [PText "a"] |};
        {| role := User; parts := [PText "b"] |}]
  /\ ~ never_adjacent_same_role.
Proof.
  split; [reflexivity|].
  intros H.
  specialize (H [userMessage "a"; userMessage "b"] _ eq_refl).
  discriminate H.
Qed.

(** C1, amended. Same-role content is merged into the last turn in two
    cases only: an assistant message with tool calls and no non-empty
    text after a model turn, and a tool message after a user turn that
    already holds a functionResponse part.  Every other message opens a
    turn, so on every accepted message list the produced turn list has
    two adjacent turns of one role exactly when some message opens a
    turn of the role of the turn before it: a user or system message
    after a user turn, an unmerged assistant message after a model
    turn, a tool message after a user turn without functionResponse
    part. *)
Theorem adjacent_same_role_iff_clash (msgs : list Message) :
  accepted msgs = true ->
  exists out,
    openaiMessageToAntigravity msgs = Ok out
    /\ adjacentSameRole out = someClash NoTurn msgs.
Proof.
  intros H.
  destruct (transcodeFrom_accepted msgs [] H) as [out E].
  exists out. split; [exact E|].
  apply transcodeFrom_adjacent in E. exact E.
Qed.

Lemma adjacent_same_role_iff_clash_witness :
  accepted weatherDialogue = true
  /\ exists out,
       openaiMessageToAntigravity weatherDialogue = Ok out
       /\ adjacentSameRole out = false.
Proof.
  split; [reflexivity|].
  apply (adjacent_same_role_iff_clash weatherDialogue). reflexivity.
Defined.

(* ================================================================== *)
(** ** The parts of the turn list                                      *)
(* ================================================================== *)

Lemma occurs_nil r p : ~ occurs r p [].
Proof. intros (t & [] & _). Qed.

Lemma occurs_snoc r p ts x :
  occurs r p (ts ++ [x]) <-> occurs r p ts \/ (r = role x /\ In p (parts x)).
Proof.
  unfold occurs. split.
  - intros (t & Hin & Hr & Hp). apply in_app_or in Hin.
    destruct Hin as [Hin | [<- | []]]; [left; eauto | right; auto].
  - intros [(t & Hin & Hr & Hp) | [-> Hp]].
    + exists t. split; [apply in_or_app; left; exact Hin | auto].
    + exists x. split; [apply in_or_app; right; left; reflexivity | auto].
Qed.

Lemma occurs_pushToLast r p ps init t :
  occurs r p (pushToLast ps (init ++ [t]))
  <-> occurs r p (init ++ [t]) \/ (r = role t /\ In p ps).
Proof.
  rewrite pushToLast_snoc, !occurs_snoc. simpl. rewrite in_app_iff. tauto.
Qed.

(** One message adds its contribution to the turn list, and nothing
    else changes. *)
Lemma handleMessage_occurs ts m ts' :
  handleMessage ts m = Ok ts' ->
  forall r p,
    occurs r p ts'
    <-> occurs r p ts
        \/ (r = fst (contribution ts m) /\ In p (snd (contribution ts m))).
Proof.
  rewrite handleMessage_kind. unfold contribution.
  destruct (kindOf m) eqn:K; intros H r p.
  - invert H. rewrite occurs_snoc. reflexivity.
  - destruct (hasContent m) as [b|] eqn:Hb.
    2:{ unfold handleAssistantMessage in H. rewrite Hb in H. discriminate. }
    rewrite (handleAssistantMessage_eq m ts b Hb) in H.
    invert H.
    destruct (lastRoleIs Model ts && hasToolCalls m && negb b) eqn:M.
    + apply andb_prop in M. destruct M as [M Hnb].
      apply andb_prop in M. destruct M as [Hl _].
      apply negb_true_iff in Hnb. subst b.
      rewrite (hasContent_false_textParts m Hb). simpl.
      destruct (turns_snoc_cases ts) as [-> | (init & t & ->)];
        [discriminate|].
      rewrite lastRoleIs_snoc in Hl. apply Role_eqb_eq in Hl.
      rewrite occurs_pushToLast, Hl. reflexivity.
    + rewrite occurs_snoc. reflexivity.
  - invert H. unfold handleToolCall.
    fold (responsePart m ts). simpl.
    destruct (lastMessage ts) as [t|] eqn:L.
    + destruct (Role_eqb (role t) User
                && existsb isFunctionResponse (parts t)) eqn:M.
      * apply andb_prop in M. destruct M as [Hr _].
        apply Role_eqb_eq in Hr.
        destruct (turns_snoc_cases ts) as [-> | (init & t0 & ->)];
          [discriminate|].
        rewrite lastMessage_snoc in L. inversion L; subst t0.
        rewrite occurs_pushToLast, Hr. reflexivity.
      * rewrite occurs_snoc. reflexivity.
    + rewrite occurs_snoc. reflexivity.
  - invert H. simpl. tauto.
Qed.

Lemma handleMessage_keeps ts m ts' r p :
  handleMessage ts m = Ok ts' -> occurs r p ts -> occurs r p ts'.
Proof.
  intros H Ho. apply (handleMessage_occurs ts m ts' H). left. exact Ho.
Qed.

(** The transcoder never removes a part. *)
Lemma transcodeFrom_keeps msgs : forall ts out r p,
  transcodeFrom ts msgs = Ok out -> occurs r p ts -> occurs r p out.
Proof.
  induction msgs as [|m rest IH]; intros ts out r p; simpl.
  - intros H. inversion H; subst. auto.
  - destruct (handleMessage ts m) as [ts'|] eqn:E; simpl; [|discriminate].
    intros H Ho. apply (IH ts' out r p H).
    apply (handleMessage_keeps ts m ts' r p E Ho).
Qed.

(* ================================================================== *)
(** ** Resolving a tool call id                                        *)
(* ================================================================== *)

Lemma findInParts_Some id ps name :
  findInParts id ps = Some name -> exists q, In (PFunctionCall id name q) ps.
Proof.
  induction ps as [|p r IH]; simpl; [discriminate|].
  destruct p as [tx | d | id' name' q' | id' name' o'];
    try (intros H; destruct (IH H) as [q Hq]; exists q; right; exact Hq).
  destruct (String.eqb id' id) eqn:E.
  - intros H. inversion H; subst. apply String.eqb_eq in E. subst.
    exists q'. left. reflexivity.
  - intros H. destruct (IH H) as [q Hq]. exists q. right. exact Hq.
Qed.

Lemma findInParts_None id ps :
  findInParts id ps = None -> forall name q, ~ In (PFunctionCall id name q) ps.
Proof.
  induction ps as [|p r IH]; simpl; [tauto|].
  destruct p as [tx | d | id' name' q' | id' name' o'];
    try (intros H name q [Hc | Hc]; [discriminate | exact (IH H name q Hc)]).
  destruct (String.eqb id' id) eqn:E; [discriminate|].
  intros H name q [Hc | Hc].
  - inversion Hc; subst. rewrite String.eqb_refl in E. discriminate.
  - exact (IH H name q Hc).
Qed.

(** A scan that meets no part with the id returns the empty name. *)
Lemma scanTurns_unmatched id l :
  (forall t name q, In t l -> role t = Model ->
                    ~ In (PFunctionCall id name q) (parts t)) ->
  scanTurns id l = "".
Proof.
  induction l as [|t r IH]; intros H; simpl; [reflexivity|].
  assert (IH' : scanTurns id r = "").
  { apply IH. intros t' name q Hin. apply H. right. exact Hin. }
  destruct (role t) eqn:R; [exact IH'|].
  destruct (findInParts id (parts t)) as [name|] eqn:F; [|exact IH'].
  destruct (findInParts_Some _ _ _ F) as [q Hq].
  exfalso. exact (H t name q (or_introl eq_refl) R Hq).
Qed.

(** A scan returns the empty name or the name of a functionCall part
    with the id, standing in a model turn. *)
Lemma scanTurns_sound id l :
  scanTurns id l = ""
  \/ exists t q, In t l /\ role t = Model
                 /\ In (PFunctionCall id (scanTurns id l) q) (parts t).
Proof.
  induction l as [|t r IH]; simpl; [left; reflexivity|].
  assert (IH' : scanTurns id r = ""
                \/ exists t0 q, (t = t0 \/ In t0 r) /\ role t0 = Model
                     /\ In (PFunctionCall id (scanTurns id r) q) (parts t0)).
  { destruct IH as [IH | (t0 & q & Hin & Hr & Hp)]; [left; exact IH|].
    right. exists t0, q. auto. }
  destruct (role t) eqn:R; [exact IH'|].
  destruct (findInParts id (parts t)) as [name|] eqn:F; [|exact IH'].
  destruct (JsString.truthy name) eqn:T; [|exact IH'].
  destruct (findInParts_Some _ _ _ F) as [q Hq].
  right. exists t, q. auto.
Qed.

(** When a model turn holds a functionCall part with the id and no
    functionCall part of a model turn has an empty name, the scan
    returns a non-empty name. *)
Lemma scanTurns_found id l :
  (forall t id' name q, In t l -> role t = Model ->
                        In (PFunctionCall id' name q) (parts t) ->
                        name <> "") ->
  (exists t name q, In t l /\ role t = Model
                    /\ In (PFunctionCall id name q) (parts t)) ->
  scanTurns id l <> "".
Proof.
  induction l as [|t r IH]; intros Hne (t0 & name & q & Hin & Hr & Hp).
  - destruct Hin.
  - simpl.
    assert (Hne' : forall t id' name q, In t r -> role t = Model ->
                     In (PFunctionCall id' name q) (parts t) -> name <> "").
    { intros t1 id' n1 q1 Hin1. apply Hne. right. exact Hin1. }
    destruct Hin as [<- | Hin].
    + rewrite Hr.
      destruct (findInParts id (parts t)) as [n|] eqn:F.
      * destruct (findInParts_Some _ _ _ F) as [q' Hq'].
        assert (Hn : n <> "") by exact (Hne t id n q' (or_introl eq_refl) Hr Hq').
        destruct n; [congruence|]. simpl. discriminate.
      * exfalso. exact (findInParts_None _ _ F name q Hp).
    + assert (IH' : scanTurns id r <> "").
      { apply IH; [exact Hne'|]. exists t0, name, q. auto. }
      destruct (role t) eqn:R; [exact IH'|].
      destruct (findInParts id (parts t)) as [n|] eqn:F; [|exact IH'].
      destruct (JsString.truthy n) eqn:T; [|exact IH'].
      destruct n; [discriminate | discriminate].
Qed.

Lemma findFunctionName_unmatched id ts :
  (forall name q, ~ occurs Model (PFunctionCall id name q) ts) ->
  findFunctionName id ts = "".
Proof.
  intros H. apply scanTurns_unmatched.
  intros t name q Hin Hr Hp. apply (H name q).
  exists t. apply in_rev in Hin. auto.
Qed.

Lemma findFunctionName_sound id ts :
  findFunctionName id ts = ""
  \/ exists q, occurs Model (PFunctionCall id (findFunctionName id ts) q) ts.
Proof.
  unfold findFunctionName.
  destruct (scanTurns_sound id (rev ts)) as [H | (t & q & Hin & Hr & Hp)];
    [left; exact H|].
  right. exists q, t. apply in_rev in Hin. auto.
Qed.

Lemma findFunctionName_found id ts :
  (forall id' name q, occurs Model (PFunctionCall id' name q) ts ->
                      name <> "") ->
  (exists name q, occurs Model (PFunctionCall id name q) ts) ->
  findFunctionName id ts <> "".
Proof.
  intros Hne (name & q & t & Hin & Hr & Hp).
  apply scanTurns_found.
  - intros t1 id' n1 q1 Hin1 Hr1 Hp1. apply (Hne id' n1 q1).
    exists t1. apply in_rev in Hin1. auto.
  - exists t, name, q. rewrite <- in_rev. auto.
Qed.

(* ================================================================== *)
(** ** Tool messages with an unknown id                                *)
(* ================================================================== *)

Lemma kindOf_tool m : msg_role m = "tool" -> kindOf m = KTool.
Proof. unfold kindOf. intros ->. reflexivity. Qed.

Lemma kindOf_assistant m : msg_role m = "assistant" -> kindOf m = KAssistant.
Proof. unfold kindOf. intros ->. reflexivity. Qed.

(** Where [handleToolCall] puts the functionResponse part: at the end
    of the last turn, which is a user turn. *)
Lemma handleToolCall_last m ts :
  exists init ps,
    handleToolCall m ts
    = init ++ [{| role := User; parts := ps ++ [responsePart m ts] |}].
Proof.
  unfold handleToolCall. fold (responsePart m ts).
  destruct (lastMessage ts) as [t|] eqn:L.
  - destruct (Role_eqb (role t) User
              && existsb isFunctionResponse (parts t)) eqn:M.
    + apply andb_prop in M. destruct M as [Hr _]. apply Role_eqb_eq in Hr.
      destruct (turns_snoc_cases ts) as [-> | (init & t0 & ->)];
        [discriminate|].
      rewrite lastMessage_snoc in L. inversion L; subst t0.
      rewrite pushToLast_snoc, Hr. eauto.
    + exists ts, []. reflexivity.
  - exists ts, []. reflexivity.
Qed.

(** C6. A tool message whose [tool_call_id] is the id of no functionCall
    part of the model turns produced so far still gets its
    functionResponse part, in a user turn, with the empty string as
    name and the content of the message as output; and the translation
    of the whole message list returns a turn list that holds this
    part, whenever the other messages are accepted. *)
Theorem unresolved_tool_call_id_degrades
    (pre : list Message) (m : Message) (post : list Message)
    (turns : list Turn) :
  msg_role m = "tool" ->
  openaiMessageToAntigravity pre = Ok turns ->
  (forall name q,
      ~ occurs Model (PFunctionCall (msg_tool_call_id m) name q) turns) ->
  accepted post = true ->
  (exists init ps,
      openaiMessageToAntigravity (pre ++ [m])
      = Ok (init ++ [{| role := User;
                        parts := ps ++ [PFunctionResponse (msg_tool_call_id m)
                                          "" (msg_content m)] |}]))
  /\ exists out,
       openaiMessageToAntigravity (pre ++ m :: post) = Ok out
       /\ occurs User
            (PFunctionResponse (msg_tool_call_id m) "" (msg_content m)) out.
Proof.
  intros Hrole Hpre Hno Hpost.
  pose proof (findFunctionName_unmatched _ _ Hno) as Hname.
  assert (Hstep : handleMessage turns m = Ok (handleToolCall m turns)).
  { rewrite handleMessage_kind, (kindOf_tool m Hrole). reflexivity. }
  destruct (handleToolCall_last m turns) as (init & ps & Hlast).
  unfold responsePart in Hlast. rewrite Hname in Hlast.
  unfold openaiMessageToAntigravity in *.
  split.
  - exists init, ps. rewrite transcodeFrom_app, Hpre. simpl.
    rewrite Hstep. simpl. rewrite Hlast. reflexivity.
  - rewrite transcodeFrom_app, Hpre. simpl. rewrite Hstep. simpl.
    destruct (transcodeFrom_accepted post (handleToolCall m turns) Hpost)
      as [out E].
    exists out. split; [exact E|].
    apply (transcodeFrom_keeps post (handleToolCall m turns) out _ _ E).
    rewrite Hlast. apply occurs_snoc. right. simpl. split; [reflexivity|].
    apply in_or_app. right. left. reflexivity.
Qed.

Lemma unresolved_tool_call_id_degrades_witness :
  exists out,
    openaiMessageToAntigravity
      (orphanDialogue ++ toolMessage "call_9" (CStr "4C")
                      :: [assistantMessage (CStr "It is 4C.") []]) = Ok out
    /\ occurs User (PFunctionResponse "call_9" "" (CStr "4C")) out.
Proof.
  refine (proj2 (unresolved_tool_call_id_degrades orphanDialogue
                   (toolMessage "call_9" (CStr "4C"))
                   [assistantMessage (CStr "It is 4C.") []]
                   _ eq_refl eq_refl _ eq_refl)).
  intros name q (t & Hin & Hr & Hp). simpl in Hin.
  destruct Hin as [<- | [<- | []]]; simpl in *.
  - discriminate.
  - destruct Hp as [Hp | []]. discriminate.
Defined.

(* ================================================================== *)
(** ** Two assistant messages, two tool messages                       *)
(* ================================================================== *)

Lemma truthy_or_empty (name : string) :
  (if JsString.truthy name then name else "") = name.
Proof. destruct name; reflexivity. Qed.

(** C7. Two consecutive assistant messages with one tool call each and
    no non-empty text, followed by two tool messages answering the two
    calls in order, give exactly two turns: a model turn whose parts
    are the two functionCall parts, and a user turn whose parts are
    the two functionResponse parts. *)
Theorem two_calls_two_results_collapse
    (a1 a2 t1 t2 : Message) (c1 c2 : ToolCall) :
  msg_role a1 = "assistant" -> msg_role a2 = "assistant" ->
  msg_role t1 = "tool" -> msg_role t2 = "tool" ->
  msg_tool_calls a1 = [c1] -> msg_tool_calls a2 = [c2] ->
  hasContent a1 = Ok false -> hasContent a2 = Ok false ->
  msg_tool_call_id t1 = call_id c1 -> msg_tool_call_id t2 = call_id c2 ->
  openaiMessageToAntigravity [a1; a2; t1; t2]
  = Ok [{| role := Model;
           parts := [toFunctionCall c1; toFunctionCall c2] |};
        {| role := User;
           parts :=
             [PFunctionResponse (call_id c1) (fn_name (call_function c1))
                (msg_content t1);
              PFunctionResponse (call_id c2)
                (if String.eqb (call_id c1) (call_id c2)
                 then fn_name (call_function c1)
                 else fn_name (call_function c2))
                (msg_content t2)] |}].
Proof.
  intros Ra1 Ra2 Rt1 Rt2 C1 C2 H1 H2 I1 I2.
  unfold openaiMessageToAntigravity, transcodeFrom.
  rewrite (handleMessage_kind [] a1), (kindOf_assistant a1 Ra1),
    (handleAssistantMessage_eq a1 [] false H1).
  cbn [bind lastRoleIs lastMessage andb].
  rewrite (hasContent_false_textParts a1 H1).
  unfold callParts at 1. rewrite C1. cbn [map app].
  rewrite (handleMessage_kind _ a2), (kindOf_assistant a2 Ra2),
    (handleAssistantMessage_eq a2 _ false H2).
  unfold hasToolCalls, callParts. rewrite C2.
  cbn [bind lastRoleIs lastMessage role Role_eqb andb negb List.length
         Nat.ltb Nat.leb map pushToLast parts app].
  rewrite (handleMessage_kind _ t1), (kindOf_tool t1 Rt1).
  unfold handleToolCall, findFunctionName. rewrite I1.
  cbn [bind lastMessage role Role_eqb andb rev app scanTurns parts
         toFunctionCall findInParts].
  rewrite String.eqb_refl, truthy_or_empty.
  rewrite (handleMessage_kind _ t2), (kindOf_tool t2 Rt2).
  unfold handleToolCall, findFunctionName. rewrite I2.
  cbn [bind lastMessage role Role_eqb andb rev app scanTurns parts
         toFunctionCall findInParts existsb isFunctionResponse orb
         pushToLast].
  rewrite String.eqb_refl.
  destruct (String.eqb (call_id c1) (call_id c2));
    rewrite truthy_or_empty; reflexivity.
Qed.

Lemma two_calls_two_results_collapse_witness :
  openaiMessageToAntigravity
    [assistantMessage CNull [toolCall "call_1" "get_weather" "Oslo"];
     assistantMessage (CStr " ") [toolCall "call_2" "get_time" "Rome"];
     toolMessage "call_1" (CStr "4C");
     toolMessage "call_2" (CStr "12:00")]
  = Ok [{| role := Model;
           parts := [PFunctionCall "call_1" "get_weather" "Oslo";
                     PFunctionCall "call_2" "get_time" "Rome"] |};
        {| role := User;
           parts := [PFunctionResponse "call_1" "get_weather" (CStr "4C");
                     PFunctionResponse "call_2" "get_time" (CStr "12:00")] |}].
Proof.
  apply (two_calls_two_results_collapse
           (assistantMessage CNull [toolCall "call_1" "get_weather" "Oslo"])
           (assistantMessage (CStr " ") [toolCall "call_2" "get_time" "Rome"])
           (toolMessage "call_1" (CStr "4C"))
           (toolMessage "call_2" (CStr "12:00"))
           (toolCall "call_1" "get_weather" "Oslo")
           (toolCall "call_2" "get_time" "Rome"));
    reflexivity.
Defined.

(* ================================================================== *)
(** ** The names of the functionResponse parts                         *)
(* ================================================================== *)

Lemma userParts_shape m p :
  In p (userParts m) ->
  (exists s, p = PText s) \/ (exists d, p = PInlineData d).
Proof.
  unfold userParts. intros [<- | H]; [left; eauto|].
  apply in_map_iff in H. destruct H as (d & <- & _). right. eauto.
Qed.

Lemma textParts_shape m p : In p (textParts m) -> exists s, p = PText s.
Proof.
  unfold textParts. destruct (msg_content m); try contradiction.
  destruct (JsString.truthy s && negb (JsString.isEmpty (JsString.trim s)));
    [|contradiction].
  intros [<- | []]. eauto.
Qed.

Lemma callParts_shape m p :
  In p (callParts m) -> exists c, In c (msg_tool_calls m) /\ p = toFunctionCall c.
Proof.
  unfold callParts. intros H. apply in_map_iff in H.
  destruct H as (c & <- & Hc). eauto.
Qed.

(** A functionCall part a message contributes comes from one of its
    tool calls, and goes to a model turn. *)
Lemma contribution_call ts m id name q :
  In (PFunctionCall id name q) (snd (contribution ts m)) ->
  fst (contribution ts m) = Model
  /\ exists c, In c (callsOf m) /\ PFunctionCall id name q = toFunctionCall c.
Proof.
  unfold contribution, callsOf. destruct (kindOf m); simpl.
  - intros H. destruct (userParts_shape m _ H) as [[s E] | [d E]]; discriminate.
  - intros H. apply in_app_or in H. destruct H as [H | H].
    + destruct (textParts_shape m _ H) as [s E]. discriminate.
    + split; [reflexivity|]. apply callParts_shape. exact H.
  - intros [H | []]. discriminate.
  - intros [].
Qed.

(** A functionResponse part a message contributes is the one of a tool
    message. *)
Lemma contribution_response ts m id name output :
  In (PFunctionResponse id name output) (snd (contribution ts m)) ->
  kindOf m = KTool
  /\ id = msg_tool_call_id m
  /\ name = findFunctionName (msg_tool_call_id m) ts.
Proof.
  unfold contribution. destruct (kindOf m); simpl.
  - intros H. destruct (userParts_shape m _ H) as [[s E] | [d E]]; discriminate.
  - intros H. apply in_app_or in H. destruct H as [H | H].
    + destruct (textParts_shape m _ H) as [s E]. discriminate.
    + destruct (callParts_shape m _ H) as (c & _ & E). discriminate.
  - intros [H | []]. unfold responsePart in H. inversion H; subst. auto.
  - intros [].
Qed.

Lemma contribution_calls ts m c :
  In c (callsOf m) ->
  fst (contribution ts m) = Model
  /\ In (toFunctionCall c) (snd (contribution ts m)).
Proof.
  unfold contribution, callsOf. destruct (kindOf m); simpl; try contradiction.
  intros H. split; [reflexivity|].
  apply in_or_app. right. unfold callParts. apply in_map. exact H.
Qed.

Lemma truthy_nonempty s : JsString.truthy s = true <-> s <> "".
Proof.
  destruct s; cbn; split; intros H; try reflexivity; try discriminate.
  contradiction H. reflexivity.
Qed.

(** One message keeps the turn list resolved. *)
Lemma handleMessage_Resolved emitted ts m ts' :
  Resolved emitted ts ->
  handleMessage ts m = Ok ts' ->
  forallb (fun c => JsString.truthy (fn_name (call_function c))) (callsOf m)
  = true ->
  (kindOf m = KTool -> In (msg_tool_call_id m) emitted) ->
  Resolved (emitted ++ map call_id (callsOf m)) ts'.
Proof.
  intros [Hc He Hr] Hstep Hnamed Htool.
  pose proof (handleMessage_occurs ts m ts' Hstep) as Hocc.
  assert (Hkeep : forall r p, occurs r p ts -> occurs r p ts').
  { intros r p H. apply Hocc. left. exact H. }
  split.
  - intros r id name q H. apply Hocc in H. destruct H as [H | [Hr' Hp]].
    + exact (Hc r id name q H).
    + destruct (contribution_call ts m id name q Hp) as (Hm & c & Hin & E).
      split; [congruence|].
      rewrite forallb_forall in Hnamed. specialize (Hnamed c Hin).
      apply truthy_nonempty in Hnamed.
      unfold toFunctionCall in E. inversion E; subst. exact Hnamed.
  - intros id H. apply in_app_or in H. destruct H as [H | H].
    + destruct (He id H) as (name & q & Ho). exists name, q. auto.
    + apply in_map_iff in H. destruct H as (c & <- & Hin).
      destruct (contribution_calls ts m c Hin) as [Hm Hp].
      exists (fn_name (call_function c)), (fn_arguments (call_function c)).
      apply Hocc. right. split; [symmetry; exact Hm | exact Hp].
  - intros r id name output H. apply Hocc in H. destruct H as [H | [Hr' Hp]].
    + destruct (Hr r id name output H) as (Hn & q & Ho).
      split; [exact Hn|]. exists q. auto.
    + destruct (contribution_response ts m id name output Hp) as (K & -> & ->).
      assert (Hcalls : forall id' name' q',
                 occurs Model (PFunctionCall id' name' q') ts -> name' <> "").
      { intros id' name' q' Ho. exact (proj2 (Hc _ _ _ _ Ho)). }
      pose proof (findFunctionName_found (msg_tool_call_id m) ts Hcalls
                    (He _ (Htool K))) as Hne.
      split; [exact Hne|].
      destruct (findFunctionName_sound (msg_tool_call_id m) ts)
        as [E | (q & Ho)]; [contradiction|].
      exists q. auto.
Qed.

Lemma forallb_app_true {A} (f : A -> bool) l1 l2 :
  forallb f (l1 ++ l2) = true -> forallb f l1 = true /\ forallb f l2 = true.
Proof. rewrite forallb_app. apply andb_prop. Qed.

Lemma transcodeFrom_Resolved msgs : forall emitted ts out,
  Resolved emitted ts ->
  callsNamed msgs = true ->
  answersEmittedCalls emitted msgs = true ->
  transcodeFrom ts msgs = Ok out ->
  exists emitted', Resolved emitted' out.
Proof.
  induction msgs as [|m rest IH]; intros emitted ts out HR Hn Ha; simpl.
  - intros H. inversion H; subst. eauto.
  - destruct (handleMessage ts m) as [ts'|] eqn:E; simpl; [|discriminate].
    intros H. unfold callsNamed, allCalls in Hn. simpl in Hn.
    apply forallb_app_true in Hn. destruct Hn as [Hm Hrest].
    simpl in Ha.
    assert (Htool : kindOf m = KTool -> In (msg_tool_call_id m) emitted).
    { intros K. rewrite K in Ha. apply andb_prop in Ha. destruct Ha as [Ha _].
      apply existsb_exists in Ha. destruct Ha as (id & Hin & Heq).
      apply String.eqb_eq in Heq. subst. exact Hin. }
    pose proof (handleMessage_Resolved emitted ts m ts' HR E Hm Htool) as HR'.
    apply (IH (emitted ++ map call_id (callsOf m)) ts' out HR' Hrest); [|exact H].
    unfold callsOf. destruct (kindOf m); simpl; rewrite ?app_nil_r; auto.
    apply andb_prop in Ha. apply Ha.
Qed.

Lemma Resolved_nil : Resolved [] [].
Proof.
  split.
  - intros r id name q H. destruct (occurs_nil _ _ H).
  - intros id [].
  - intros r id name output H. destruct (occurs_nil _ _ H).
Qed.

(** Every functionCall part of the result comes from a tool call of an
    assistant message. *)
Lemma transcodeFrom_calls msgs : forall ts out r id name q,
  transcodeFrom ts msgs = Ok out ->
  occurs r (PFunctionCall id name q) out ->
  occurs r (PFunctionCall id name q) ts
  \/ exists c, In c (allCalls msgs) /\ PFunctionCall id name q = toFunctionCall c.
Proof.
  induction msgs as [|m rest IH]; intros ts out r id name q; simpl.
  - intros H. inversion H; subst. auto.
  - destruct (handleMessage ts m) as [ts'|] eqn:E; simpl; [|discriminate].
    intros H Ho. destruct (IH ts' out r id name q H Ho) as [Ho' | (c & Hin & Hc)].
    + apply (handleMessage_occurs ts m ts' E) in Ho'.
      destruct Ho' as [Ho' | [_ Hp]]; [left; exact Ho'|].
      destruct (contribution_call ts m id name q Hp) as (_ & c & Hin & Hc).
      right. exists c. split; [|exact Hc].
      unfold allCalls. simpl. apply in_or_app. left. exact Hin.
    + right. exists c. split; [|exact Hc].
      unfold allCalls. simpl. apply in_or_app. right. exact Hin.
Qed.

Lemma NoDup_map_inj {A B} (f : A -> B) l x y :
  NoDup (map f l) -> In x l -> In y l -> f x = f y -> x = y.
Proof.
  induction l as [|a r IH]; simpl; [contradiction|].
  intros Hnd Hx Hy Hf. inversion Hnd as [|? ? Hnot Hnd']; subst.
  destruct Hx as [<- | Hx], Hy as [<- | Hy]; auto.
  - exfalso. apply Hnot. rewrite Hf. apply in_map. exact Hy.
  - exfalso. apply Hnot. rewrite <- Hf. apply in_map. exact Hx.
Qed.

(** C5, refuted as stated: the answer to a tool call whose function
    name is the empty string carries the empty name. *)
Lemma response_to_unnamed_call_has_empty_name :
  answersEmittedCalls [] unnamedCallDialogue = true
  /\ openaiMessageToAntigravity unnamedCallDialogue
     = Ok [{| role := Model; parts := [PFunctionCall "call_1" "" "Oslo"] |};
           {| role := User;
              parts := [PFunctionResponse "call_1" "" (CStr "4C")] |}]
  /\ ~ responses_carry_call_names.
Proof.
  split; [reflexivity|]. split; [reflexivity|].
  intros H.
  destruct (H unnamedCallDialogue _ eq_refl eq_refl User "call_1" ""
              (CStr "4C")) as [Hne _].
  - eexists. split; [right; left; reflexivity|].
    split; [reflexivity | left; reflexivity].
  - apply Hne. reflexivity.
Qed.

(** C5, amended. On every accepted message list in which every tool
    call names its function (a non-empty name) and every tool message
    carries the id of a tool call of an earlier assistant message,
    every functionResponse part of the result has a non-empty name,
    which is the name of a functionCall part with the same id standing
    in a model turn; when the ids of the tool calls are pairwise
    distinct, it is the name of every functionCall part with that id. *)
Theorem responses_carry_names_of_named_calls (msgs : list Message) :
  accepted msgs = true ->
  callsNamed msgs = true ->
  answersEmittedCalls [] msgs = true ->
  exists out,
    openaiMessageToAntigravity msgs = Ok out
    /\ forall r id name output,
         occurs r (PFunctionResponse id name output) out ->
         name <> ""
         /\ (exists q, occurs Model (PFunctionCall id name q) out)
         /\ (NoDup (map call_id (allCalls msgs)) ->
             forall r' name' q',
               occurs r' (PFunctionCall id name' q') out -> name' = name).
Proof.
  intros Hacc Hnamed Hans.
  destruct (transcodeFrom_accepted msgs [] Hacc) as [out E].
  exists out. split; [exact E|].
  destruct (transcodeFrom_Resolved msgs [] [] out Resolved_nil Hnamed Hans E)
    as [emitted [_ _ Hr]].
  intros r id name output Ho.
  destruct (Hr r id name output Ho) as (Hne & q & Hq).
  split; [exact Hne|]. split; [exists q; exact Hq|].
  intros Hnd r' name' q' Ho'.
  destruct (transcodeFrom_calls msgs [] out _ _ _ _ E Hq)
    as [Hnil | (c & Hc & Ec)]; [destruct (occurs_nil _ _ Hnil)|].
  destruct (transcodeFrom_calls msgs [] out _ _ _ _ E Ho')
    as [Hnil | (c' & Hc' & Ec')]; [destruct (occurs_nil _ _ Hnil)|].
  unfold toFunctionCall in Ec, Ec'. inversion Ec. inversion Ec'.
  assert (c' = c).
  { apply (NoDup_map_inj call_id (allCalls msgs)); auto. congruence. }
  subst c'. reflexivity.
Qed.

Lemma responses_carry_names_of_named_calls_witness :
  exists out,
    openaiMessageToAntigravity weatherDialogue = Ok out
    /\ forall r id name output,
         occurs r (PFunctionResponse id name output) out ->
         name <> ""
         /\ (exists q, occurs Model (PFunctionCall id name q) out)
         /\ (NoDup (map call_id (allCalls weatherDialogue)) ->
             forall r' name' q',
               occurs r' (PFunctionCall id name' q') out -> name' = name).
Proof.
  apply (responses_carry_names_of_named_calls weatherDialogue); reflexivity.
Defined.

(* ================================================================== *)
(** * Part III, continued: further properties of the code *)
(* ================================================================== *)

(* ================================================================== *)
(** ** Tool schema normalizer: what is removed, what is kept          *)
(* ================================================================== *)

Lemma mentionsExcluded_obj props :
  mentionsExcluded (VObj props) = false <-> stripped props.
Proof.
  simpl. unfold stripped. split.
  - intros H k v Hin.
    destruct (excluded k || mentionsExcluded v) eqn:E.
    + assert (Hex : existsb (fun kv => excluded (fst kv)
                                       || mentionsExcluded (snd kv)) props
                    = true).
      { apply existsb_exists. exists (k, v). split; [exact Hin | exact E]. }
      congruence.
    + apply orb_false_elim in E. exact E.
  - intros H. destruct (existsb _ props) eqn:E; [|reflexivity].
    apply existsb_exists in E. destruct E as ([k v] & Hin & E).
    destruct (H k v Hin) as [Hk Hv]. simpl in E. rewrite Hk, Hv in E.
    discriminate.
Qed.

Lemma stripped_fold props : forall cleaned,
  Forall (fun kv => mentionsExcluded (cleanParameters (snd kv)) = false)
         props ->
  stripped cleaned ->
  stripped (fold_left cleanEntry props cleaned).
Proof.
  induction props as [|[k v] r IH]; intros cleaned Hall Hc; simpl;
    [exact Hc|].
  inversion Hall as [|? ? Hv Hr]; subst. simpl in Hv.
  apply IH; [exact Hr|].
  destruct (excluded k) eqn:E; [exact Hc|].
  intros k' v' Hin. apply assign_In in Hin. destruct Hin as [Hin | Hin].
  - inversion Hin; subst. auto.
  - exact (Hc k' v' Hin).
Qed.

Lemma cleanParameters_stripped (v : value) :
  mentionsExcluded (cleanParameters v) = false.
Proof.
  induction v as [| | b | q | s | l IH | l IH] using value_nested_ind;
    try reflexivity.
  - simpl. destruct (existsb mentionsExcluded (map cleanParameters l)) eqn:E;
      [|reflexivity].
    apply existsb_exists in E. destruct E as (x & Hin & Hx).
    apply in_map_iff in Hin. destruct Hin as (y & <- & Hy).
    rewrite Forall_forall in IH. rewrite (IH y Hy) in Hx. discriminate.
  - rewrite cleanParameters_obj. apply mentionsExcluded_obj.
    apply stripped_fold; [exact IH|]. intros k v [].
Qed.

(** X1. Whatever the schema, the cleaned copy holds none of the
    excluded keys, at any depth of nested objects and arrays. *)
Theorem cleanParameters_strips_everywhere (v : value) :
  mentionsExcluded (cleanParameters v) = false.
Proof. exact (cleanParameters_stripped v). Qed.









(* ================================================================== *)
(** ** Content extractor                                              *)
(* ================================================================== *)

Lemma stripPrefix_app p s : stripPrefix p (p ++ s)%string = Some s.
Proof.
  induction p as [|a p IH]; simpl; [destruct s; reflexivity|].
  rewrite Ascii.eqb_refl. exact IH.
Qed.

Lemma stripPrefix_Some p : forall s r,
  stripPrefix p s = Some r -> s = (p ++ r)%string.
Proof.
  induction p as [|a p IH]; intros s r; simpl.
  - destruct s; intros H; inversion H; reflexivity.
  - destruct s as [|b s]; [discriminate|].
    destruct (Ascii.eqb a b) eqn:E; [|discriminate].
    apply Ascii.eqb_eq in E. subst b. intros H. rewrite (IH s r H).
    reflexivity.
Qed.

Lemma spanWord_app w : forall c r,
  allChars isWordChar w = true -> isWordChar c = false ->
  spanWord (w ++ String c r)%string = (w, String c r).
Proof.
  induction w as [|a w IH]; intros c r Hw Hc; simpl.
  - rewrite Hc. reflexivity.
  - simpl in Hw. apply andb_prop in Hw. destruct Hw as [Ha Hw].
    rewrite Ha, (IH c r Hw Hc). reflexivity.
Qed.

Lemma spanWord_sound s : forall w r,
  spanWord s = (w, r) -> s = (w ++ r)%string /\ allChars isWordChar w = true.
Proof.
  induction s as [|a s IH]; intros w r; simpl.
  - intros H. inversion H. split; reflexivity.
  - destruct (isWordChar a) eqn:E.
    + destruct (spanWord s) as [w' r'] eqn:S. intros H. inversion H; subst.
      destruct (IH w' r eq_refl) as [-> Hw]. simpl. rewrite E, Hw.
      split; reflexivity.
    + intros H. inversion H; subst. split; reflexivity.
Qed.

Lemma isEmpty_true s : JsString.isEmpty s = true <-> s = "".
Proof. destruct s; simpl; split; congruence. Qed.

Lemma isEmpty_false s : JsString.isEmpty s = false <-> s <> "".
Proof. destruct s; simpl; split; congruence. Qed.

Lemma matchDataImage_spec (imageUrl format payload : string) :
  matchDataImage imageUrl = Some (format, payload)
  <-> imageUrl = dataImageUrl format payload /\ imageGroups format payload.
Proof.
  unfold matchDataImage, dataImageUrl, imageGroups. split.
  - destruct (stripPrefix "data:image/" imageUrl) as [r|] eqn:P;
      [|discriminate].
    destruct (spanWord r) as [w r1] eqn:S.
    destruct (JsString.isEmpty w) eqn:Ew; [discriminate|].
    destruct (stripPrefix ";base64," r1) as [d|] eqn:P1; [|discriminate].
    destruct (JsString.isEmpty d || anyChar isLineTerminator d) eqn:Ed;
      [discriminate|].
    intros H. inversion H; subst; clear H.
    apply orb_false_elim in Ed. destruct Ed as [Ed Hl].
    apply stripPrefix_Some in P. apply stripPrefix_Some in P1.
    destruct (spanWord_sound r format r1 S) as [-> Hw]. subst.
    split; [reflexivity|].
    repeat split; [apply isEmpty_false; exact Ew | exact Hw
                  | apply isEmpty_false; exact Ed | exact Hl].
  - intros [-> (Hf & Hw & Hp & Hl)].
    rewrite stripPrefix_app.
    change (";base64," ++ payload)%string
      with (String ";" ("base64," ++ payload)).
    rewrite (spanWord_app format ";" _ Hw eq_refl).
    apply isEmpty_false in Hf. rewrite Hf.
    change (String ";" ("base64," ++ payload))
      with (";base64," ++ payload)%string.
    rewrite stripPrefix_app.
    apply isEmpty_false in Hp. rewrite Hp, Hl. reflexivity.
Qed.

(** X4. The pattern of [extractImagesFromContent] matches a URL, with
    groups [format] and [payload], exactly when the URL is
    [data:image/<format>;base64,<payload>] with a non-empty word as
    format and a non-empty payload without line terminator. *)
Theorem matchDataImage_iff (imageUrl format payload : string) :
  matchDataImage imageUrl = Some (format, payload)
  <-> imageUrl = dataImageUrl format payload /\ imageGroups format payload.
Proof. exact (matchDataImage_spec imageUrl format payload). Qed.

Lemma append_nil_r (s : string) : (s ++ "")%string = s.
Proof. induction s as [|a s IH]; simpl; [reflexivity | rewrite IH; reflexivity]. Qed.

Lemma append_assoc (a b c : string) :
  ((a ++ b) ++ c)%string = (a ++ (b ++ c))%string.
Proof. induction a as [|x a IH]; simpl; [reflexivity | rewrite IH; reflexivity]. Qed.

Lemma extractItem_split result item :
  extractItem result item
  = {| ex_text := ex_text result ++ itemText item;
       ex_images := ex_images result ++ itemImages item |}.
Proof.
  unfold itemText, itemImages.
  destruct result as [t i]. destruct item as [text|url|]; simpl.
  - rewrite app_nil_r. reflexivity.
  - destruct (matchDataImage match url with Some u => u | None => "" end)
      as [[f d]|]; simpl; rewrite append_nil_r, ?app_nil_r; reflexivity.
  - rewrite append_nil_r, app_nil_r. reflexivity.
Qed.

Lemma extractItems_from result items :
  extractItems result items
  = {| ex_text := ex_text result
                  ++ ex_text (extractItems {| ex_text := ""; ex_images := [] |}
                                           items);
       ex_images := ex_images result
                    ++ ex_images (extractItems
                                    {| ex_text := ""; ex_images := [] |}
                                    items) |}.
Proof.
  unfold extractItems. revert result.
  induction items as [|item r IH]; intros result; simpl.
  - rewrite append_nil_r, app_nil_r. destruct result; reflexivity.
  - rewrite IH. rewrite (IH (extractItem _ item)).
    rewrite (extractItem_split result item).
    rewrite (extractItem_split {| ex_text := ""; ex_images := [] |} item).
    simpl. rewrite append_assoc, <- app_assoc. reflexivity.
Qed.

(** X5. The extractor works item by item: on an array made of two
    runs of items, the text is the text of the first run followed by
    the text of the second, and the images are the images of the first
    run followed by the images of the second. *)
Theorem extractImagesFromContent_app (items1 items2 : list ContentItem) :
  extractImagesFromContent (CArr (items1 ++ items2))
  = {| ex_text :=
         ex_text (extractImagesFromContent (CArr items1))
         ++ ex_text (extractImagesFromContent (CArr items2));
       ex_images :=
         ex_images (extractImagesFromContent (CArr items1))
         ++ ex_images (extractImagesFromContent (CArr items2)) |}.
Proof.
  simpl. rewrite fold_left_app.
  apply (extractItems_from
           (fold_left extractItem items1 {| ex_text := ""; ex_images := [] |})
           items2).
Qed.

Lemma itemImages_iff item img :
  In img (itemImages item)
  <-> exists format payload,
        item = ItemImageUrl (Some (dataImageUrl format payload))
        /\ imageGroups format payload
        /\ img = {| mimeType := "image/" ++ format; data := payload |}.
Proof.
  unfold itemImages. split.
  - destruct item as [text|[url|]|]; simpl; try contradiction.
    destruct (matchDataImage url) as [[f d]|] eqn:M; simpl; [|contradiction].
    intros [<- | []]. apply matchDataImage_spec in M. destruct M as [-> G].
    exists f, d. auto.
  - intros (f & d & -> & G & ->). simpl.
    rewrite (proj2 (matchDataImage_spec _ f d) (conj eq_refl G)).
    left. reflexivity.
Qed.

Lemma extractItems_images items :
  ex_images (extractItems {| ex_text := ""; ex_images := [] |} items)
  = flat_map itemImages items.
Proof.
  induction items as [|item r IH]; [reflexivity|].
  unfold extractItems in *. simpl.
  pose proof (extractItems_from
                (extractItem {| ex_text := ""; ex_images := [] |} item) r)
    as H.
  unfold extractItems in H. rewrite H. simpl. rewrite IH. reflexivity.
Qed.

(** X6. The images extracted from an array are exactly the images of
    its [image_url] items whose URL is a data URL of an image: each
    gives the mime type [image/<format>] and the payload; items of
    another type, and URLs of another form, give nothing. *)
Theorem extracted_images_are_data_urls (items : list ContentItem)
    (img : InlineData) :
  In img (ex_images (extractImagesFromContent (CArr items)))
  <-> exists format payload,
        In (ItemImageUrl (Some (dataImageUrl format payload))) items
        /\ imageGroups format payload
        /\ img = {| mimeType := "image/" ++ format; data := payload |}.
Proof.
  change (extractImagesFromContent (CArr items))
    with (extractItems {| ex_text := ""; ex_images := [] |} items).
  rewrite extractItems_images, in_flat_map. split.
  - intros (item & Hin & Himg). apply itemImages_iff in Himg.
    destruct Himg as (f & d & -> & G & ->). exists f, d. auto.
  - intros (f & d & Hin & G & ->).
    exists (ItemImageUrl (Some (dataImageUrl f d))). split; [exact Hin|].
    apply itemImages_iff. exists f, d. auto.
Qed.

(* ================================================================== *)
(** ** The transcoder: roles                                          *)
(* ================================================================== *)

Lemma handleMessage_ignored ts m :
  handled m = false -> handleMessage ts m = Ok ts.
Proof.
  unfold handled. rewrite handleMessage_kind.
  destruct (kindOf m); try discriminate. reflexivity.
Qed.

Lemma transcodeFrom_filter_handled msgs : forall ts,
  transcodeFrom ts (filter handled msgs) = transcodeFrom ts msgs.
Proof.
  induction msgs as [|m r IH]; intros ts; simpl; [reflexivity|].
  destruct (handled m) eqn:H; simpl.
  - destruct (handleMessage ts m); simpl; [apply IH | reflexivity].
  - rewrite (handleMessage_ignored ts m H). simpl. apply IH.
Qed.

(** X7. Messages whose role is none of ["user"], ["system"],
    ["assistant"], ["tool"] are skipped: the transcoder gives the same
    result with and without them. *)
Theorem unhandled_roles_are_skipped (msgs : list Message) :
  openaiMessageToAntigravity (filter handled msgs)
  = openaiMessageToAntigravity msgs.
Proof. exact (transcodeFrom_filter_handled msgs []). Qed.

Lemma handleMessage_asUser ts m :
  handleMessage ts (asUser m) = handleMessage ts m.
Proof.
  unfold asUser. destruct (String.eqb (msg_role m) "system") eqn:E;
    [|reflexivity].
  unfold handleMessage. simpl. rewrite E.
  destruct (String.eqb (msg_role m) "user"); reflexivity.
Qed.

Lemma transcodeFrom_asUser msgs : forall ts,
  transcodeFrom ts (map asUser msgs) = transcodeFrom ts msgs.
Proof.
  induction msgs as [|m r IH]; intros ts; simpl; [reflexivity|].
  rewrite handleMessage_asUser.
  destruct (handleMessage ts m); simpl; [apply IH | reflexivity].
Qed.

(** X8. Inside the transcoder a system message is a user message: the
    result is the same when every ["system"] role is replaced by
    ["user"]. *)
Theorem system_messages_transcode_as_user (msgs : list Message) :
  openaiMessageToAntigravity (map asUser msgs)
  = openaiMessageToAntigravity msgs.
Proof. exact (transcodeFrom_asUser msgs []). Qed.

(* ================================================================== *)
(** ** The transcoder: earlier turns are never rewritten              *)
(* ================================================================== *)

Lemma turn_eta (t : Turn) : {| role := role t; parts := parts t ++ [] |} = t.
Proof. destruct t. simpl. rewrite app_nil_r. reflexivity. Qed.

Lemma continues_refl ts : continues ts ts.
Proof.
  destruct (turns_snoc_cases ts) as [-> | (init & t & ->)]; [constructor|].
  rewrite <- (turn_eta t) at 2. constructor.
Qed.

Lemma continues_snoc ts x : continues ts (ts ++ [x]).
Proof.
  destruct (turns_snoc_cases ts) as [-> | (init & t & ->)]; [constructor|].
  rewrite <- app_assoc. simpl. rewrite <- (turn_eta t) at 2. constructor.
Qed.

Lemma continues_pushToLast ps ts : continues ts (pushToLast ps ts).
Proof.
  destruct (turns_snoc_cases ts) as [-> | (init & t & ->)]; [constructor|].
  rewrite pushToLast_snoc. constructor.
Qed.

Lemma continues_trans a b c : continues a b -> continues b c -> continues a c.
Proof.
  intros Hab Hbc. destruct Hab as [b | init t extra more]; [constructor|].
  remember (init ++ {| role := role t; parts := parts t ++ extra |} :: more)
    as b eqn:Eb.
  destruct Hbc as [c | init' t' extra' more'].
  - destruct init; discriminate.
  - destruct (turns_snoc_cases more) as [-> | (minit & mt & ->)].
    + apply app_inj_tail in Eb. destruct Eb as [-> ->]. simpl.
      rewrite <- app_assoc. constructor.
    + change (init ++ {| role := role t; parts := parts t ++ extra |}
                   :: minit ++ [mt])
        with (init ++ ({| role := role t; parts := parts t ++ extra |}
                         :: minit) ++ [mt]) in Eb.
      rewrite app_assoc in Eb. apply app_inj_tail in Eb.
      destruct Eb as [-> ->].
      rewrite <- app_assoc. simpl.
      rewrite <- (app_nil_r (parts t ++ extra)). rewrite <- app_assoc.
      simpl. rewrite app_nil_r.
      constructor.
Qed.

Lemma handleMessage_continues ts m ts' :
  handleMessage ts m = Ok ts' -> continues ts ts'.
Proof.
  rewrite handleMessage_kind. destruct (kindOf m).
  - intros H. invert H. apply continues_snoc.
  - destruct (hasContent m) as [b|] eqn:Hb.
    2:{ unfold handleAssistantMessage. rewrite Hb. discriminate. }
    rewrite (handleAssistantMessage_eq m ts b Hb). intros H. invert H.
    destruct (lastRoleIs Model ts && hasToolCalls m && negb b);
      [apply continues_pushToLast | apply continues_snoc].
  - intros H. invert H. unfold handleToolCall.
    destruct (lastMessage ts) as [t|]; [|apply continues_snoc].
    destruct (Role_eqb (role t) User && existsb isFunctionResponse (parts t));
      [apply continues_pushToLast | apply continues_snoc].
  - intros H. invert H. apply continues_refl.
Qed.

Lemma transcodeFrom_continues msgs : forall ts out,
  transcodeFrom ts msgs = Ok out -> continues ts out.
Proof.
  induction msgs as [|m r IH]; intros ts out; simpl.
  - intros H. invert H. apply continues_refl.
  - destruct (handleMessage ts m) as [ts'|] eqn:E; simpl; [|discriminate].
    intros H. apply (continues_trans ts ts' out).
    + exact (handleMessage_continues ts m ts' E).
    + exact (IH ts' out H).
Qed.

(** X9. Translating a longer conversation never rewrites what the
    shorter one gave: the turns before the last one stay as they are,
    the last turn keeps its role and its parts and may receive more
    parts, and more turns may follow. *)
Theorem earlier_turns_are_kept (pre post : list Message)
    (before : list Turn) :
  openaiMessageToAntigravity pre = Ok before ->
  accepted post = true ->
  exists after,
    openaiMessageToAntigravity (pre ++ post) = Ok after
    /\ continues before after.
Proof.
  unfold openaiMessageToAntigravity. intros Hpre Hpost.
  destruct (transcodeFrom_accepted post before Hpost) as [after E].
  exists after. rewrite transcodeFrom_app, Hpre. simpl.
  split; [exact E|]. exact (transcodeFrom_continues post before after E).
Qed.

Lemma earlier_turns_are_kept_witness :
  exists after,
    openaiMessageToAntigravity
      (orphanDialogue ++ [assistantMessage CNull
                            [toolCall "call_2" "get_time" "Oslo"];
                          toolMessage "call_1" (CStr "4C")]) = Ok after
    /\ continues
         [{| role := User; parts := [PText "Weather in Oslo?"] |};
          {| role := Model;
             parts := [PFunctionCall "call_1" "get_weather" "Oslo"] |}]
         after.
Proof.
  apply (earlier_turns_are_kept orphanDialogue); reflexivity.
Defined.

(* ================================================================== *)
(** ** The transcoder: nothing is lost, nothing is doubled            *)
(* ================================================================== *)

Lemma allParts_snoc ts x : allParts (ts ++ [x]) = allParts ts ++ parts x.
Proof.
  unfold allParts. rewrite flat_map_app. simpl. rewrite app_nil_r.
  reflexivity.
Qed.

Lemma allParts_pushToLast ps init t :
  allParts (pushToLast ps (init ++ [t])) = allParts (init ++ [t]) ++ ps.
Proof.
  rewrite pushToLast_snoc, !allParts_snoc. simpl. rewrite app_assoc.
  reflexivity.
Qed.

(** One message appends its contribution to the parts of the list. *)
Lemma handleMessage_allParts ts m ts' :
  handleMessage ts m = Ok ts' ->
  allParts ts' = allParts ts ++ snd (contribution ts m).
Proof.
  rewrite handleMessage_kind. unfold contribution.
  destruct (kindOf m) eqn:K; intros H.
  - invert H. rewrite allParts_snoc. reflexivity.
  - destruct (hasContent m) as [b|] eqn:Hb.
    2:{ unfold handleAssistantMessage in H. rewrite Hb in H. discriminate. }
    rewrite (handleAssistantMessage_eq m ts b Hb) in H. invert H.
    destruct (lastRoleIs Model ts && hasToolCalls m && negb b) eqn:M.
    + apply andb_prop in M. destruct M as [M Hnb].
      apply andb_prop in M. destruct M as [Hl _].
      apply negb_true_iff in Hnb. subst b.
      rewrite (hasContent_false_textParts m Hb). simpl.
      destruct (turns_snoc_cases ts) as [-> | (init & t & ->)];
        [discriminate|].
      apply allParts_pushToLast.
    + rewrite allParts_snoc. reflexivity.
  - invert H. unfold handleToolCall. fold (responsePart m ts). simpl.
    destruct (lastMessage ts) as [t|] eqn:L.
    + destruct (Role_eqb (role t) User
                && existsb isFunctionResponse (parts t)).
      * destruct (turns_snoc_cases ts) as [-> | (init & t0 & ->)];
          [discriminate|].
        apply allParts_pushToLast.
      * rewrite allParts_snoc. reflexivity.
    + rewrite allParts_snoc. reflexivity.
  - invert H. simpl. rewrite app_nil_r. reflexivity.
Qed.

Lemma filter_isFunctionCall_contribution ts m :
  filter isFunctionCall (snd (contribution ts m))
  = map toFunctionCall (callsOf m).
Proof.
  unfold contribution, callsOf. destruct (kindOf m); simpl.
  - unfold userParts. simpl.
    induction (ex_images (extractImagesFromContent (msg_content m)));
      [reflexivity | exact IHl].
  - rewrite filter_app.
    assert (Ht : filter isFunctionCall (textParts m) = []).
    { unfold textParts. destruct (msg_content m); try reflexivity.
      destruct (JsString.truthy s
                && negb (JsString.isEmpty (JsString.trim s)));
        reflexivity. }
    rewrite Ht. simpl. unfold callParts.
    induction (msg_tool_calls m) as [|c r IH]; [reflexivity|].
    simpl. rewrite IH. reflexivity.
  - reflexivity.
  - reflexivity.
Qed.

Lemma answersIn_app a b : answersIn (a ++ b) = answersIn a ++ answersIn b.
Proof. unfold answersIn. apply flat_map_app. Qed.

Lemma answersIn_contribution ts m :
  answersIn (snd (contribution ts m)) = toolAnswers [m].
Proof.
  unfold contribution, toolAnswers. simpl. destruct (kindOf m); simpl.
  - unfold userParts. simpl.
    induction (ex_images (extractImagesFromContent (msg_content m)));
      [reflexivity | exact IHl].
  - rewrite answersIn_app.
    assert (Ht : answersIn (textParts m) = []).
    { unfold textParts. destruct (msg_content m); try reflexivity.
      destruct (JsString.truthy s
                && negb (JsString.isEmpty (JsString.trim s)));
        reflexivity. }
    rewrite Ht. simpl. unfold callParts.
    induction (msg_tool_calls m) as [|c r IH]; [reflexivity | exact IH].
  - reflexivity.
  - reflexivity.
Qed.

Lemma transcodeFrom_functionCalls msgs : forall ts out,
  transcodeFrom ts msgs = Ok out ->
  filter isFunctionCall (allParts out)
  = filter isFunctionCall (allParts ts) ++ map toFunctionCall (allCalls msgs).
Proof.
  induction msgs as [|m r IH]; intros ts out; simpl.
  - intros H. invert H. rewrite app_nil_r. reflexivity.
  - destruct (handleMessage ts m) as [ts'|] eqn:E; simpl; [|discriminate].
    intros H. rewrite (IH ts' out H), (handleMessage_allParts ts m ts' E).
    rewrite filter_app, filter_isFunctionCall_contribution.
    unfold allCalls. simpl. rewrite map_app, app_assoc. reflexivity.
Qed.

Lemma transcodeFrom_answers msgs : forall ts out,
  transcodeFrom ts msgs = Ok out ->
  answersIn (allParts out) = answersIn (allParts ts) ++ toolAnswers msgs.
Proof.
  induction msgs as [|m r IH]; intros ts out; cbn [transcodeFrom].
  - intros H. invert H. unfold toolAnswers. simpl. rewrite app_nil_r.
    reflexivity.
  - destruct (handleMessage ts m) as [ts'|] eqn:E; cbn [bind];
      [|discriminate].
    intros H. rewrite (IH ts' out H), (handleMessage_allParts ts m ts' E).
    rewrite answersIn_app, answersIn_contribution.
    assert (Hc : toolAnswers (m :: r) = toolAnswers [m] ++ toolAnswers r).
    { unfold toolAnswers. simpl. rewrite app_nil_r. reflexivity. }
    rewrite Hc, app_assoc. reflexivity.
Qed.

(** X10. The functionCall parts of the result, read in order through
    the turns, are the tool calls of the assistant messages, in order:
    each call is there once, with its id, its name and its argument
    string. *)
Theorem functionCalls_are_the_tool_calls (msgs : list Message)
    (out : list Turn) :
  openaiMessageToAntigravity msgs = Ok out ->
  filter isFunctionCall (allParts out) = map toFunctionCall (allCalls msgs).
Proof.
  intros H. exact (transcodeFrom_functionCalls msgs [] out H).
Qed.

Lemma functionCalls_are_the_tool_calls_witness :
  exists out,
    openaiMessageToAntigravity weatherDialogue = Ok out
    /\ filter isFunctionCall (allParts out)
       = [PFunctionCall "call_1" "get_weather" "Oslo";
          PFunctionCall "call_2" "get_weather" "Rome"].
Proof.
  eexists. split; [reflexivity|].
  apply (functionCalls_are_the_tool_calls weatherDialogue). reflexivity.
Defined.

(** X11. The functionResponse parts of the result, read in order
    through the turns, answer the tool messages, in order: each tool
    message is there once, with its [tool_call_id] as id and its
    content as output. *)
Theorem functionResponses_are_the_tool_messages (msgs : list Message)
    (out : list Turn) :
  openaiMessageToAntigravity msgs = Ok out ->
  answersIn (allParts out) = toolAnswers msgs.
Proof.
  intros H. exact (transcodeFrom_answers msgs [] out H).
Qed.

Lemma functionResponses_are_the_tool_messages_witness :
  exists out,
    openaiMessageToAntigravity weatherDialogue = Ok out
    /\ answersIn (allParts out)
       = [("call_1", CStr "4C"); ("call_2", CStr "19C")].
Proof.
  eexists. split; [reflexivity|].
  apply (functionResponses_are_the_tool_messages weatherDialogue).
  reflexivity.
Defined.

(* ================================================================== *)
(** ** The transcoder: the shape and the number of the turns          *)
(* ================================================================== *)

Lemma Forall_snoc {A} (P : A -> Prop) l x :
  Forall P (l ++ [x]) <-> Forall P l /\ P x.
Proof.
  rewrite Forall_app. split; intros [H1 H2]; split; auto.
  inversion H2; assumption.
Qed.

Lemma Forall_pushToLast (P : Turn -> Prop) ps init t :
  Forall P (init ++ [t]) ->
  P {| role := role t; parts := parts t ++ ps |} ->
  Forall P (pushToLast ps (init ++ [t])).
Proof.
  intros H Ht. rewrite pushToLast_snoc. apply Forall_snoc.
  apply Forall_snoc in H. split; [apply H | exact Ht].
Qed.

Lemma userShape_userParts m : userShape (userParts m) = true.
Proof.
  unfold userParts. simpl.
  induction (ex_images (extractImagesFromContent (msg_content m)));
    [reflexivity | exact IHl].
Qed.

Lemma forallb_isFunctionCall_callParts m :
  forallb isFunctionCall (callParts m) = true.
Proof.
  unfold callParts. induction (msg_tool_calls m); [reflexivity | exact IHl].
Qed.

Lemma modelShape_contribution m : modelShape (textParts m ++ callParts m) = true.
Proof.
  pose proof (forallb_isFunctionCall_callParts m) as Hc.
  unfold textParts. destruct (msg_content m); try exact Hc.
  - destruct (JsString.truthy s && negb (JsString.isEmpty (JsString.trim s)));
      [exact Hc|].
    simpl. destruct (callParts m) as [|[] r]; try exact Hc; discriminate.
  - simpl. destruct (callParts m) as [|[] r]; try exact Hc; discriminate.
  - simpl. destruct (callParts m) as [|[] r]; try exact Hc; discriminate.
Qed.

Lemma modelShape_app ps m :
  modelShape ps = true -> modelShape (ps ++ callParts m) = true.
Proof.
  pose proof (forallb_isFunctionCall_callParts m) as Hc.
  destruct ps as [|p r]; simpl.
  - intros _. destruct (callParts m) as [|[] r]; try exact Hc; discriminate.
  - destruct p; simpl; intros H; try discriminate;
      rewrite forallb_app, H, Hc; reflexivity.
Qed.

Lemma userShape_response ps p :
  userShape ps = true -> existsb isFunctionResponse ps = true ->
  isFunctionResponse p = true ->
  userShape (ps ++ [p]) = true.
Proof.
  destruct ps as [|q r]; [discriminate|].
  destruct q; simpl; intros Hs He Hp; try discriminate.
  - exfalso. induction r as [|x r IH]; [discriminate|].
    simpl in *. apply andb_prop in Hs. destruct Hs as [Hx Hs].
    destruct x; try discriminate. simpl in He. exact (IH Hs He).
  - rewrite forallb_app. simpl. rewrite Hs, Hp. reflexivity.
Qed.

Lemma handleMessage_wellShaped ts m ts' :
  handleMessage ts m = Ok ts' ->
  Forall (fun t => wellShaped t = true) ts ->
  Forall (fun t => wellShaped t = true) ts'.
Proof.
  rewrite handleMessage_kind. destruct (kindOf m); intros H Hts.
  - invert H. apply Forall_snoc. split; [exact Hts|].
    apply userShape_userParts.
  - destruct (hasContent m) as [b|] eqn:Hb.
    2:{ unfold handleAssistantMessage in H. rewrite Hb in H. discriminate. }
    rewrite (handleAssistantMessage_eq m ts b Hb) in H. invert H.
    destruct (lastRoleIs Model ts && hasToolCalls m && negb b) eqn:M.
    + apply andb_prop in M. destruct M as [M _].
      apply andb_prop in M. destruct M as [Hl _].
      destruct (turns_snoc_cases ts) as [-> | (init & t & ->)];
        [discriminate|].
      rewrite lastRoleIs_snoc in Hl. apply Role_eqb_eq in Hl.
      apply Forall_pushToLast; [exact Hts|].
      apply Forall_snoc in Hts. destruct Hts as [_ Ht].
      unfold wellShaped in *. simpl. rewrite Hl in *.
      apply modelShape_app. exact Ht.
    + apply Forall_snoc. split; [exact Hts|].
      apply modelShape_contribution.
  - invert H. unfold handleToolCall.
    destruct (lastMessage ts) as [t|] eqn:L.
    + destruct (Role_eqb (role t) User
                && existsb isFunctionResponse (parts t)) eqn:M.
      * apply andb_prop in M. destruct M as [Hr He].
        apply Role_eqb_eq in Hr.
        destruct (turns_snoc_cases ts) as [-> | (init & t0 & ->)];
          [discriminate|].
        rewrite lastMessage_snoc in L. inversion L; subst t0.
        apply Forall_pushToLast; [exact Hts|].
        apply Forall_snoc in Hts. destruct Hts as [_ Ht].
        unfold wellShaped in *. simpl. rewrite Hr in *.
        apply userShape_response; [exact Ht | exact He | reflexivity].
      * apply Forall_snoc. split; [exact Hts | reflexivity].
    + apply Forall_snoc. split; [exact Hts | reflexivity].
  - invert H. exact Hts.
Qed.

Lemma transcodeFrom_wellShaped msgs : forall ts out,
  transcodeFrom ts msgs = Ok out ->
  Forall (fun t => wellShaped t = true) ts ->
  Forall (fun t => wellShaped t = true) out.
Proof.
  induction msgs as [|m r IH]; intros ts out; simpl.
  - intros H. invert H. auto.
  - destruct (handleMessage ts m) as [ts'|] eqn:E; simpl; [|discriminate].
    intros H Hts. apply (IH ts' out H).
    exact (handleMessage_wellShaped ts m ts' E Hts).
Qed.

(** X12. Every turn of the result has one of three shapes: a user turn
    is one text part followed by image parts only, or it is made of
    functionResponse parts only, at least one; a model turn is at
    most one text part, at its head, followed by functionCall parts
    only.  So no turn mixes text and functionResponse parts, and no
    functionCall part stands in a user turn. *)
Theorem turns_are_well_shaped (msgs : list Message) (out : list Turn) :
  openaiMessageToAntigravity msgs = Ok out ->
  forallb wellShaped out = true.
Proof.
  intros H. apply forallb_forall. apply Forall_forall.
  exact (transcodeFrom_wellShaped msgs [] out H (Forall_nil _)).
Qed.

Lemma turns_are_well_shaped_witness :
  exists out,
    openaiMessageToAntigravity weatherDialogue = Ok out
    /\ forallb wellShaped out = true.
Proof.
  eexists. split; [reflexivity|].
  apply (turns_are_well_shaped weatherDialogue). reflexivity.
Defined.

Lemma hasContent_true_textParts m :
  hasContent m = Ok true -> textParts m <> [].
Proof.
  unfold hasContent, textParts. destruct (msg_content m); try discriminate.
  intros H. inversion H as [H']. rewrite H'. discriminate.
Qed.

Lemma handleMessage_nonempty ts m ts' :
  handleMessage ts m = Ok ts' ->
  substantial m = true ->
  Forall (fun t => parts t <> []) ts ->
  Forall (fun t => parts t <> []) ts'.
Proof.
  rewrite handleMessage_kind. unfold substantial.
  destruct (kindOf m); intros H Hsub Hts.
  - invert H. apply Forall_snoc. split; [exact Hts|]. discriminate.
  - destruct (hasContent m) as [b|] eqn:Hb.
    2:{ unfold handleAssistantMessage in H. rewrite Hb in H. discriminate. }
    rewrite (handleAssistantMessage_eq m ts b Hb) in H. invert H.
    destruct (lastRoleIs Model ts && hasToolCalls m && negb b) eqn:M.
    + destruct (turns_snoc_cases ts) as [-> | (init & t & ->)];
        [discriminate|].
      apply Forall_pushToLast; [exact Hts|].
      apply Forall_snoc in Hts. destruct Hts as [_ Ht]. simpl.
      intros Hnil. apply app_eq_nil in Hnil. apply Ht. apply Hnil.
    + apply Forall_snoc. split; [exact Hts|]. simpl.
      intros Hnil. apply app_eq_nil in Hnil. destruct Hnil as [Ht Hc].
      apply orb_prop in Hsub. destruct Hsub as [Hcalls | Htext].
      * unfold hasToolCalls, callParts in *.
        destruct (msg_tool_calls m); discriminate.
      * subst b. exact (hasContent_true_textParts m Hb Ht).
  - invert H. unfold handleToolCall.
    destruct (lastMessage ts) as [t|] eqn:L.
    + destruct (Role_eqb (role t) User
                && existsb isFunctionResponse (parts t)).
      * destruct (turns_snoc_cases ts) as [-> | (init & t0 & ->)];
          [discriminate|].
        apply Forall_pushToLast; [exact Hts|]. simpl.
        intros Hnil. apply app_eq_nil in Hnil. destruct Hnil. discriminate.
      * apply Forall_snoc. split; [exact Hts | discriminate].
    + apply Forall_snoc. split; [exact Hts | discriminate].
  - invert H. exact Hts.
Qed.

Lemma transcodeFrom_nonempty msgs : forall ts out,
  transcodeFrom ts msgs = Ok out ->
  forallb substantial msgs = true ->
  Forall (fun t => parts t <> []) ts ->
  Forall (fun t => parts t <> []) out.
Proof.
  induction msgs as [|m r IH]; intros ts out; simpl.
  - intros H. invert H. auto.
  - destruct (handleMessage ts m) as [ts'|] eqn:E; simpl; [|discriminate].
    intros H Hsub Hts. apply andb_prop in Hsub. destruct Hsub as [Hm Hr].
    apply (IH ts' out H Hr).
    exact (handleMessage_nonempty ts m ts' E Hm Hts).
Qed.

(** X13. When every assistant message brings tool calls or a non-empty
    text, no turn of the result is empty: each has at least one part.
    (An assistant message with neither is the only source of a turn
    without parts.) *)
Theorem no_empty_turn (msgs : list Message) (out : list Turn) :
  forallb substantial msgs = true ->
  openaiMessageToAntigravity msgs = Ok out ->
  forall t, In t out -> parts t <> [].
Proof.
  intros Hsub H. apply Forall_forall.
  exact (transcodeFrom_nonempty msgs [] out H Hsub (Forall_nil _)).
Qed.

Lemma no_empty_turn_witness :
  exists out,
    openaiMessageToAntigravity weatherDialogue = Ok out
    /\ forall t, In t out -> parts t <> [].
Proof.
  eexists. split; [reflexivity|].
  apply (no_empty_turn weatherDialogue); reflexivity.
Defined.

Lemma length_pushToLast ps ts : List.length (pushToLast ps ts) = List.length ts.
Proof.
  destruct (turns_snoc_cases ts) as [-> | (init & t & ->)]; [reflexivity|].
  rewrite pushToLast_snoc, !length_app. reflexivity.
Qed.

Lemma length_snoc {A} (l : list A) x : List.length (l ++ [x]) = S (List.length l).
Proof. rewrite length_app. simpl. apply Nat.add_1_r. Qed.

Lemma handleMessage_length ts m ts' :
  handleMessage ts m = Ok ts' ->
  List.length ts'
  = ((if opens (lastTurnOf ts) m then 1 else 0) + List.length ts)%nat.
Proof.
  rewrite handleMessage_kind. unfold opens, handled, merges.
  destruct (kindOf m) eqn:K; intros H.
  - invert H. rewrite length_snoc.
    destruct (lastTurnOf ts); reflexivity.
  - destruct (hasContent m) as [b|] eqn:Hb.
    2:{ unfold handleAssistantMessage in H. rewrite Hb in H. discriminate. }
    rewrite (handleAssistantMessage_eq m ts b Hb) in H. invert H.
    destruct (turns_snoc_cases ts) as [-> | (init & t & ->)];
      [reflexivity|].
    rewrite lastRoleIs_snoc, lastTurnOf_snoc.
    destruct (role t); simpl.
    + rewrite length_snoc.
      destruct (existsb isFunctionResponse (parts t)); reflexivity.
    + destruct (hasToolCalls m && negb b); simpl;
        [apply length_pushToLast | apply length_snoc].
  - invert H. unfold handleToolCall.
    destruct (turns_snoc_cases ts) as [-> | (init & t & ->)];
      [reflexivity|].
    rewrite lastMessage_snoc, lastTurnOf_snoc.
    destruct (role t); simpl.
    + destruct (existsb isFunctionResponse (parts t)); simpl;
        [apply length_pushToLast | apply length_snoc].
    + apply length_snoc.
  - invert H. reflexivity.
Qed.

Lemma transcodeFrom_length msgs : forall ts out,
  transcodeFrom ts msgs = Ok out ->
  List.length out = (List.length ts + turnsOpened (lastTurnOf ts) msgs)%nat.
Proof.
  induction msgs as [|m r IH]; intros ts out; simpl.
  - intros H. invert H. rewrite Nat.add_0_r. reflexivity.
  - destruct (handleMessage ts m) as [ts'|] eqn:E; simpl; [|discriminate].
    intros H. rewrite (IH ts' out H), (handleMessage_length ts m ts' E).
    destruct (handleMessage_adjacent ts m ts' E) as [_ Hl]. rewrite Hl.
    rewrite Nat.add_assoc, (Nat.add_comm _ (List.length ts)). reflexivity.
Qed.

Lemma turnsOpened_le msgs : forall l,
  (turnsOpened l msgs <= List.length msgs)%nat.
Proof.
  induction msgs as [|m r IH]; intros l; simpl; [apply Nat.le_refl|].
  specialize (IH (lastTurnAfter l m)).
  destruct (opens l m); simpl.
  - apply le_n_S. exact IH.
  - apply Nat.le_trans with (List.length r); [exact IH | apply Nat.le_succ_diag_r].
Qed.

(** X14. The result has one turn for every handled message that is not
    merged into the turn before it, so it never has more turns than
    the list has messages. *)
Theorem one_turn_per_unmerged_message (msgs : list Message)
    (out : list Turn) :
  openaiMessageToAntigravity msgs = Ok out ->
  List.length out = turnsOpened NoTurn msgs
  /\ (List.length out <= List.length msgs)%nat.
Proof.
  intros H. pose proof (transcodeFrom_length msgs [] out H) as Hl.
  simpl in Hl. split; [exact Hl|]. rewrite Hl. apply turnsOpened_le.
Qed.

Lemma one_turn_per_unmerged_message_witness :
  exists out,
    openaiMessageToAntigravity weatherDialogue = Ok out
    /\ List.length out = 4%nat
    /\ (List.length out <= 6)%nat.
Proof.
  eexists. split; [reflexivity|].
  apply (one_turn_per_unmerged_message weatherDialogue). reflexivity.
Defined.

(* ================================================================== *)
(** ** The envelope: system messages, tools                           *)
(* ================================================================== *)

Lemma startIndex_lead lead rest :
  forallb isSystem lead = true -> noLeadingSystem rest = true ->
  skipn (startIndex (lead ++ rest)) (lead ++ rest) = rest.
Proof.
  intros Hl Hr. induction lead as [|m l IH]; simpl.
  - destruct rest as [|m r]; [reflexivity|]. simpl in *.
    apply negb_true_iff in Hr. rewrite Hr. reflexivity.
  - simpl in Hl. apply andb_prop in Hl. destruct Hl as [Hm Hl].
    unfold isSystem in Hm. rewrite Hm. simpl. exact (IH Hl).
Qed.

Lemma collectSystemTexts_lead lead rest :
  forallb isSystem lead = true -> noLeadingSystem rest = true ->
  collectSystemTexts (lead ++ rest)
  = trimmedTexts (map (fun m => systemText (msg_content m)) lead).
Proof.
  intros Hl Hr. unfold trimmedTexts. induction lead as [|m l IH]; simpl.
  - apply collectSystemTexts_noLeading. exact Hr.
  - simpl in Hl. apply andb_prop in Hl. destruct Hl as [Hm Hl].
    unfold isSystem in Hm. rewrite Hm, (IH Hl).
    destruct (JsString.truthy (JsString.trim (systemText (msg_content m))));
      reflexivity.
Qed.

Lemma join_merge sep (b : list string) (l : list string) :
  (List.length b <= 1)%nat ->
  JsString.join sep
    (b ++ (if (0 <? List.length l)%nat then [JsString.join sep l] else []))
  = JsString.join sep (b ++ l).
Proof.
  intros Hb. destruct l as [|x r]; [reflexivity|].
  destruct b as [|y [|z b]]; simpl in *.
  - reflexivity.
  - reflexivity.
  - exfalso. apply (Nat.nle_succ_0 _ (le_S_n _ _ Hb)).
Qed.

Lemma extractSystemInstruction_lead config lead rest :
  forallb isSystem lead = true -> noLeadingSystem rest = true ->
  extractSystemInstruction config (lead ++ rest)
  = JsString.join blankLine
      (trimmedTexts (cfg_systemInstruction config
                     :: map (fun m => systemText (msg_content m)) lead)).
Proof.
  intros Hl Hr. unfold extractSystemInstruction.
  rewrite (collectSystemTexts_lead lead rest Hl Hr).
  fold blankLine. unfold trimmedTexts at 3. simpl.
  fold (trimmedTexts (map (fun m => systemText (msg_content m)) lead)).
  rewrite join_merge.
  - destruct (JsString.truthy (JsString.trim (cfg_systemInstruction config)));
      reflexivity.
  - destruct (JsString.truthy (JsString.trim (cfg_systemInstruction config)));
      simpl; auto.
Qed.

(** X15. The system messages at the head of the list go to the system
    instruction and nowhere else, and nothing else goes there: the
    contents of the request are the translation of the messages after
    them, and the instruction is made of the configured base
    instruction and the texts of these system messages, each trimmed,
    those that are white space only left out, joined by blank lines;
    the property is missing when nothing is left. *)
Theorem leading_system_messages_make_the_instruction
    config rid (lead rest : list Message) modelName parameters openaiTools
    token (turns : list Turn) :
  forallb isSystem lead = true ->
  noLeadingSystem rest = true ->
  openaiMessageToAntigravity rest = Ok turns ->
  exists r,
    generateRequestBody config rid (lead ++ rest) modelName parameters
      openaiTools token = Ok r
    /\ contents (request r) = turns
    /\ systemInstruction (request r)
       = let merged :=
           JsString.join blankLine
             (trimmedTexts
                (cfg_systemInstruction config
                 :: map (fun m => systemText (msg_content m)) lead)) in
         if JsString.truthy merged
         then Some {| role := User; parts := [PText merged] |}
         else None.
Proof.
  intros Hl Hr Ht. unfold generateRequestBody.
  rewrite (startIndex_lead lead rest Hl Hr), Ht. simpl.
  eexists. split; [reflexivity|]. simpl. split; [reflexivity|].
  rewrite (extractSystemInstruction_lead config lead rest Hl Hr).
  reflexivity.
Qed.

Lemma leading_system_messages_make_the_instruction_witness :
  exists r,
    generateRequestBody paddedConfig "req-1"
      ([systemMessage " Answer in French. "; systemMessage "  "]
       ++ [userMessage "Hi"; systemMessage "Stay polite."])
      "gpt-4" budgetParameters None sampleToken = Ok r
    /\ contents (request r)
       = [{| role := User; parts := [PText "Hi"] |};
          {| role := User; parts := [PText "Stay polite."] |}]
    /\ systemInstruction (request r)
       = Some {| role := User;
                 parts := [PText ("Be brief." ++ blankLine
                                  ++ "Answer in French.")] |}.
Proof.
  apply (leading_system_messages_make_the_instruction paddedConfig "req-1"
           [systemMessage " Answer in French. "; systemMessage "  "]
           [userMessage "Hi"; systemMessage "Stay polite."]);
    reflexivity.
Defined.

Lemma convertOpenAIToolsToAntigravity_map openaiTools :
  convertOpenAIToolsToAntigravity openaiTools
  = map (fun tool => {| functionDeclarations := [declarationOf tool] |})
        (toolsOf openaiTools).
Proof. destruct openaiTools as [[|t l]|]; reflexivity. Qed.

(** X16. The request declares the client's tools one by one, in
    order: one entry per tool, holding one function declaration with
    the name and the description of the tool; and no parameter schema
    of the request holds an excluded key, at any depth. *)
Theorem request_declares_cleaned_tools
    config rid msgs modelName parameters openaiTools token r :
  generateRequestBody config rid msgs modelName parameters openaiTools token
  = Ok r ->
  exists declared,
    tools (request r) = Some declared
    /\ map functionDeclarations declared
       = map (fun tool => [declarationOf tool]) (toolsOf openaiTools)
    /\ forall entry declaration,
         In entry declared ->
         In declaration (functionDeclarations entry) ->
         mentionsExcluded (fd_parameters declaration) = false.
Proof.
  intros E. apply generateRequestBody_Ok in E.
  destruct E as (_ & _ & _ & Ht & _).
  exists (convertOpenAIToolsToAntigravity openaiTools).
  split; [exact Ht|]. rewrite convertOpenAIToolsToAntigravity_map. split.
  - rewrite map_map. reflexivity.
  - intros entry declaration Hin Hd. apply in_map_iff in Hin.
    destruct Hin as (tool & <- & _). simpl in Hd.
    destruct Hd as [<- | []]. apply cleanParameters_stripped.
Qed.

Lemma request_declares_cleaned_tools_witness :
  exists r declared,
    generateRequestBody sampleConfig "req-1" [userMessage "Hi"] "gpt-4"
      budgetParameters (Some [weatherTool]) sampleToken = Ok r
    /\ tools (request r) = Some declared
    /\ map functionDeclarations declared = [[declarationOf weatherTool]].
Proof.
  eexists.
  destruct (request_declares_cleaned_tools sampleConfig "req-1"
              [userMessage "Hi"] "gpt-4" budgetParameters (Some [weatherTool])
              sampleToken _ eq_refl) as (declared & Ht & Hm & _).
  exists declared. split; [reflexivity|]. split; [exact Ht | exact Hm].
Defined.

(* ================================================================== *)
(** ** Model policy and generation config, continued                  *)
(* ================================================================== *)





(** X18. The alias table never chains: the upstream id of an upstream
    id is that id itself. *)
Theorem modelMapping_idempotent (modelName : string) :
  modelMapping (modelMapping modelName) = modelMapping modelName.
Proof.
  unfold modelMapping.
  destruct (String.eqb modelName "claude-sonnet-4-5-thinking") eqn:E1;
    [reflexivity|].
  destruct (String.eqb modelName "claude-opus-4-5") eqn:E2; [reflexivity|].
  destruct (String.eqb modelName "gemini-2.5-flash-thinking") eqn:E3;
    [reflexivity|].
  rewrite E1, E2, E3. reflexivity.
Qed.

(* ================================================================== *)
(** ** DNS resolution                                                 *)
(* ================================================================== *)

Section DnsProperties.

Variable Options : Type.
Variable dnsLookup : string -> Options -> nat -> LookupResult.

Lemma resolved_address r :
  resolved r = true ->
  lk_err r = None /\ exists a, lk_address r = Some a /\ a <> "".
Proof.
  unfold resolved. destruct (lk_err r); [discriminate|].
  destruct (lk_address r) as [a|]; [|discriminate].
  intros H. apply truthy_nonempty in H. eauto.
Qed.

Lemma customLookup_cases hostname options :
  let r4 := dnsLookup hostname options 4%nat in
  let r6 := dnsLookup hostname options 6%nat in
  let answer := customLookup Options dnsLookup hostname options in
  (resolved r4 = true
   /\ answer = ([4%nat], {| lk_err := None; lk_address := lk_address r4;
                            lk_family := lk_family r4 |}))
  \/ (resolved r4 = false /\ resolved r6 = true
      /\ answer = ([4%nat; 6%nat],
                   {| lk_err := None; lk_address := lk_address r6;
                      lk_family := lk_family r6 |}))
  \/ (resolved r4 = false /\ resolved r6 = false
      /\ answer = ([4%nat; 6%nat],
                   {| lk_err := firstError (lk_err r4) (lk_err r6);
                      lk_address := None; lk_family := None |})).
Proof.
  cbv zeta. unfold customLookup.
  destruct (resolved (dnsLookup hostname options 4%nat)); [left; auto|].
  destruct (resolved (dnsLookup hostname options 6%nat)); right; [left | right];
    auto.
Qed.

End DnsProperties.

(** X19. What [customLookup] hands to its callback is an address or a
    failure, never both: an address comes without error, is not empty,
    and is the IPv4 address when the IPv4 lookup resolved (the IPv6
    lookup is then not made) and the IPv6 address otherwise; an error
    comes without address, and is the error of the IPv4 lookup when
    there is one. *)
Theorem customLookup_prefers_IPv4
    (Options : Type) (dnsLookup : string -> Options -> nat -> LookupResult)
    (hostname : string) (options : Options) :
  let r4 := dnsLookup hostname options 4%nat in
  let r6 := dnsLookup hostname options 6%nat in
  let looked := fst (customLookup Options dnsLookup hostname options) in
  let answer := snd (customLookup Options dnsLookup hostname options) in
  (forall a, lk_address answer = Some a ->
             a <> "" /\ lk_err answer = None
             /\ (if resolved r4
                 then lk_address r4 = Some a /\ looked = [4%nat]
                 else lk_address r6 = Some a /\ looked = [4%nat; 6%nat]))
  /\ (forall e, lk_err answer = Some e ->
                lk_address answer = None
                /\ resolved r4 = false /\ resolved r6 = false
                /\ (lk_err r4 = Some e
                    \/ (lk_err r4 = None /\ lk_err r6 = Some e))).
Proof.
  cbv zeta.
  destruct (customLookup_cases Options dnsLookup hostname options)
    as [[H4 E] | [(H4 & H6 & E) | (H4 & H6 & E)]];
    cbv zeta in E; rewrite E, H4; simpl.
  - destruct (resolved_address _ H4) as (_ & a4 & Ha & Hne). split.
    + intros a Hsome. rewrite Ha in Hsome. inversion Hsome; subst. auto.
    + intros e He. discriminate.
  - destruct (resolved_address _ H6) as (_ & a6 & Ha & Hne). split.
    + intros a Hsome. rewrite Ha in Hsome. inversion Hsome; subst. auto.
    + intros e He. discriminate.
  - split.
    + intros a Hsome. discriminate.
    + intros e He. repeat split; auto.
      unfold firstError in He.
      destruct (lk_err (dnsLookup hostname options 4%nat)); [left | right]; auto.
Qed.

(** X20. [customLookup] can end without error and without address:
    this happens exactly when no lookup resolved and no lookup
    reported an error. *)
Theorem customLookup_silent_failure
    (Options : Type) (dnsLookup : string -> Options -> nat -> LookupResult)
    (hostname : string) (options : Options) :
  let r4 := dnsLookup hostname options 4%nat in
  let r6 := dnsLookup hostname options 6%nat in
  let answer := snd (customLookup Options dnsLookup hostname options) in
  (lk_err answer = None /\ lk_address answer = None)
  <-> (resolved r4 = false /\ resolved r6 = false
       /\ lk_err r4 = None /\ lk_err r6 = None).
Proof.
  cbv zeta.
  destruct (customLookup_cases Options dnsLookup hostname options)
    as [[H4 E] | [(H4 & H6 & E) | (H4 & H6 & E)]];
    cbv zeta in E; rewrite E; simpl.
  - destruct (resolved_address _ H4) as (_ & a4 & Ha & _). rewrite Ha, H4.
    split; [intros [_ H]; discriminate | intros [H _]; discriminate].
  - destruct (resolved_address _ H6) as (_ & a6 & Ha & _). rewrite Ha, H6.
    split; [intros [_ H]; discriminate | intros (_ & H & _); discriminate].
  - rewrite H4, H6. unfold firstError.
    destruct (lk_err (dnsLookup hostname options 4%nat)).
    + split; [intros [H _]; discriminate | intros (_ & _ & H & _); discriminate].
    + split; [intros [H _]; auto | intros (_ & _ & _ & H); auto].
Qed.

(* ================================================================== *)
(** ** The default address                                            *)
(* ================================================================== *)

Lemma firstExternalIPv4_sound l address :
  firstExternalIPv4 l = Some address -> externalIPv4Of l address.
Proof.
  induction l as [|inter r IH]; simpl; [discriminate|].
  destruct (String.eqb (if_family inter) "IPv4" && negb (if_internal inter))
    eqn:E.
  - intros H. inversion H; subst. apply andb_prop in E. destruct E as [Ef Ei].
    apply String.eqb_eq in Ef. apply negb_true_iff in Ei.
    exists inter. simpl. auto.
  - intros H. destruct (IH H) as (i & Hin & Hi). exists i. simpl. auto.
Qed.

Lemma firstExternalIPv4_None l :
  firstExternalIPv4 l = None -> forall address, ~ externalIPv4Of l address.
Proof.
  induction l as [|inter r IH]; simpl.
  - intros _ address (i & [] & _).
  - destruct (String.eqb (if_family inter) "IPv4" && negb (if_internal inter))
      eqn:E; [discriminate|].
    intros H address (i & [<- | Hin] & Hf & Hi & Ha).
    + rewrite Hf, Hi in E. discriminate.
    + apply (IH H address). exists i. auto.
Qed.

(** X21. [getDefaultIp] answers with an external IPv4 address of the
    interface [WLAN] when there is such an interface, else of the
    interface [wlan2]; it answers ["127.0.0.1"] when the interface it
    looks at has no such address or when there is neither interface.
    An interface [WLAN] without external IPv4 address hides [wlan2]. *)
Theorem getDefaultIp_looks_at_one_interface (interfaces : Interfaces) :
  match interfaceNamed "WLAN" interfaces,
        interfaceNamed "wlan2" interfaces with
  | Some l, _ | None, Some l =>
      externalIPv4Of l (getDefaultIp interfaces)
      \/ (getDefaultIp interfaces = "127.0.0.1"
          /\ forall address, ~ externalIPv4Of l address)
  | None, None => getDefaultIp interfaces = "127.0.0.1"
  end.
Proof.
  unfold getDefaultIp.
  destruct (interfaceNamed "WLAN" interfaces) as [l|].
  - destruct (firstExternalIPv4 l) as [a|] eqn:E.
    + left. exact (firstExternalIPv4_sound l a E).
    + right. split; [reflexivity | exact (firstExternalIPv4_None l E)].
  - destruct (interfaceNamed "wlan2" interfaces) as [l|]; [|reflexivity].
    destruct (firstExternalIPv4 l) as [a|] eqn:E.
    + left. exact (firstExternalIPv4_sound l a E).
    + right. split; [reflexivity | exact (firstExternalIPv4_None l E)].
Qed.

Lemma customLookup_prefers_IPv4_witness :
  lk_address (snd (customLookup unit ipv6OnlyResolver "example.org" tt))
  = Some "2001:db8::1"
  /\ lk_err (snd (customLookup unit ipv6OnlyResolver "example.org" tt)) = None
  /\ fst (customLookup unit ipv6OnlyResolver "example.org" tt)
     = [4%nat; 6%nat].
Proof.
  destruct (customLookup_prefers_IPv4 unit ipv6OnlyResolver "example.org" tt)
    as [Ha _].
  destruct (Ha "2001:db8::1" eq_refl) as (_ & He & _ & Hl).
  split; [reflexivity|]. split; [exact He | exact Hl].
Defined.

(* ================================================================== *)
(** ** Escapes in the system instruction ([processEscapeChars])       *)
(* ================================================================== *)

Lemma string_length_ind (P : string -> Prop) :
  (forall s, (forall t, (String.length t < String.length s)%nat -> P t) -> P s) ->
  forall s, P s.
Proof.
  intros H s.
  assert (Hn : forall n t, (String.length t < n)%nat -> P t).
  { induction n as [|n IH]; intros t Ht.
    - exfalso. exact (Nat.nlt_0_r _ Ht).
    - apply H. intros u Hu. apply IH.
      apply Nat.lt_le_trans with (String.length t); [exact Hu|].
      apply Nat.lt_succ_r. exact Ht. }
  apply (Hn (S (String.length s))). apply Nat.lt_succ_diag_r.
Qed.

Lemma prefix_cons a p b s :
  String.prefix (String a p) (String b s)
  = Ascii.eqb a b && String.prefix p s.
Proof.
  cbn [String.prefix]. destruct (ascii_dec a b) as [-> | H].
  - rewrite Ascii.eqb_refl. reflexivity.
  - apply Ascii.eqb_neq in H. rewrite H. reflexivity.
Qed.

Lemma prefix_escapedNewline s :
  String.prefix escapedNewline s
  = match s with
    | String a (String b _) => isBackslash a && isLetterN b
    | _ => false
    end.
Proof.
  unfold escapedNewline, isBackslash, isLetterN.
  destruct s as [|a [|b r]].
  - reflexivity.
  - rewrite prefix_cons. cbn [String.prefix]. apply andb_false_r.
  - rewrite !prefix_cons.
    assert (Hr : String.prefix "" r = true) by (destruct r; reflexivity).
    rewrite Hr, andb_true_r.
    rewrite (Ascii.eqb_sym backslash a), (Ascii.eqb_sym "n" b). reflexivity.
Qed.

Lemma hasEscapedNewline_cons a t :
  hasEscapedNewline (String a t)
  = (isBackslash a && startsWithN t) || hasEscapedNewline t.
Proof.
  unfold hasEscapedNewline.
  change (JsString.includes (String a t) escapedNewline)
    with (String.prefix escapedNewline (String a t)
          || JsString.includes t escapedNewline).
  rewrite prefix_escapedNewline. destruct t as [|b r]; [|reflexivity].
  simpl. rewrite andb_false_r. reflexivity.
Qed.

Lemma hasEscapedNewline_nil : hasEscapedNewline "" = false.
Proof. reflexivity. Qed.

Lemma newline_not_n : isLetterN newline = false.
Proof. reflexivity. Qed.

Lemma newline_not_backslash : isBackslash newline = false.
Proof. reflexivity. Qed.

Lemma unescapeSingle_cons2 a b r :
  unescapeSingle (String a (String b r))
  = if isBackslash a && isLetterN b
    then String newline (unescapeSingle r)
    else String a (unescapeSingle (String b r)).
Proof. reflexivity. Qed.

Lemma unescapeDouble_cons3 a b c r :
  unescapeDouble (String a (String b (String c r)))
  = if isBackslash a && isBackslash b && isLetterN c
    then String newline (unescapeDouble r)
    else String a (unescapeDouble (String b (String c r))).
Proof. reflexivity. Qed.

(** The single pass leaves no escape, and does not bring a letter [n]
    to the head of the string. *)
Lemma unescapeSingle_clean s :
  hasEscapedNewline (unescapeSingle s) = false
  /\ (startsWithN (unescapeSingle s) = true -> startsWithN s = true).
Proof.
  induction s as [s IH] using string_length_ind.
  destruct s as [|a [|b r]].
  - split; [reflexivity | auto].
  - split; [|auto]. simpl. rewrite hasEscapedNewline_cons. simpl.
    rewrite andb_false_r. reflexivity.
  - rewrite unescapeSingle_cons2.
    destruct (isBackslash a && isLetterN b) eqn:E.
    + destruct (IH r) as [Hr _]; [simpl; auto|].
      split.
      * rewrite hasEscapedNewline_cons, newline_not_backslash, Hr. reflexivity.
      * cbn [startsWithN]. rewrite newline_not_n. discriminate.
    + destruct (IH (String b r)) as [Ht Hn]; [simpl; auto|].
      split; [|intros H; exact H].
      rewrite hasEscapedNewline_cons, Ht, orb_false_r.
      destruct (isBackslash a) eqn:Ea; [|reflexivity]. cbn [andb] in *.
      destruct (startsWithN (unescapeSingle (String b r))) eqn:S;
        [|reflexivity].
      specialize (Hn eq_refl). cbn [startsWithN] in Hn. congruence.
Qed.

(** Without escape in the string, the passes change nothing. *)
Lemma unescape_fixed s :
  hasEscapedNewline s = false ->
  unescapeSingle s = s /\ unescapeDouble s = s.
Proof.
  induction s as [s IH] using string_length_ind.
  destruct s as [|a [|b r]]; intros H.
  - split; reflexivity.
  - split; reflexivity.
  - rewrite hasEscapedNewline_cons in H. apply orb_false_elim in H.
    destruct H as [Hab Ht]. simpl in Hab.
    destruct (IH (String b r)) as [Hs Hd]; [simpl; auto | exact Ht|].
    split.
    + rewrite unescapeSingle_cons2, Hab, Hs. reflexivity.
    + destruct r as [|c r'].
      * reflexivity.
      * rewrite unescapeDouble_cons3.
        assert (Hbc : isBackslash b && isLetterN c = false).
        { rewrite hasEscapedNewline_cons in Ht. apply orb_false_elim in Ht.
          apply Ht. }
        destruct (isBackslash a && isBackslash b && isLetterN c) eqn:E.
        -- apply andb_prop in E. destruct E as [E Ec].
           apply andb_prop in E. destruct E as [_ Eb].
           rewrite Eb, Ec in Hbc. discriminate.
        -- rewrite Hd. reflexivity.
Qed.

Lemma processEscapeChars_clean s :
  hasEscapedNewline (processEscapeChars s) = false.
Proof.
  unfold processEscapeChars. destruct (JsString.isEmpty s) eqn:E.
  - apply isEmpty_true in E. subst. reflexivity.
  - apply unescapeSingle_clean.
Qed.

Lemma processEscapeChars_fixed s :
  hasEscapedNewline s = false -> processEscapeChars s = s.
Proof.
  intros H. unfold processEscapeChars.
  destruct (JsString.isEmpty s); [reflexivity|].
  destruct (unescape_fixed s H) as [Hs Hd]. rewrite Hd, Hs. reflexivity.
Qed.

(** X22. After [processEscapeChars] no escape is left: nowhere in the
    result does a backslash stand before a letter [n]. *)
Theorem processEscapeChars_leaves_no_escape (value : string) :
  hasEscapedNewline (processEscapeChars value) = false.
Proof. exact (processEscapeChars_clean value). Qed.

(** X23. [processEscapeChars] returns a text without escape as it is;
    so processing a text twice gives what processing it once gives. *)
Theorem processEscapeChars_idempotent (value : string) :
  (hasEscapedNewline value = false -> processEscapeChars value = value)
  /\ processEscapeChars (processEscapeChars value) = processEscapeChars value.
Proof.
  split; [apply processEscapeChars_fixed|].
  apply processEscapeChars_fixed. apply processEscapeChars_clean.
Qed.

Lemma processEscapeChars_idempotent_witness :
  processEscapeChars ("Be brief." ++ String newline "Be kind.")
  = ("Be brief." ++ String newline "Be kind.")%string.
Proof.
  apply (proj1 (processEscapeChars_idempotent
                  ("Be brief." ++ String newline "Be kind."))).
  reflexivity.
Defined.

(* ================================================================== *)
(** ** The proxy ([getProxyConfig])                                   *)
(* ================================================================== *)

Lemma orEnv_None a : orEnv a None = if truthyEnv a then a else None.
Proof. destruct a as [s|]; simpl; [destruct (JsString.truthy s)|]; reflexivity. Qed.

Lemma firstSet_cons env name rest :
  firstSet env (name :: rest)
  = if truthyEnv (env name) then env name else firstSet env rest.
Proof.
  simpl. destruct (env name) as [s|]; simpl;
    [destruct (JsString.truthy s)|]; reflexivity.
Qed.

Lemma orEnv_truthy a b :
  orEnv a b = if truthyEnv a then a else b.
Proof. destruct a as [s|]; simpl; [destruct (JsString.truthy s)|]; reflexivity. Qed.

Lemma firstSet_nonempty env names : firstSet env names <> Some "".
Proof.
  induction names as [|name rest IH]; [discriminate|].
  rewrite firstSet_cons. destruct (truthyEnv (env name)) eqn:T; [|exact IH].
  intros H. rewrite H in T. discriminate.
Qed.

(** X24. [getProxyConfig] gives the first value that is set and not
    empty among [PROXY], [HTTPS_PROXY], [https_proxy], [HTTP_PROXY],
    [http_proxy], [ALL_PROXY], [all_proxy], in this order, and [null]
    when there is none: its answer is never the empty string. *)
Theorem getProxyConfig_first_set (env : Env) :
  getProxyConfig env = firstSet env proxyVariables
  /\ getProxyConfig env <> Some "".
Proof.
  assert (E : getProxyConfig env = firstSet env proxyVariables).
  { unfold getProxyConfig, proxyVariables.
    rewrite !firstSet_cons, orEnv_None, !orEnv_truthy. simpl firstSet.
    destruct (truthyEnv (env "PROXY")); [reflexivity|].
    destruct (truthyEnv (env "HTTPS_PROXY")) eqn:E1; [rewrite E1; reflexivity|].
    destruct (truthyEnv (env "https_proxy")) eqn:E2; [rewrite E2; reflexivity|].
    destruct (truthyEnv (env "HTTP_PROXY")) eqn:E3; [rewrite E3; reflexivity|].
    destruct (truthyEnv (env "http_proxy")) eqn:E4; [rewrite E4; reflexivity|].
    destruct (truthyEnv (env "ALL_PROXY")) eqn:E5; [rewrite E5; reflexivity|].
    destruct (truthyEnv (env "all_proxy")) eqn:E6; reflexivity. }
  split; [exact E|]. rewrite E. apply firstSet_nonempty.
Qed.

Lemma getProxyConfig_first_set_witness :
  getProxyConfig corporateEnv = Some "http://10.0.0.1:3128".
Proof.
  rewrite (proj1 (getProxyConfig_first_set corporateEnv)). reflexivity.
Defined.

(* ================================================================== *)
(** ** The [.env] parser: strings                                     *)
(* ================================================================== *)

Lemma isEmpty_app a b :
  JsString.isEmpty (a ++ b) = JsString.isEmpty a && JsString.isEmpty b.
Proof. destruct a; reflexivity. Qed.

Lemma headIs_app f a b :
  headIs f (a ++ b) = if JsString.isEmpty a then headIs f b else headIs f a.
Proof. destruct a; reflexivity. Qed.

Lemma lastIs_cons f c r :
  lastIs f (String c r) = if JsString.isEmpty r then f c else lastIs f r.
Proof. destruct r; reflexivity. Qed.

Lemma lastIs_app f a b :
  lastIs f (a ++ b) = if JsString.isEmpty b then lastIs f a else lastIs f b.
Proof.
  induction a as [|c a IH].
  - simpl. destruct b; reflexivity.
  - change (String c a ++ b)%string with (String c (a ++ b)).
    rewrite !lastIs_cons, isEmpty_app, IH.
    destruct (JsString.isEmpty b); [|rewrite andb_false_r; reflexivity].
    rewrite andb_true_r. reflexivity.
Qed.

Lemma trimStart_head s :
  headIs JsString.isWhiteSpace s = false -> JsString.trimStart s = s.
Proof. destruct s as [|c r]; simpl; [reflexivity|]. intros ->. reflexivity. Qed.

Lemma trimEnd_last s :
  lastIs JsString.isWhiteSpace s = false -> JsString.trimEnd s = s.
Proof.
  induction s as [|c r IH]; [reflexivity|].
  rewrite lastIs_cons. cbn [JsString.trimEnd].
  destruct r as [|d r'].
  - simpl. intros ->. reflexivity.
  - cbn [JsString.isEmpty]. intros H. rewrite (IH H).
    cbn [JsString.isEmpty]. rewrite andb_false_r. reflexivity.
Qed.

Lemma tight_ends s :
  tight s = true ->
  headIs JsString.isWhiteSpace s = false
  /\ lastIs JsString.isWhiteSpace s = false.
Proof.
  unfold tight. intros H. apply andb_prop in H. destruct H as [H1 H2].
  apply negb_true_iff in H1. apply negb_true_iff in H2. auto.
Qed.

Lemma trim_tight s : tight s = true -> JsString.trim s = s.
Proof.
  intros H. destruct (tight_ends s H) as [Hh Hl]. unfold JsString.trim.
  rewrite (trimStart_head s Hh). apply trimEnd_last. exact Hl.
Qed.

Lemma prefix_nil s : String.prefix "" s = true.
Proof. destruct s; reflexivity. Qed.

Lemma startsWith_char s q :
  JsString.startsWith s (String q "") = headIs (Ascii.eqb q) s.
Proof.
  unfold JsString.startsWith. destruct s as [|c r]; [reflexivity|].
  rewrite prefix_cons, prefix_nil. apply andb_true_r.
Qed.

Lemma eqb_char c q : String.eqb (String c "") (String q "") = Ascii.eqb q c.
Proof.
  simpl. rewrite (Ascii.eqb_sym c q). destruct (Ascii.eqb q c); reflexivity.
Qed.

Lemma endsWith_char s q :
  JsString.endsWith s (String q "") = lastIs (Ascii.eqb q) s.
Proof.
  unfold JsString.endsWith. induction s as [|c r IH]; [reflexivity|].
  rewrite lastIs_cons. destruct r as [|d r'].
  - cbn [String.length Nat.leb Nat.sub String.substring andb
           JsString.isEmpty]. apply eqb_char.
  - cbn [JsString.isEmpty]. rewrite <- IH.
    cbn [String.length Nat.leb Nat.sub String.substring andb].
    rewrite Nat.sub_0_r. reflexivity.
Qed.

Lemma dropLast_snoc s c : dropLast (s ++ String c "") = s.
Proof.
  induction s as [|a s IH]; [reflexivity|].
  change (String a s ++ String c "")%string with (String a (s ++ String c "")).
  cbn [dropLast]. destruct (s ++ String c "")%string eqn:E.
  - destruct s; discriminate.
  - rewrite IH. reflexivity.
Qed.

Lemma cutAtEquals_app k v :
  anyChar (Ascii.eqb "=") k = false ->
  cutAtEquals (k ++ String "=" v) = Some (k, v).
Proof.
  induction k as [|c k IH].
  - intros _. cbn [append cutAtEquals]. rewrite Ascii.eqb_refl. reflexivity.
  - cbn [append cutAtEquals anyChar].
    intros H. apply orb_false_elim in H. destruct H as [Hc Hk].
    rewrite (Ascii.eqb_sym c "="), Hc, (IH Hk). reflexivity.
Qed.

Lemma oneLine_cons c s :
  oneLine (String c s) = negb (Ascii.eqb newline c) && oneLine s.
Proof. unfold oneLine. cbn [anyChar]. apply negb_orb. Qed.

Lemma splitLines_oneLine s : oneLine s = true -> splitLines s = [s].
Proof.
  induction s as [|c s IH]; [reflexivity|].
  rewrite oneLine_cons. intros H. apply andb_prop in H. destruct H as [Hc Hs].
  apply negb_true_iff in Hc. cbn [splitLines].
  rewrite (Ascii.eqb_sym c newline), Hc, (IH Hs). reflexivity.
Qed.

Lemma splitLines_app s t :
  oneLine s = true ->
  splitLines (s ++ String newline t) = s :: splitLines t.
Proof.
  induction s as [|c s IH].
  - intros _. cbn [append splitLines]. rewrite Ascii.eqb_refl. reflexivity.
  - rewrite oneLine_cons. intros H. apply andb_prop in H.
    destruct H as [Hc Hs]. apply negb_true_iff in Hc.
    cbn [append splitLines].
    rewrite (Ascii.eqb_sym c newline), Hc, (IH Hs). reflexivity.
Qed.

Lemma join_cons2 sep a b r :
  JsString.join sep (a :: b :: r)
  = (a ++ sep ++ JsString.join sep (b :: r))%string.
Proof. reflexivity. Qed.

Lemma splitLines_join lines :
  forallb oneLine lines = true -> lines <> [] ->
  splitLines (JsString.join lineFeed lines) = lines.
Proof.
  induction lines as [|a r IH]; [congruence|].
  intros H _. simpl in H. apply andb_prop in H. destruct H as [Ha Hr].
  destruct r as [|b r'].
  - simpl. apply splitLines_oneLine. exact Ha.
  - rewrite join_cons2. unfold lineFeed at 1.
    change (a ++ String newline "" ++ JsString.join lineFeed (b :: r'))%string
      with (a ++ String newline (JsString.join lineFeed (b :: r')))%string.
    rewrite (splitLines_app a _ Ha), IH; [reflexivity | exact Hr | discriminate].
Qed.

Lemma join_snoc sep l x :
  l <> [] ->
  JsString.join sep (l ++ [x])
  = (JsString.join sep l ++ sep ++ x)%string.
Proof.
  induction l as [|a r IH]; [congruence|]. intros _.
  destruct r as [|b r'].
  - reflexivity.
  - change ((a :: b :: r') ++ [x]) with (a :: b :: (r' ++ [x])).
    rewrite !join_cons2.
    change (b :: r' ++ [x]) with ((b :: r') ++ [x]).
    rewrite IH by discriminate. rewrite !append_assoc. reflexivity.
Qed.

(* ================================================================== *)
(** ** The [.env] parser: one line                                    *)
(* ================================================================== *)

Lemma parseEnvLine_skips st line :
  inMultiline st = false -> skips line = true -> parseEnvLine st line = st.
Proof.
  unfold parseEnvLine, skips. intros -> H.
  destruct (JsString.isEmpty (JsString.trim line)
            || JsString.startsWith (JsString.trim line) "#");
    [reflexivity|].
  destruct (cutAtEquals (JsString.trim line)); [discriminate | reflexivity].
Qed.

Lemma plainKey_facts k :
  plainKey k = true ->
  oneLine k = true /\ tight k = true
  /\ anyChar (Ascii.eqb "=") k = false
  /\ headIs (Ascii.eqb "#") k = false.
Proof.
  unfold plainKey. intros H.
  apply andb_prop in H. destruct H as [H H4].
  apply andb_prop in H. destruct H as [H H3].
  apply andb_prop in H. destruct H as [H1 H2].
  apply negb_true_iff in H3. apply negb_true_iff in H4. auto.
Qed.

(** A line [key=rest] whose key is plain and which does not end with
    white space is read as the key and the rest. *)
Lemma parseEnvLine_entry st k w :
  inMultiline st = false ->
  plainKey k = true ->
  lastIs JsString.isWhiteSpace (String "=" w) = false ->
  parseEnvLine st (k ++ String "=" w) = parseEnvValue st k w.
Proof.
  intros Hst Hk Hw.
  destruct (plainKey_facts k Hk) as (_ & Ht & He & Hh).
  destruct (tight_ends k Ht) as [Hkh Hkl].
  assert (Htrim : JsString.trim (k ++ String "=" w) = (k ++ String "=" w)%string).
  { apply trim_tight. unfold tight.
    rewrite headIs_app, lastIs_app. cbn [JsString.isEmpty].
    rewrite Hw. destruct (JsString.isEmpty k); [reflexivity|].
    rewrite Hkh. reflexivity. }
  unfold parseEnvLine. rewrite Hst, Htrim.
  rewrite isEmpty_app. cbn [JsString.isEmpty]. rewrite andb_false_r.
  rewrite (startsWith_char _ "#"), headIs_app.
  assert (Hhash : (if JsString.isEmpty k
                   then headIs (Ascii.eqb "#") (String "=" w)
                   else headIs (Ascii.eqb "#") k) = false).
  { destruct (JsString.isEmpty k); [reflexivity | exact Hh]. }
  rewrite Hhash. cbn [orb].
  rewrite (cutAtEquals_app k w He), (trim_tight k Ht). reflexivity.
Qed.

Lemma isQuote_not_space q :
  isQuote q = true -> JsString.isWhiteSpace q = false.
Proof.
  unfold isQuote. intros H. apply orb_prop in H.
  destruct H as [H | H]; apply Ascii.eqb_eq in H; subst; reflexivity.
Qed.

Lemma isQuote_starts q :
  isQuote q = true ->
  Ascii.eqb doubleQuote q || Ascii.eqb singleQuote q = true.
Proof.
  unfold isQuote. rewrite (Ascii.eqb_sym q), (Ascii.eqb_sym q singleQuote).
  auto.
Qed.

Lemma parseEnvValue_plain st k v :
  plainValue v = true ->
  parseEnvValue st k v
  = {| envData := envSet k v (envData st); currentKey := currentKey st;
       currentValue := currentValue st; inMultiline := false;
       quoteChar := quoteChar st |}.
Proof.
  unfold plainValue. intros H.
  apply andb_prop in H. destruct H as [H Hq].
  apply andb_prop in H. destruct H as [_ Ht].
  apply negb_true_iff in Hq.
  destruct (tight_ends v Ht) as [Hh Hl].
  assert (Hd : headIs (Ascii.eqb doubleQuote) v = false
               /\ headIs (Ascii.eqb singleQuote) v = false).
  { destruct v as [|c r]; [auto|]. cbn [headIs] in *. unfold isQuote in Hq.
    apply orb_false_elim in Hq. destruct Hq as [H1 H2].
    rewrite (Ascii.eqb_sym doubleQuote c), (Ascii.eqb_sym singleQuote c).
    auto. }
  destruct Hd as [Hd Hs].
  unfold parseEnvValue, wrappedIn.
  rewrite (trimStart_head v Hh), (trim_tight v Ht), !startsWith_char, Hd, Hs.
  reflexivity.
Qed.

Lemma parseEnvValue_quoted st k q v :
  isQuote q = true ->
  parseEnvValue st k (String q v ++ String q "")
  = {| envData := envSet k v (envData st); currentKey := currentKey st;
       currentValue := currentValue st; inMultiline := false;
       quoteChar := quoteChar st |}.
Proof.
  intros Hq. pose proof (isQuote_not_space q Hq) as Hs.
  pose proof (isQuote_starts q Hq) as Hstart.
  set (w := (String q v ++ String q "")%string).
  assert (Hhead : forall f, headIs f w = f q) by reflexivity.
  assert (Hlast : forall f, lastIs f w = f q).
  { intros f. unfold w. rewrite lastIs_app. reflexivity. }
  assert (Htight : tight w = true).
  { unfold tight. rewrite Hhead, Hlast, Hs. reflexivity. }
  unfold parseEnvValue, wrappedIn.
  rewrite (trimStart_head w); [|rewrite Hhead; exact Hs].
  rewrite (trim_tight w Htight), !startsWith_char, !endsWith_char.
  rewrite !Hhead, !Hlast.
  change (firstChar w) with (String q ""). rewrite endsWith_char, Hlast.
  rewrite Ascii.eqb_refl, Hstart. cbn [negb andb].
  rewrite !andb_diag, Hstart.
  unfold w. cbn [append dropFirst]. rewrite dropLast_snoc. reflexivity.
Qed.

Lemma parseEnvValue_opens st k q first :
  isQuote q = true ->
  JsString.isEmpty first = false ->
  lastIs (Ascii.eqb q) first = false ->
  parseEnvValue st k (String q first)
  = {| envData := envData st; currentKey := Some k;
       currentValue := first; inMultiline := true;
       quoteChar := Some (String q "") |}.
Proof.
  intros Hq Hne Hl. pose proof (isQuote_not_space q Hq) as Hs.
  pose proof (isQuote_starts q Hq) as Hstart.
  unfold parseEnvValue.
  rewrite (trimStart_head (String q first)); [|exact Hs].
  rewrite !startsWith_char. cbn [headIs firstChar].
  rewrite Hstart, endsWith_char, lastIs_cons, Hne, Hl. reflexivity.
Qed.

Lemma parseEnvLine_continue st line q :
  inMultiline st = true -> quoteChar st = Some (String q "") ->
  closes q line = false ->
  parseEnvLine st line
  = {| envData := envData st; currentKey := currentKey st;
       currentValue := (currentValue st ++ lineFeed ++ line)%string;
       inMultiline := true; quoteChar := quoteChar st |}.
Proof.
  unfold parseEnvLine, closes. intros -> -> H. cbn [orNullText].
  rewrite H. reflexivity.
Qed.

Lemma parseEnvLine_close st line q :
  inMultiline st = true -> quoteChar st = Some (String q "") ->
  closes q line = true ->
  parseEnvLine st line
  = {| envData := envSet (orNullText (currentKey st))
                         (dropLast (currentValue st ++ lineFeed ++ line))
                         (envData st);
       currentKey := None; currentValue := "";
       inMultiline := false; quoteChar := None |}.
Proof.
  unfold parseEnvLine, closes. intros -> -> H. cbn [orNullText].
  rewrite H. reflexivity.
Qed.

Lemma parseEnvLines_middle q lines : forall st,
  inMultiline st = true -> quoteChar st = Some (String q "") ->
  neverCloses q lines = true ->
  fold_left parseEnvLine lines st
  = {| envData := envData st; currentKey := currentKey st;
       currentValue :=
         fold_left (fun acc line => (acc ++ lineFeed ++ line)%string)
                   lines (currentValue st);
       inMultiline := true; quoteChar := quoteChar st |}.
Proof.
  induction lines as [|line r IH]; intros st Hm Hq Hn.
  - destruct st. simpl in *. subst. reflexivity.
  - simpl in Hn. apply andb_prop in Hn. destruct Hn as [Hl Hr].
    apply andb_prop in Hl. destruct Hl as [_ Hl].
    apply negb_true_iff in Hl.
    cbn [fold_left]. rewrite (parseEnvLine_continue st line q Hm Hq Hl).
    rewrite IH; [reflexivity | reflexivity | exact Hq | exact Hr].
Qed.

Lemma continued_join lines : forall l,
  l <> [] ->
  fold_left (fun acc line => (acc ++ lineFeed ++ line)%string) lines
            (JsString.join lineFeed l)
  = JsString.join lineFeed (l ++ lines).
Proof.
  induction lines as [|line r IH]; intros l Hl.
  - rewrite app_nil_r. reflexivity.
  - cbn [fold_left]. rewrite <- (join_snoc lineFeed l line Hl).
    rewrite IH; [|destruct l; discriminate].
    rewrite <- app_assoc. reflexivity.
Qed.

Lemma oneLine_app a b : oneLine (a ++ b) = oneLine a && oneLine b.
Proof.
  induction a as [|c a IH]; [reflexivity|].
  change (String c a ++ b)%string with (String c (a ++ b)).
  rewrite !oneLine_cons, IH, andb_assoc. reflexivity.
Qed.

Lemma isQuote_oneLine q : isQuote q = true -> Ascii.eqb newline q = false.
Proof.
  unfold isQuote. intros H. apply orb_prop in H.
  destruct H as [H | H]; apply Ascii.eqb_eq in H; subst; reflexivity.
Qed.

Lemma closes_quote q last :
  isQuote q = true -> closes q (last ++ String q "") = true.
Proof.
  intros Hq. unfold closes. rewrite trimEnd_last.
  - rewrite endsWith_char, lastIs_app. cbn. apply Ascii.eqb_refl.
  - rewrite lastIs_app. cbn. apply isQuote_not_space. exact Hq.
Qed.

Lemma wellFormed_multi q k first middle closing :
  wellFormedItem (Multi q k first middle closing) = true ->
  isQuote q = true /\ plainKey k = true /\ oneLine first = true
  /\ JsString.isEmpty first = false
  /\ lastIs JsString.isWhiteSpace first = false
  /\ lastIs (Ascii.eqb q) first = false
  /\ neverCloses q middle = true
  /\ oneLine closing = true /\ closes q closing = true.
Proof.
  cbn [wellFormedItem]. intros H.
  apply andb_prop in H. destruct H as [H H9].
  apply andb_prop in H. destruct H as [H H8].
  apply andb_prop in H. destruct H as [H H7].
  apply andb_prop in H. destruct H as [H H6].
  apply andb_prop in H. destruct H as [H H5].
  apply andb_prop in H. destruct H as [H H4].
  apply andb_prop in H. destruct H as [H H3].
  apply andb_prop in H. destruct H as [H1 H2].
  apply negb_true_iff in H4, H5, H6. unfold neverCloses. auto 10.
Qed.

(** Split [oneLine] along the pieces of a string. *)
Ltac oneLine_split :=
  repeat first [rewrite oneLine_app | rewrite oneLine_cons].

(** The lines of a well-formed item have no line feed inside. *)
Lemma itemLines_oneLine item :
  wellFormedItem item = true -> forallb oneLine (itemLines item) = true.
Proof.
  destruct item as [line | k v | q k v | q k first middle closing];
    cbn [wellFormedItem itemLines forallb]; intros H.
  - apply andb_prop in H. destruct H as [H _]. rewrite H. reflexivity.
  - apply andb_prop in H. destruct H as [Hk Hv].
    destruct (plainKey_facts k Hk) as (Hk1 & _).
    unfold plainValue in Hv. apply andb_prop in Hv. destruct Hv as [Hv _].
    apply andb_prop in Hv. destruct Hv as [Hv _].
    oneLine_split. rewrite Hk1, Hv. reflexivity.
  - apply andb_prop in H. destruct H as [H Hv].
    apply andb_prop in H. destruct H as [Hq Hk].
    destruct (plainKey_facts k Hk) as (Hk1 & _).
    oneLine_split. rewrite Hk1, Hv, (isQuote_oneLine q Hq). reflexivity.
  - apply wellFormed_multi in H.
    destruct H as (Hq & Hk & Hf & _ & _ & _ & Hm & Hc & _).
    destruct (plainKey_facts k Hk) as (Hk1 & _).
    oneLine_split. rewrite Hk1, Hf, (isQuote_oneLine q Hq).
    assert (Hmid : forallb oneLine middle = true).
    { apply forallb_forall. intros x Hx. unfold neverCloses in Hm.
      rewrite forallb_forall in Hm. specialize (Hm x Hx).
      apply andb_prop in Hm. apply Hm. }
    rewrite forallb_app. cbn [forallb]. rewrite Hmid, Hc. reflexivity.
Qed.

(** Reading the lines of a well-formed item, outside a multi-line
    value, has the effect of the item and ends outside a multi-line
    value. *)
Lemma parseEnvLines_item item st :
  wellFormedItem item = true ->
  inMultiline st = false ->
  inMultiline (fold_left parseEnvLine (itemLines item) st) = false
  /\ envData (fold_left parseEnvLine (itemLines item) st)
     = itemEffect item (envData st).
Proof.
  destruct item as [line | k v | q k v | q k first middle closing];
    cbn [wellFormedItem itemLines itemEffect]; intros H Hst.
  - apply andb_prop in H. destruct H as [_ H].
    cbn [fold_left]. rewrite (parseEnvLine_skips st line Hst H). auto.
  - apply andb_prop in H. destruct H as [Hk Hv].
    cbn [fold_left].
    change (k ++ "=" ++ v)%string with (k ++ String "=" v)%string.
    rewrite parseEnvLine_entry, (parseEnvValue_plain st k v Hv);
      [split; reflexivity | exact Hst | exact Hk |].
    unfold plainValue in Hv. apply andb_prop in Hv. destruct Hv as [Hv _].
    apply andb_prop in Hv. destruct Hv as [_ Hv].
    rewrite lastIs_cons. destruct (JsString.isEmpty v); [reflexivity|].
    apply (tight_ends v Hv).
  - apply andb_prop in H. destruct H as [H Hv].
    apply andb_prop in H. destruct H as [Hq Hk].
    cbn [fold_left].
    change (k ++ "=" ++ String q v ++ String q "")%string
      with (k ++ String "=" (String q v ++ String q ""))%string.
    rewrite parseEnvLine_entry, (parseEnvValue_quoted st k q v Hq);
      [split; reflexivity | exact Hst | exact Hk |].
    rewrite lastIs_cons, lastIs_app. cbn.
    apply isQuote_not_space. exact Hq.
  - apply wellFormed_multi in H.
    destruct H as (Hq & Hk & _ & Hne & Hws & Hlq & Hm & _ & Hc).
    cbn [fold_left].
    change (k ++ "=" ++ String q first)%string
      with (k ++ String "=" (String q first))%string.
    rewrite parseEnvLine_entry, (parseEnvValue_opens st k q first Hq Hne Hlq);
      [| exact Hst | exact Hk |].
    2:{ rewrite !lastIs_cons, Hne. cbn. exact Hws. }
    rewrite fold_left_app. cbn [fold_left].
    rewrite (parseEnvLines_middle q middle);
      [|reflexivity | reflexivity | exact Hm].
    rewrite (parseEnvLine_close _ closing q);
      [|reflexivity | reflexivity | exact Hc].
    cbn [inMultiline envData currentKey currentValue orNullText].
    split; [reflexivity|]. do 2 f_equal.
    change (first :: middle ++ [closing]) with ((first :: middle) ++ [closing]).
    rewrite join_snoc by discriminate.
    assert (Hj : [first] <> []) by discriminate.
    apply (continued_join middle) in Hj. cbn [app] in Hj.
    rewrite <- Hj. reflexivity.
Qed.

(* ================================================================== *)
(** ** The [.env] parser: whole files                                 *)
(* ================================================================== *)

Lemma parseEnvLines_items items : forall st,
  forallb wellFormedItem items = true ->
  inMultiline st = false ->
  inMultiline (fold_left parseEnvLine (flat_map itemLines items) st) = false
  /\ envData (fold_left parseEnvLine (flat_map itemLines items) st)
     = itemsEffectFrom (envData st) items.
Proof.
  induction items as [|item r IH]; intros st H Hst.
  - split; [exact Hst | reflexivity].
  - cbn [forallb] in H. apply andb_prop in H. destruct H as [Hi Hr].
    cbn [flat_map]. rewrite fold_left_app.
    destruct (parseEnvLines_item item st Hi Hst) as [Hm He].
    destruct (IH _ Hr Hm) as [Hm' He'].
    split; [exact Hm'|]. rewrite He', He. reflexivity.
Qed.

Lemma flat_itemLines_oneLine items :
  forallb wellFormedItem items = true ->
  forallb oneLine (flat_map itemLines items) = true.
Proof.
  induction items as [|item r IH]; [reflexivity|].
  cbn [forallb flat_map]. intros H. apply andb_prop in H.
  destruct H as [Hi Hr].
  rewrite forallb_app, (itemLines_oneLine item Hi), (IH Hr). reflexivity.
Qed.

(** A file written line by line is read line by line. *)
Lemma parseEnvFile_join lines :
  forallb oneLine lines = true ->
  parseEnvFile (JsString.join lineFeed lines)
  = envFinish (fold_left parseEnvLine lines envParserStart).
Proof.
  intros H. unfold parseEnvFile. fold (envFinish
    (fold_left parseEnvLine (splitLines (JsString.join lineFeed lines))
               envParserStart)).
  destruct lines as [|a r]; [reflexivity|].
  rewrite splitLines_join; [reflexivity | exact H | discriminate].
Qed.

Lemma parseEnvFile_wellFormed items :
  forallb wellFormedItem items = true ->
  parseEnvFile (envFile items) = itemsEffect items.
Proof.
  intros H. unfold envFile.
  rewrite (parseEnvFile_join _ (flat_itemLines_oneLine items H)).
  destruct (parseEnvLines_items items envParserStart H eq_refl) as [Hm He].
  unfold envFinish. rewrite Hm. exact He.
Qed.



Lemma itemsEffect_app before item after :
  itemsEffect (before ++ item :: after)
  = itemsEffectFrom (itemEffect item (itemsEffect before)) after.
Proof. unfold itemsEffect, itemsEffectFrom. rewrite fold_left_app. reflexivity. Qed.

Lemma multi_value_dropLast first middle rest c :
  dropLast (JsString.join lineFeed
              (first :: middle ++ [(rest ++ String c "")%string]))
  = JsString.join lineFeed (first :: middle ++ [rest]).
Proof.
  change (first :: middle ++ [(rest ++ String c "")%string])
    with ((first :: middle) ++ [(rest ++ String c "")%string]).
  change (first :: middle ++ [rest]) with ((first :: middle) ++ [rest]).
  rewrite !join_snoc by discriminate.
  rewrite <- !append_assoc. apply dropLast_snoc.
Qed.

(** X26. A value written between quotes over several lines, the
    closing quote being the last character of its line, is read as
    the text between the quotes, line feeds included. *)
Theorem parseEnvFile_reads_multiline_values
    (before after : list EnvItem) (q : ascii) (key first : string)
    (middle : list string) (last : string) :
  forallb wellFormedItem
    (before
     ++ Multi q key first middle (last ++ String q "")%string :: after)
  = true ->
  parseEnvFile
    (envFile
       (before
        ++ Multi q key first middle (last ++ String q "")%string :: after))
  = itemsEffectFrom
      (envSet key (JsString.join lineFeed (first :: middle ++ [last]))
              (itemsEffect before))
      after.
Proof.
  intros H. rewrite (parseEnvFile_wellFormed _ H), itemsEffect_app.
  cbn [itemEffect]. rewrite multi_value_dropLast. reflexivity.
Qed.

Lemma parseEnvFile_reads_multiline_values_witness :
  parseEnvFile
    (envFile
       ([Plain "PORT" "8045"]
        ++ Multi doubleQuote "SYSTEM_INSTRUCTION" "You are a helper."
             ["  Be brief."] ("Be kind." ++ String doubleQuote "")%string
           :: [Plain "HOST" "0.0.0.0"]))
  = [("PORT", "8045");
     ("SYSTEM_INSTRUCTION",
      ("You are a helper." ++ lineFeed ++ "  Be brief." ++ lineFeed
       ++ "Be kind.")%string);
     ("HOST", "0.0.0.0")].
Proof.
  rewrite (parseEnvFile_reads_multiline_values [Plain "PORT" "8045"]
             [Plain "HOST" "0.0.0.0"] doubleQuote "SYSTEM_INSTRUCTION"
             "You are a helper." ["  Be brief."] "Be kind.");
    reflexivity.
Defined.

(** X27. When one more character follows the closing quote of a value
    over several lines and the line still closes the value (the
    character is white space, or the quote again), the value read
    keeps the closing quote at its end: the character removed is the
    last one of the line, not the quote. *)
Theorem parseEnvFile_keeps_quote_before_trailing_space
    (before after : list EnvItem) (q w : ascii) (key first : string)
    (middle : list string) (last : string) :
  forallb wellFormedItem
    (before
     ++ Multi q key first middle (last ++ String q (String w ""))%string
        :: after)
  = true ->
  parseEnvFile
    (envFile
       (before
        ++ Multi q key first middle (last ++ String q (String w ""))%string
           :: after))
  = itemsEffectFrom
      (envSet key
         (JsString.join lineFeed
            (first :: middle ++ [(last ++ String q "")%string]))
         (itemsEffect before))
      after.
Proof.
  intros H. rewrite (parseEnvFile_wellFormed _ H), itemsEffect_app.
  cbn [itemEffect].
  change (last ++ String q (String w ""))%string
    with (last ++ (String q "" ++ String w ""))%string.
  rewrite <- append_assoc, multi_value_dropLast. reflexivity.
Qed.

Lemma parseEnvFile_keeps_quote_before_trailing_space_witness :
  parseEnvFile
    (envFile
       ([] ++ Multi doubleQuote "SYSTEM_INSTRUCTION" "You are a helper." []
                ("Be kind." ++ String doubleQuote (String " " ""))%string
           :: [Plain "HOST" "0.0.0.0"]))
  = [("SYSTEM_INSTRUCTION",
      ("You are a helper." ++ lineFeed ++ "Be kind."
       ++ String doubleQuote "")%string);
     ("HOST", "0.0.0.0")].
Proof.
  rewrite (parseEnvFile_keeps_quote_before_trailing_space []
             [Plain "HOST" "0.0.0.0"] doubleQuote " " "SYSTEM_INSTRUCTION"
             "You are a helper." [] "Be kind.");
    reflexivity.
Defined.

Lemma opensValue_facts q key first :
  opensValue q key first = true ->
  isQuote q = true /\ plainKey key = true /\ oneLine first = true
  /\ JsString.isEmpty first = false
  /\ lastIs JsString.isWhiteSpace first = false
  /\ lastIs (Ascii.eqb q) first = false.
Proof.
  unfold opensValue. intros H.
  apply andb_prop in H. destruct H as [H H6].
  apply andb_prop in H. destruct H as [H H5].
  apply andb_prop in H. destruct H as [H H4].
  apply andb_prop in H. destruct H as [H H3].
  apply andb_prop in H. destruct H as [H1 H2].
  apply negb_true_iff in H4, H5, H6. auto 10.
Qed.

(** X28. A quoted value that is never closed runs to the end of the
    file: every following line belongs to it.  It is kept under its
    key, except under the empty key, where it is dropped with all the
    lines it took. *)
Theorem parseEnvFile_unclosed_value_takes_the_rest
    (items : list EnvItem) (q : ascii) (key first : string)
    (rest : list string) :
  forallb wellFormedItem items = true ->
  opensValue q key first = true ->
  neverCloses q rest = true ->
  parseEnvFile
    (JsString.join lineFeed
       (flat_map itemLines items
        ++ (key ++ "=" ++ String q first)%string :: rest))
  = if JsString.isEmpty key then itemsEffect items
    else envSet key (JsString.join lineFeed (first :: rest))
                (itemsEffect items).
Proof.
  intros Hi Ho Hr.
  destruct (opensValue_facts q key first Ho)
    as (Hq & Hk & Hf & Hne & Hws & Hlq).
  destruct (plainKey_facts key Hk) as (Hk1 & _).
  assert (Hrest : forallb oneLine rest = true).
  { apply forallb_forall. intros x Hx. unfold neverCloses in Hr.
    rewrite forallb_forall in Hr. specialize (Hr x Hx).
    apply andb_prop in Hr. apply Hr. }
  rewrite parseEnvFile_join.
  2:{ rewrite forallb_app, (flat_itemLines_oneLine items Hi).
      cbn [forallb andb]. oneLine_split.
      rewrite Hk1, Hf, (isQuote_oneLine q Hq), Hrest. reflexivity. }
  rewrite fold_left_app.
  destruct (parseEnvLines_items items envParserStart Hi eq_refl) as [Hm He].
  set (st := fold_left parseEnvLine (flat_map itemLines items) envParserStart)
    in *.
  cbn [fold_left].
  change (key ++ "=" ++ String q first)%string
    with (key ++ String "=" (String q first))%string.
  rewrite parseEnvLine_entry, (parseEnvValue_opens st key q first Hq Hne Hlq);
    [| exact Hm | exact Hk |].
  2:{ rewrite !lastIs_cons, Hne. cbn. exact Hws. }
  rewrite (parseEnvLines_middle q rest); [|reflexivity | reflexivity | exact Hr].
  unfold envFinish, keyPending.
  cbn [inMultiline currentKey currentValue envData orNullText andb].
  unfold JsString.truthy. destruct (JsString.isEmpty key); cbn [negb].
  - exact He.
  - rewrite He. f_equal.
    assert (Hj : [first] <> []) by discriminate.
    apply (continued_join rest) in Hj. exact Hj.
Qed.

Lemma parseEnvFile_unclosed_value_takes_the_rest_witness :
  parseEnvFile
    (JsString.join lineFeed
       (flat_map itemLines [Plain "PORT" "8045"]
        ++ ("SYSTEM_INSTRUCTION" ++ "=" ++ String doubleQuote "You are")%string
           :: ["a helper."; "HOST=0.0.0.0"]))
  = [("PORT", "8045");
     ("SYSTEM_INSTRUCTION",
      ("You are" ++ lineFeed ++ "a helper." ++ lineFeed
       ++ "HOST=0.0.0.0")%string)].
Proof.
  rewrite (parseEnvFile_unclosed_value_takes_the_rest [Plain "PORT" "8045"]
             doubleQuote "SYSTEM_INSTRUCTION" "You are"
             ["a helper."; "HOST=0.0.0.0"]);
    reflexivity.
Defined.

(* ================================================================== *)
(** ** The API key                                                    *)
(* ================================================================== *)



(** X29. The API key is generated once: whatever the random source
    gives at a later call, a second call of [getApiKey] under the same
    environment returns the key of the first call and leaves the cache
    as the first call left it. *)
Theorem getApiKey_generates_once
    (env : Env) (randomHex laterHex : string) (cache : ApiKeyCache) :
  getApiKey env laterHex (snd (getApiKey env randomHex cache))
  = getApiKey env randomHex cache.
Proof.
  unfold getApiKey. destruct (truthyEnv (env "API_KEY")); [reflexivity|].
  destruct (noApiKey cache) eqn:Hc; cbn [snd].
  - reflexivity.
  - rewrite Hc. reflexivity.
Qed.

